(** * logsheet: the geometry, formatting and KML core of [app13-1.py]

    A shallow embedding of the pure functions of the drone-survey planner:
    the DMS formatter, the haversine distance and polyline length, the
    spherical area approximation, the KML reader and writer and the
    axis-order normaliser.

    Python [float]s are the kernel's binary64 floats ([PrimFloat]); their
    comparisons, rounding and arithmetic are the IEEE-754 ones.  Python
    [int]s are [Z].  A [str] is a [string] of bytes holding its UTF-8
    encoding.  Calls to [st.error] and [st.warning] are collected in a log
    that every reporting function returns next to its value. *)

From Stdlib Require Import ZArith Floats String Ascii List Bool Lia DecimalString Setoid.
Import ListNotations.

Local Open Scope Z_scope.
Set Warnings "-inexact-float,-register-all,-abstract-large-number".

Infix "+++" := String.append (right associativity, at level 60).

(** ** Python values and builtins *)

Module Py.

(** The exceptions the modelled code can meet. *)
Inductive exn : Set :=
| ValueError (msg : string)
| TypeError (msg : string)
| OverflowError (msg : string)
| UnicodeDecodeError
| IndexError
| ParseError.

(** A computation that returns or raises. *)
Inductive result (A : Type) : Type :=
| Ok (a : A)
| Raise (e : exn).
Arguments Ok {A} a.
Arguments Raise {A} e.

Definition bind {A B} (r : result A) (k : A -> result B) : result B :=
  match r with
  | Ok a => k a
  | Raise e => Raise e
  end.

(** What the page shows: [st.error(msg)] and [st.warning(msg)]. *)
Inductive diagnostic : Set :=
| StError (prefix : string) (cause : option exn)
| StWarning (msg : string).

Definition is_warning (d : diagnostic) : bool :=
  match d with
  | StWarning _ => true
  | StError _ _ => false
  end.

(** A number is an [int] or a [float]. *)
Inductive num : Set :=
| Int (z : Z)
| Float (f : float).

(** [float(z)] for an int: the nearest binary64, ties to even. *)
Definition float_of_Z (z : Z) : float :=
  SF2Prim (binary_normalize prec emax z 0 false).

Definition to_float (n : num) : float :=
  match n with
  | Int z => float_of_Z z
  | Float f => f
  end.

(** [a + b]: int addition on two ints, binary64 addition otherwise. *)
Definition add (a b : num) : num :=
  match a, b with
  | Int x, Int y => Int (x + y)
  | _, _ => Float (to_float a + to_float b)%float
  end.

(** [a * b], likewise. *)
Definition mul (a b : num) : num :=
  match a, b with
  | Int x, Int y => Int (x * y)
  | _, _ => Float (to_float a * to_float b)%float
  end.

(** [abs(a)]. *)
Definition abs_num (a : num) : num :=
  match a with
  | Int x => Int (Z.abs x)
  | Float f => Float (abs f)
  end.

(** [int(x)]: truncation toward zero; [nan] and the infinities raise. *)
Definition int_of_float (x : float) : option Z :=
  match Prim2SF x with
  | S754_zero _ => Some 0
  | S754_finite s m e =>
      let a := Z.shiftl (Zpos m) e in
      Some (if s then - a else a)
  | S754_infinity _ | S754_nan => None
  end.

(** Decimal digits of a natural number. *)
Definition digits (n : Z) : string :=
  NilZero.string_of_uint (N.to_uint (Z.to_N n)).

Fixpoint zeros (n : nat) : string :=
  match n with
  | O => EmptyString
  | S k => String "0" (zeros k)
  end.

(** [s.rjust(w, '0')] and [s.ljust(w, '0')]. *)
Definition rjust0 (w : nat) (s : string) : string :=
  zeros (w - String.length s) +++ s.

Definition ljust0 (w : nat) (s : string) : string :=
  s +++ zeros (w - String.length s).

(** [f"{z:02d}"]: sign-aware zero padding to width 2. *)
Definition format_02d (z : Z) : string :=
  if z <? 0 then "-" +++ rjust0 1 (digits (- z))
  else rjust0 2 (digits z).

(** Nearest integer to [n / d] ([d > 0]), ties to even. *)
Definition div_half_even (n d : Z) : Z :=
  let q := n / d in
  let r := n mod d in
  match 2 * r ?= d with
  | Lt => q
  | Gt => q + 1
  | Eq => if Z.even q then q else q + 1
  end.

(** [|x| * 10^k] rounded to an integer, from the exact binary value. *)
Definition scaled_round (k : Z) (m : positive) (e : Z) : Z :=
  if 0 <=? e then Zpos m * 2 ^ e * 10 ^ k
  else div_half_even (Zpos m * 10 ^ k) (2 ^ (- e)).

(** [f"{x:.4f}"]: fixed notation, 4 digits after the point, correctly
    rounded. *)
Definition format_4f (x : float) : string :=
  match Prim2SF x with
  | S754_nan => "nan"
  | S754_infinity s => if s then "-inf" else "inf"
  | S754_zero s => (if s then "-" else EmptyString) +++ "0.0000"
  | S754_finite s m e =>
      let n := scaled_round 4 m e in
      (if s then "-" else EmptyString)
        +++ digits (n / 10000) +++ "." +++ rjust0 4 (digits (n mod 10000))
  end.

(** The binary64 nearest to [n / d] ([n >= 0], [d > 0]), ties to even,
    with sign [s]: the quotient is taken to 64 bits or more and a sticky
    bit records a remainder. *)
Definition float_of_ratio (s : bool) (n d : Z) : float :=
  if n =? 0 then (if s then PrimFloat.neg_zero else PrimFloat.zero)
  else
    let k := Z.max 0 (64 + Z.log2 d - Z.log2 n) in
    let q := (n * 2 ^ k) / d in
    let r := (n * 2 ^ k) mod d in
    let m := 2 * q + (if r =? 0 then 0 else 1) in
    SF2Prim (binary_normalize prec emax (if s then - m else m) (- k - 1) s).

(** [round(x, ndigits)] for [ndigits >= 0]: the decimal nearest to the
    exact value of [x], ties to even, read back as a float; [nan] and the
    infinities round to themselves. *)
Definition round_float (x : float) (ndigits : Z) : float :=
  match Prim2SF x with
  | S754_finite s m e =>
      float_of_ratio s (scaled_round ndigits m e) (10 ^ ndigits)
  | _ => x
  end.

(** What [==] compares: [None] for [nan], which equals nothing, and one
    value for the two zeros. *)
Definition compared_sf (sf : spec_float) : option spec_float :=
  match sf with
  | S754_nan => None
  | S754_zero _ => Some (S754_zero false)
  | _ => Some sf
  end.

Definition compared (x : float) : option spec_float :=
  compared_sf (Prim2SF x).

(** [s[k:]]. *)
Fixpoint drop (k : nat) (s : string) : string :=
  match k, s with
  | O, _ => s
  | S k', String _ s' => drop k' s'
  | S _, EmptyString => EmptyString
  end.

(** The double quote character, as a one-character string. *)
Definition dq : string := String (ascii_of_nat 34) EmptyString.

End Py.

(** ** DMS formatter *)

Module Dms.
Import Py.

(** Lines 34-40: degrees, whole minutes and raw seconds of [|decimal|]. *)
Definition decompose (decimal : float) : option (Z * Z * float) :=
  let abs_val := abs decimal in
  match int_of_float abs_val with
  | None => None
  | Some deg =>
      let min_full := ((abs_val - float_of_Z deg) * 60)%float in
      match int_of_float min_full with
      | None => None
      | Some min_val =>
          let sec := ((min_full - float_of_Z min_val) * 60)%float in
          Some (deg, min_val, sec)
      end
  end.

(** Lines 43-48: the carry out of the seconds. *)
Definition carry (dms : Z * Z * float) : Z * Z * float :=
  let '(deg, min_val, sec) := dms in
  if (59.99995 <=? sec)%float then
    let min_val := min_val + 1 in
    if 60 <=? min_val then (deg + 1, 0, 0%float)
    else (deg, min_val, 0%float)
  else (deg, min_val, sec).

(** The pieces of the output string. *)
Record fields : Set := {
  deg_str : string;
  min_str : string;
  sec_formatted : string;
  direction : string
}.

Definition direction_of (decimal : float) (is_lat : bool) : string :=
  if is_lat then (if (0 <=? decimal)%float then "N" else "S")
  else (if (0 <=? decimal)%float then "E" else "W").

(** Lines 51-64: the two integer fields and the seconds field. *)
Definition render (dir : string) (dms : Z * Z * float) : option fields :=
  let '(deg, min_val, sec) := dms in
  match int_of_float sec with
  | None => None
  | Some sec_int =>
      let sec_frac := (sec - float_of_Z sec_int)%float in
      let sec_frac_formatted := drop 2 (format_4f sec_frac) in
      let sec_frac_formatted :=
        if (String.length sec_frac_formatted <? 4)%nat
        then ljust0 4 sec_frac_formatted else sec_frac_formatted in
      Some {| deg_str := format_02d deg;
              min_str := format_02d min_val;
              sec_formatted := format_02d sec_int +++ "." +++ sec_frac_formatted;
              direction := dir |}
  end.

Definition dms_fields (decimal : float) (is_lat : bool) : option fields :=
  match decompose decimal with
  | None => None
  | Some dms => render (direction_of decimal is_lat) (carry dms)
  end.

(** Line 66: the f-string that joins the fields. *)
Definition join (f : fields) : string :=
  deg_str f +++ "°" +++ min_str f +++ "'" +++ sec_formatted f +++ dq +++ direction f.

(** [decimal_to_dms_formatted(decimal, is_lat)]; [None] when an [int()]
    of a non-finite value raises. *)
Definition decimal_to_dms_formatted (decimal : float) (is_lat : bool)
  : option string :=
  option_map join (dms_fields decimal is_lat).

End Dms.


(** ** The [math] module *)

Module PyMath.
Import Py.

(** CPython's wrapper around a one-argument libm function ([math_1]): a
    [nan] result of a number, or an infinite result of a finite number, is
    a [ValueError]. *)
Definition math_1 (f : float -> float) (x : float) : result float :=
  let r := f x in
  if is_nan r && negb (is_nan x) then Raise (ValueError "math domain error")
  else if is_infinity r && is_finite x then Raise (ValueError "math domain error")
  else Ok r.

(** The same for two arguments ([math_2]). *)
Definition math_2 (f : float -> float -> float) (x y : float) : result float :=
  let r := f x y in
  if is_nan r && negb (is_nan x) && negb (is_nan y)
  then Raise (ValueError "math domain error")
  else if is_infinity r && is_finite x && is_finite y
  then Raise (OverflowError "math range error")
  else Ok r.

(** [math.sqrt]: the IEEE square root under [math_1]. *)
Definition sqrt (x : float) : result float := math_1 PrimFloat.sqrt x.

(** [math.radians(x)] is [x * (pi / 180.0)], with no error check. *)
Definition degToRad : float := (3.141592653589793 / 180)%float.

Definition radians (x : float) : float := (x * degToRad)%float.

End PyMath.

(** ** Distance and area engines *)

Module Geo.
Import Py.

(** [lo <= x <= hi], a chained comparison of Python. *)
Definition between (lo hi x : float) : bool :=
  ((lo <=? x) && (x <=? hi))%float.

Definition lat_ok : float -> bool := between (-90) 90.
Definition lon_ok : float -> bool := between (-180) 180.

(** A point is [lat, lon]. *)
Definition point : Set := float * float.

(** Earth radius in meters, an [int] in the source. *)
Definition R : Z := 6371000.

(** [coordinates[i]]; out of range is an [IndexError]. *)
Definition getitem {A} (l : list A) (i : nat) : result A :=
  match nth_error l i with
  | Some a => Ok a
  | None => Raise IndexError
  end.

Section Libm.

(** The C library functions behind [math.sin], [math.cos], [math.atan2] and
    the float power operator. *)
Variables libm_sin libm_cos : float -> float.
Variables libm_atan2 libm_pow : float -> float -> float.

Definition math_sin := PyMath.math_1 libm_sin.
Definition math_cos := PyMath.math_1 libm_cos.
Definition math_atan2 := PyMath.math_2 libm_atan2.

(** [x ** 2] on a float: C's [pow(x, 2.0)]; a finite [x] whose square
    overflows is an [OverflowError]. *)
Definition pow2 (x : float) : result float :=
  let r := libm_pow x 2%float in
  if is_infinity r && is_finite x
  then Raise (OverflowError "(34, 'Numerical result out of range')")
  else Ok r.

(** The [try] block of [calculate_distance] (lines 72-85). *)
Definition haversine (lat1 lon1 lat2 lon2 : float) : result float :=
  if negb (forallb lat_ok [lat1; lat2]) || negb (forallb lon_ok [lon1; lon2])
  then Raise (ValueError "Invalid coordinate values")
  else
    let lat1 := PyMath.radians lat1 in
    let lon1 := PyMath.radians lon1 in
    let lat2 := PyMath.radians lat2 in
    let lon2 := PyMath.radians lon2 in
    let dlat := (lat2 - lat1)%float in
    let dlon := (lon2 - lon1)%float in
    bind (math_sin (dlat / 2)%float) (fun s1 =>
    bind (pow2 s1) (fun h1 =>
    bind (math_cos lat1) (fun c1 =>
    bind (math_cos lat2) (fun c2 =>
    bind (math_sin (dlon / 2)%float) (fun s2 =>
    bind (pow2 s2) (fun h2 =>
    let a := (h1 + c1 * c2 * h2)%float in
    bind (PyMath.sqrt a) (fun q1 =>
    bind (PyMath.sqrt (1 - a)%float) (fun q2 =>
    bind (math_atan2 q1 q2) (fun t =>
    let c := (2 * t)%float in
    Ok (float_of_Z R * c)%float))))))))).

(** [calculate_distance]: the [except Exception] clause reports and
    returns the int [0]. *)
Definition calculate_distance (lat1 lon1 lat2 lon2 : float)
  : num * list diagnostic :=
  match haversine lat1 lon1 lat2 lon2 with
  | Ok d => (Float d, [])
  | Raise e => (Int 0, [StError "Distance calculation error: " (Some e)])
  end.

(** One turn of the loop of [calculate_polyline_length] at index [i]; the
    state is [total_distance] and the log so far. *)
Definition polyline_step (coordinates : list point)
  (st : result (num * list diagnostic)) (i : nat)
  : result (num * list diagnostic) :=
  bind st (fun '(total_distance, log) =>
  bind (getitem coordinates i) (fun '(lat1, lon1) =>
  bind (getitem coordinates (i + 1)) (fun '(lat2, lon2) =>
  let '(d, msgs) := calculate_distance lat1 lon1 lat2 lon2 in
  Ok (add total_distance d, log ++ msgs)))).

(** [range(n)] for an int [n]; empty when [n <= 0]. *)
Definition range (n : Z) : list nat := seq 0 (Z.to_nat n).

Definition calculate_polyline_length (coordinates : list point)
  : result (num * list diagnostic) :=
  fold_left (polyline_step coordinates)
    (range (Z.of_nat (length coordinates) - 1))
    (Ok (Int 0, [])).

(** The term one edge adds to [area] (lines 146-152). *)
Definition excess_term (p1 p2 : point) : result float :=
  let '(lat1, lon1) := p1 in
  let '(lat2, lon2) := p2 in
  let lat1_rad := PyMath.radians lat1 in
  let lat2_rad := PyMath.radians lat2 in
  let lon1_rad := PyMath.radians lon1 in
  let lon2_rad := PyMath.radians lon2 in
  bind (math_sin lat1_rad) (fun s1 =>
  bind (math_sin lat2_rad) (fun s2 =>
  Ok ((lon2_rad - lon1_rad) * (2 + s1 + s2))%float)).

(** One turn of the loop of [calculate_polygon_area_approximate]. *)
Definition area_step (coordinates : list point) (n : nat)
  (st : result num) (i : nat) : result num :=
  bind st (fun area =>
  let j := ((i + 1) mod n)%nat in
  bind (getitem coordinates i) (fun p1 =>
  bind (getitem coordinates j) (fun p2 =>
  bind (excess_term p1 p2) (fun t =>
  Ok (add area (Float t)))))).

(** [abs(area) * R * R / 2.0] and then [/ 10000]. *)
Definition to_hectares (area : num) : num :=
  let area := mul (mul (abs_num area) (Int R)) (Int R) in
  let area := (to_float area / 2)%float in
  Float (area / float_of_Z 10000)%float.

Definition calculate_polygon_area_approximate (coordinates : list point)
  : result num :=
  if (length coordinates <? 3)%nat then Ok (Int 0)
  else
    let n := length coordinates in
    bind (fold_left (area_step coordinates n) (range (Z.of_nat n)) (Ok (Int 0)))
      (fun area => Ok (to_hectares area)).

(** What one turn of that loop does with the two points it has read. *)
Definition add_leg (st : result (num * list diagnostic)) (leg : point * point)
  : result (num * list diagnostic) :=
  bind st (fun '(total_distance, log) =>
  let '((lat1, lon1), (lat2, lon2)) := leg in
  let '(d, msgs) := calculate_distance lat1 lon1 lat2 lon2 in
  Ok (add total_distance d, log ++ msgs)).

(** The distances of the legs of a path, with what each call reports. *)
Definition leg_distances (legs : list (point * point))
  : list (num * list diagnostic) :=
  map (fun '((lat1, lon1), (lat2, lon2)) =>
         calculate_distance lat1 lon1 lat2 lon2) legs.

(** What one turn of that loop does with the two points it has read. *)
Definition add_edge (st : result num) (edge : point * point) : result num :=
  bind st (fun area =>
  bind (excess_term (fst edge) (snd edge)) (fun t =>
  Ok (add area (Float t)))).

(** The term of one edge when no sine raises. *)
Definition excess (edge : point * point) : float :=
  let '((lat1, lon1), (lat2, lon2)) := edge in
  ((PyMath.radians lon2 - PyMath.radians lon1)
   * (2 + libm_sin (PyMath.radians lat1) + libm_sin (PyMath.radians lat2)))%float.

(** [math.sin] returns at the latitude of [p]. *)
Definition sin_returns (p : point) : Prop :=
  math_sin (PyMath.radians (fst p)) = Ok (libm_sin (PyMath.radians (fst p))).

(** Line 82: the value [a] of the haversine formula, for coordinates in
    degrees. *)
Definition haversine_a (lat1 lon1 lat2 lon2 : float) : result float :=
  let lat1 := PyMath.radians lat1 in
  let lon1 := PyMath.radians lon1 in
  let lat2 := PyMath.radians lat2 in
  let lon2 := PyMath.radians lon2 in
  let dlat := (lat2 - lat1)%float in
  let dlon := (lon2 - lon1)%float in
  bind (math_sin (dlat / 2)%float) (fun s1 =>
  bind (pow2 s1) (fun h1 =>
  bind (math_cos lat1) (fun c1 =>
  bind (math_cos lat2) (fun c2 =>
  bind (math_sin (dlon / 2)%float) (fun s2 =>
  bind (pow2 s2) (fun h2 =>
  Ok (h1 + c1 * c2 * h2)%float)))))).

End Libm.

(** The consecutive pairs of a sequence: [n - 1] of them for [n] points,
    none from the last point back to the first. *)
Definition segments {A} (l : list A) : list (A * A) := combine l (tl l).

(** The edges of the closed polygon: the consecutive pairs and then the
    pair from the last point to the first. *)
Definition closed_edges {A} (l : list A) : list (A * A) :=
  combine l (tl l ++ firstn 1 l).

(** [ensure_lat_lon_order(coord)]. *)
Definition ensure_lat_lon_order (coord : list float) : list float :=
  match coord with
  | [c0; c1] =>
      if lat_ok c0 && lon_ok c1 then coord
      else if lon_ok c0 && lat_ok c1 then [c1; c0]
      else coord
  | _ => coord
  end.

(** A pair that is dropped with a warning: two items, not both within
    the ranges. *)
Definition rejected_pair (coord : list float) : bool :=
  match coord with
  | [lat; lon] => negb (lat_ok lat && lon_ok lon)
  | _ => false
  end.

(** A coordinate list that is a pair within the ranges. *)
Definition valid_pair (coord : list float) : bool :=
  match coord with
  | [lat; lon] => lat_ok lat && lon_ok lon
  | _ => false
  end.

Section Validate.

(** [repr] of a float, as [str] of a list shows its items. *)
Variable float_repr : float -> string.

(** [str(coord)] for a list of floats. *)
Definition list_str (coord : list float) : string :=
  "[" +++ String.concat ", " (map float_repr coord) +++ "]".

(** One turn of the loop of [validate_coordinates]: a list of another
    length is passed over in silence. *)
Definition validate_step (st : list (list float) * list diagnostic)
  (coord : list float) : list (list float) * list diagnostic :=
  let '(valid_coords, log) := st in
  match coord with
  | [lat; lon] =>
      if lat_ok lat && lon_ok lon then (valid_coords ++ [coord], log)
      else (valid_coords,
            log ++ [StWarning ("Invalid coordinates skipped: " +++ list_str coord)])
  | _ => st
  end.

(** [validate_coordinates(coordinates)]. *)
Definition validate_coordinates (coordinates : list (list float))
  : list (list float) * list diagnostic :=
  fold_left validate_step coordinates ([], []).

End Validate.

Section Projection.

Variable libm_sin : float -> float.

(** The area in square meters of the polygon that shapely builds from the
    coordinates and pyproj projects to EPSG:3857 (lines 106-119); any of
    these calls may raise. *)
Variable projected_area : list point -> result float.

(** [str(e)] of an exception. *)
Variable str_exn : exn -> string.

(** [calculate_polygon_area(coordinates)]: what is reported, and the value
    returned or the exception the fallback lets through. *)
Definition calculate_polygon_area (coordinates : list point)
  : list diagnostic * result num :=
  if (length coordinates <? 3)%nat then ([], Ok (Int 0))
  else
    match projected_area coordinates with
    | Ok area_sq_m =>
        let area_hectares := (area_sq_m / float_of_Z 10000)%float in
        ([], Ok (Float area_hectares))
    | Raise e =>
        ([StWarning ("Area calculation warning: " +++ str_exn e
                     +++ ". Using approximate method.")],
         calculate_polygon_area_approximate libm_sin coordinates)
    end.

End Projection.

End Geo.

(** ** Strings *)

Module Str.

(** A Python [str] is kept as its UTF-8 bytes.

    The ASCII white space of [str.isspace]: U+0009 to U+000D, U+001C to
    U+0020. *)
Definition is_space (c : ascii) : bool :=
  let n := nat_of_ascii c in
  ((9 <=? n) && (n <=? 13) || (28 <=? n) && (n <=? 32))%nat.

(** The number of bytes of the white-space character outside ASCII a
    string starts with, 0 when it starts with none: U+0085, U+00A0,
    U+1680, U+2000 to U+200A, U+2028, U+2029, U+202F, U+205F, U+3000. *)
Definition wide_space_width (s : string) : nat :=
  match s with
  | String c (String d rest) =>
      let c := nat_of_ascii c in
      let d := nat_of_ascii d in
      if (c =? 194)%nat then (if (d =? 133) || (d =? 160) then 2 else 0)%nat
      else
        match rest with
        | String e _ =>
            let e := nat_of_ascii e in
            if (c =? 225)%nat then (if (d =? 154) && (e =? 128) then 3 else 0)%nat
            else if (c =? 226)%nat then
              (if (d =? 128)
                  && ((128 <=? e) && (e <=? 138) || (e =? 168) || (e =? 169) || (e =? 175))
                  || (d =? 129) && (e =? 159)
               then 3 else 0)%nat
            else if (c =? 227)%nat then (if (d =? 128) && (e =? 128) then 3 else 0)%nat
            else 0%nat
        | EmptyString => 0%nat
        end
  | _ => 0%nat
  end.

(** The number of bytes of the white-space character a string starts
    with, 0 when it starts with none. *)
Definition space_width (s : string) : nat :=
  match s with
  | String c _ => if is_space c then 1%nat else wide_space_width s
  | EmptyString => 0%nat
  end.

Definition nonempty (s : string) : bool :=
  match s with
  | EmptyString => false
  | String _ _ => true
  end.

(** [s.lstrip()], with [skip] bytes of a white-space character still to
    pass over. *)
Fixpoint lstrip_from (skip : nat) (s : string) : string :=
  match s with
  | EmptyString => EmptyString
  | String c s' =>
      match skip with
      | S k => lstrip_from k s'
      | O =>
          match space_width s with
          | S k => lstrip_from k s'
          | O => s
          end
      end
  end.

Definition lstrip (s : string) : string := lstrip_from 0 s.

(** [s.rstrip()]: the string without its longest suffix of white
    space. *)
Fixpoint rstrip (s : string) : string :=
  match s with
  | EmptyString => EmptyString
  | String c s' => if nonempty (lstrip s) then String c (rstrip s') else EmptyString
  end.

(** [s.strip()]. *)
Definition strip (s : string) : string := rstrip (lstrip s).

(** [s.split()]: the maximal runs of characters that are not white
    space; [skip] as in [lstrip_from]. *)
Fixpoint split_from (skip : nat) (s : string) : list string :=
  match s with
  | EmptyString => []
  | String c s' =>
      match skip with
      | S k => split_from k s'
      | O =>
          match space_width s with
          | S k => split_from k s'
          | O =>
              let ts := split_from 0 s' in
              match s', space_width s' with
              | String _ _, O =>
                  match ts with
                  | t :: ts' => String c t :: ts'
                  | [] => [String c EmptyString]
                  end
              | _, _ => String c EmptyString :: ts
              end
          end
      end
  end.

Definition split (s : string) : list string := split_from 0 s.

(** [s.split(sep)] for a one-character separator: always at least one
    part. *)
Fixpoint split_on (sep : ascii) (s : string) : list string :=
  match s with
  | EmptyString => [EmptyString]
  | String c s' =>
      if Ascii.eqb c sep then EmptyString :: split_on sep s'
      else
        match split_on sep s' with
        | t :: ts => String c t :: ts
        | [] => [String c EmptyString]
        end
  end.

(** Whether a byte string is well-formed UTF-8 (no overlong form, no
    surrogate, nothing above U+10FFFF). *)
Fixpoint utf8_valid_from (pending : nat) (lo hi : nat) (s : string) : bool :=
  match s with
  | EmptyString => (pending =? 0)%nat
  | String c s' =>
      let b := nat_of_ascii c in
      match pending with
      | O =>
          if (b <? 128)%nat then utf8_valid_from 0 128 191 s'
          else if ((194 <=? b) && (b <=? 223))%nat then utf8_valid_from 1 128 191 s'
          else if (b =? 224)%nat then utf8_valid_from 2 160 191 s'
          else if (b =? 237)%nat then utf8_valid_from 2 128 159 s'
          else if ((225 <=? b) && (b <=? 239))%nat then utf8_valid_from 2 128 191 s'
          else if (b =? 240)%nat then utf8_valid_from 3 144 191 s'
          else if (b =? 244)%nat then utf8_valid_from 3 128 143 s'
          else if ((241 <=? b) && (b <=? 243))%nat then utf8_valid_from 3 128 191 s'
          else false
      | S p =>
          if ((lo <=? b) && (b <=? hi))%nat then utf8_valid_from p 128 191 s'
          else false
      end
  end.

Definition utf8_valid (s : string) : bool := utf8_valid_from 0 128 191 s.

(** [bytes.decode('utf-8')]. *)
Definition decode_utf8 (b : string) : Py.result string :=
  if utf8_valid b then Py.Ok b else Py.Raise Py.UnicodeDecodeError.

(** The UTF-8 bytes of one code point. *)
Definition utf8_encode (cp : N) : string :=
  let byte (n : N) := ascii_of_N n in
  (if cp <? 128 then String (byte cp) EmptyString
   else if cp <? 2048 then
     String (byte (192 + cp / 64)) (String (byte (128 + cp mod 64)) EmptyString)
   else if cp <? 65536 then
     String (byte (224 + cp / 4096))
       (String (byte (128 + (cp / 64) mod 64))
          (String (byte (128 + cp mod 64)) EmptyString))
   else
     String (byte (240 + cp / 262144))
       (String (byte (128 + (cp / 4096) mod 64))
          (String (byte (128 + (cp / 64) mod 64))
             (String (byte (128 + cp mod 64)) EmptyString))))%N.

(** [chr(i)]. *)
Definition chr (i : N) : Py.result string :=
  if (i <? 1114112)%N then Py.Ok (utf8_encode i)
  else Py.Raise (Py.ValueError "chr() arg not in range(0x110000)").

(** A string in which the character [sep] does not occur. *)
Fixpoint free_of (sep : ascii) (s : string) : bool :=
  match s with
  | EmptyString => true
  | String c s' => negb (Ascii.eqb c sep) && free_of sep s'
  end.

(** A string of ASCII white space only. *)
Fixpoint blank (s : string) : bool :=
  match s with
  | EmptyString => true
  | String c s' => is_space c && blank s'
  end.

(** An ASCII character. *)
Definition is_ascii (c : ascii) : bool := (nat_of_ascii c <? 128)%nat.

(** A string of ASCII characters. *)
Fixpoint ascii_only (s : string) : bool :=
  match s with
  | EmptyString => true
  | String c s' => is_ascii c && ascii_only s'
  end.

(** A string of ASCII characters without white space. *)
Fixpoint solid (s : string) : bool :=
  match s with
  | EmptyString => true
  | String c s' => is_ascii c && negb (is_space c) && solid s'
  end.

(** A string that is empty or starts with ASCII white space. *)
Definition head_blank (s : string) : bool :=
  match s with
  | EmptyString => true
  | String c _ => is_space c
  end.

(** The strings of a list, one after the other. *)
Definition concat_all (l : list string) : string :=
  fold_right String.append EmptyString l.

(** A line feed. *)
Definition nl : string := String (ascii_of_nat 10) EmptyString.

End Str.

(** ** Element trees *)

Module Xml.
Import Py.

(** An [Element]: its tag in Clark notation, its [text] and its children.
    The [tail] and the attributes are never read by the code. *)
Inductive Element : Set :=
| Elem (tag : string) (text : option string) (children : list Element).

Definition tag (e : Element) : string :=
  match e with Elem t _ _ => t end.

Definition text (e : Element) : option string :=
  match e with Elem _ x _ => x end.

Definition children (e : Element) : list Element :=
  match e with Elem _ _ cs => cs end.

(** [e.iter()]: the element, then its descendants in document order. *)
Fixpoint iter (e : Element) : list Element :=
  match e with
  | Elem _ _ cs => e :: flat_map iter cs
  end.

(** The elements of a list that carry the tag [t]. *)
Definition tagged (t : string) (l : list Element) : list Element :=
  filter (fun d => String.eqb (tag d) t) l.

(** The step [//t] of an ElementPath: from every element of the context,
    the proper descendants tagged [t]. *)
Definition descend (t : string) (context : list Element) : list Element :=
  flat_map (fun e => tagged t (flat_map iter (children e))) context.

(** A path [.//t1//t2...] and the prefix map given with it.  A step in
    Clark notation or without a colon is taken as it is: the map only
    resolves [prefix:name] steps, and the code has none. *)
Definition findall (root : Element) (path : list string)
  (namespaces : list (string * string)) : list Element :=
  fold_left (fun context t => descend t context) path [root].

(** [ET.XMLParser] called with keyword arguments: the constructor takes
    [target] and [encoding] only. *)
Definition XMLParser (kwargs : list string) : result unit :=
  match filter (fun k => negb (String.eqb k "target" || String.eqb k "encoding")) kwargs with
  | [] => Ok tt
  | k :: _ => Raise (TypeError ("'" +++ k +++ "' is an invalid keyword argument for XMLParser()"))
  end.

(** A character of a line of text: a line feed, a space or a visible
    ASCII character. *)
Definition is_printable (c : ascii) : bool :=
  let n := nat_of_ascii c in ((n =? 10) || (32 <=? n) && (n <=? 126))%nat.

(** Such a character that is no markup. *)
Definition is_text_char (c : ascii) : bool :=
  is_printable c
  && negb (Ascii.eqb c "<") && negb (Ascii.eqb c "&") && negb (Ascii.eqb c ">").

(** Text that is written into a document as it is. *)
Fixpoint plain_text (s : string) : bool :=
  match s with
  | EmptyString => true
  | String c s' => is_text_char c && plain_text s'
  end.

Fixpoint printable (s : string) : bool :=
  match s with
  | EmptyString => true
  | String c s' => is_printable c && printable s'
  end.

End Xml.

(** ** KML codec *)

Module Kml.
Import Py Geo.

Definition kml22 : string := "http://www.opengis.net/kml/2.2".

(** The prefix maps probed in turn (lines 177-182). *)
Definition namespaces : list (list (string * string)) :=
  [ [("kml", "http://www.opengis.net/kml/2.2")];
    [("kml", "http://earth.google.com/kml/2.0")];
    [("kml", "http://earth.google.com/kml/2.1")];
    [] ]%string.

(** A waypoint is a dict with keys ['lat'] and ['lon']. *)
Record waypoint : Set := { wp_lat : float; wp_lon : float }.

(** The point of a waypoint. *)
Definition point_of (wp : waypoint) : point := (wp_lat wp, wp_lon wp).

Definition in_range_wp (wp : waypoint) : bool :=
  lat_ok (wp_lat wp) && lon_ok (wp_lon wp).

Section Builtins.

(** [float(s)]; [None] is a [ValueError]. *)
Variable float_of_string : string -> option float.

(** [repr(x)], which is also [str(x)] and the f-string form of a float. *)
Variable float_repr : float -> string.

(** [ET.fromstring(content)] with the default, strict parser. *)
Variable ET_fromstring : string -> result Xml.Element.

(** Lines 187-195: the elements one prefix map selects. *)
Definition coord_elements (root : Xml.Element) (ns : list (string * string))
  : list Xml.Element :=
  match ns with
  | _ :: _ =>
      Xml.findall root ["{http://www.opengis.net/kml/2.2}coordinates"%string] ns
      ++ Xml.findall root ["{http://www.opengis.net/kml/2.2}Point"%string;
                           "{http://www.opengis.net/kml/2.2}coordinates"%string] ns
      ++ Xml.findall root ["{http://www.opengis.net/kml/2.2}LinearRing"%string;
                           "{http://www.opengis.net/kml/2.2}coordinates"%string] ns
  | [] =>
      Xml.findall root ["coordinates"%string] []
      ++ Xml.findall root ["Point"%string; "coordinates"%string] []
      ++ Xml.findall root ["LinearRing"%string; "coordinates"%string] []
  end.

(** The tag a search looks for under a prefix map: in the 2.2 namespace
    for every map but the empty one. *)
Definition search_tag (ns : list (string * string)) (name : string) : string :=
  match ns with
  | _ :: _ => "{http://www.opengis.net/kml/2.2}" +++ name
  | [] => name
  end.

(** Lines 201-212: one white-space separated token; the state is [coords]
    and the log. *)
Definition read_token (st : list point * list diagnostic) (coord : string)
  : list point * list diagnostic :=
  let '(coords, log) := st in
  let parts := Str.split_on "," coord in
  if (2 <=? length parts)%nat then
    match float_of_string (nth 0 parts EmptyString) with
    | None => st
    | Some lon =>
        match float_of_string (nth 1 parts EmptyString) with
        | None => st
        | Some lat =>
            if lat_ok lat && lon_ok lon then (coords ++ [(lat, lon)], log)
            else (coords,
                  log ++ [StWarning ("Skipping invalid coordinates: "
                                     +++ float_repr lat +++ ", " +++ float_repr lon)])
        end
    end
  else st.

(** Lines 197-200: one [coordinates] element. *)
Definition read_element (st : list point * list diagnostic) (elem : Xml.Element)
  : list point * list diagnostic :=
  match Xml.text elem with
  | Some t =>
      if Str.nonempty t then
        let coord_text := Str.strip t in
        fold_left read_token (Str.split coord_text) st
      else st
  | None => st
  end.

(** Lines 184-218: the loop over the prefix maps, left at the first one
    after which [coords] is not empty. *)
Fixpoint probe (root : Xml.Element) (candidates : list (list (string * string)))
  (st : list point * list diagnostic) : list point * list diagnostic :=
  match candidates with
  | [] => st
  | ns :: rest =>
      let st' := fold_left read_element (coord_elements root ns) st in
      match fst st' with
      | _ :: _ => st'
      | [] => probe root rest st'
      end
  end.

(** The key a point is remembered under. *)
Definition coord_tuple (coord : point) : float * float :=
  (round_float (fst coord) 6, round_float (snd coord) 6).

(** Equality of two such tuples: [==] on each item. *)
Definition tuple_eqb (a b : float * float) : bool :=
  ((fst a =? fst b) && (snd a =? snd b))%float.

(** Lines 221-227: [seen] holds the keys met so far. *)
Fixpoint remove_duplicates (seen : list (float * float)) (coords : list point)
  : list point :=
  match coords with
  | [] => []
  | coord :: rest =>
      let k := coord_tuple coord in
      if existsb (tuple_eqb k) seen then remove_duplicates seen rest
      else coord :: remove_duplicates (k :: seen) rest
  end.

(** Lines 168-174: decode, parse strictly and, on a [ParseError], build
    the second parser and parse again. *)
Definition read_root (file : string) : result Xml.Element :=
  bind (Str.decode_utf8 file) (fun content =>
  match ET_fromstring content with
  | Raise ParseError =>
      bind (Xml.XMLParser ["recover"%string]) (fun parser => ET_fromstring content)
  | r => r
  end).

(** The points gathered before duplicates are removed. *)
Definition extract (root : Xml.Element) : list point * list diagnostic :=
  probe root namespaces ([], []).

(** [parse_kml(file)], on the bytes [file.read()] gives. *)
Definition parse_kml (file : string) : list point * list diagnostic :=
  match read_root file with
  | Ok root =>
      let '(coords, log) := extract root in
      (remove_duplicates [] coords, log)
  | Raise e => ([], [StError "KML Parsing Error: " (Some e)])
  end.

(** Lines 257-265: the placemark of waypoint [i]. *)
Definition point_placemark (i : N) (wp : waypoint) : result string :=
  bind (Str.chr (65 + i)) (fun letter =>
  Ok (Str.nl +++
"    <Placemark>" +++ Str.nl +++
"      <name>WP" +++ letter +++ "</name>" +++ Str.nl +++
"      <description>Waypoint " +++ letter +++ "</description>" +++ Str.nl +++
"      <Point>" +++ Str.nl +++
"        <coordinates>" +++ float_repr (wp_lon wp) +++ "," +++ float_repr (wp_lat wp)
   +++ ",0</coordinates>" +++ Str.nl +++
"      </Point>" +++ Str.nl +++
"    </Placemark>" +++ Str.nl +++
"        ")).

(** The loop over [enumerate(waypoints)], from index [i]. *)
Fixpoint point_placemarks (i : N) (waypoints : list waypoint) (acc : string)
  : result string :=
  match waypoints with
  | [] => Ok acc
  | wp :: rest =>
      bind (point_placemark i wp) (fun s =>
      point_placemarks (i + 1) rest (acc +++ s))
  end.

(** Lines 276 and 279: one line of the flight path. *)
Definition path_line (wp : waypoint) : string :=
  "          " +++ float_repr (wp_lon wp) +++ "," +++ float_repr (wp_lat wp)
  +++ ",0" +++ Str.nl.

(** Lines 268-290: the flight path of two waypoints or more. *)
Definition flight_path (waypoints : list waypoint) : string :=
  if (1 <? length waypoints)%nat then
    Str.nl +++
"    <Placemark>" +++ Str.nl +++
"      <name>Flight Path</name>" +++ Str.nl +++
"      <LineString>" +++ Str.nl +++
"        <coordinates>" +++ Str.nl +++
"        "
    +++ fold_left (fun acc wp => acc +++ path_line wp) waypoints EmptyString
    +++ (if (2 <? length waypoints)%nat
         then match waypoints with
              | wp0 :: _ => path_line wp0
              | [] => EmptyString
              end
         else EmptyString)
    +++ Str.nl +++
"        </coordinates>" +++ Str.nl +++
"      </LineString>" +++ Str.nl +++
"      <Style>" +++ Str.nl +++
"        <LineStyle>" +++ Str.nl +++
"          <color>ff00ff00</color>" +++ Str.nl +++
"          <width>3</width>" +++ Str.nl +++
"        </LineStyle>" +++ Str.nl +++
"      </Style>" +++ Str.nl +++
"    </Placemark>" +++ Str.nl +++
"        "
  else EmptyString.

(** [create_kml_manual(waypoints, date, kml_filename)]; the file name is
    not used. *)
Definition create_kml_manual (waypoints : list waypoint) (date : string)
  (kml_filename : option string) : result string :=
  let kml_template :=
"<?xml version=" +++ dq +++ "1.0" +++ dq +++ " encoding=" +++ dq +++ "UTF-8" +++ dq +++ "?>" +++ Str.nl +++
"<kml xmlns=" +++ dq +++ "http://www.opengis.net/kml/2.2" +++ dq +++ ">" +++ Str.nl +++
"  <Document>" +++ Str.nl +++
"    <name>Flight Plan " +++ date +++ "</name>" +++ Str.nl +++
"    <description>Drone Survey Waypoints</description>" +++ Str.nl +++
"    " in
  bind (point_placemarks 0 waypoints kml_template) (fun kml_template =>
  let kml_template := kml_template +++ flight_path waypoints in
  Ok (kml_template +++ Str.nl +++
"  </Document>" +++ Str.nl +++
"</kml>" +++ Str.nl +++
"    ")).

(** *** The document [create_kml_manual] writes, as a tree *)

(** A tag of the KML 2.2 namespace, in Clark notation. *)
Definition q22 (name : string) : string :=
  "{http://www.opengis.net/kml/2.2}" +++ name.

(** The letter of waypoint [i]. *)
Definition letter (i : N) : string :=
  match Str.chr (65 + i) with
  | Ok s => s
  | Raise _ => EmptyString
  end.

(** The text of a [coordinates] element of a point. *)
Definition triple (wp : waypoint) : string :=
  float_repr (wp_lon wp) +++ "," +++ float_repr (wp_lat wp) +++ ",0".

Definition point_coordinates (wp : waypoint) : Xml.Element :=
  Xml.Elem (q22 "coordinates") (Some (triple wp)) [].

Definition point_element (wp : waypoint) : Xml.Element :=
  Xml.Elem (q22 "Point") (Some (Str.nl +++ "        ")) [point_coordinates wp].

Definition point_tree (i : N) (wp : waypoint) : Xml.Element :=
  Xml.Elem (q22 "Placemark") (Some (Str.nl +++ "      "))
    [ Xml.Elem (q22 "name") (Some ("WP" +++ letter i)) [];
      Xml.Elem (q22 "description") (Some ("Waypoint " +++ letter i)) [];
      point_element wp ].

Fixpoint point_trees (i : N) (waypoints : list waypoint) : list Xml.Element :=
  match waypoints with
  | [] => []
  | wp :: rest => point_tree i wp :: point_trees (i + 1) rest
  end.

(** The lines of the flight path: every waypoint, then the first one again
    when there are more than two. *)
Definition path_points (waypoints : list waypoint) : list waypoint :=
  waypoints ++ (if (2 <? length waypoints)%nat then firstn 1 waypoints else []).

Definition path_text (waypoints : list waypoint) : string :=
  Str.nl +++ "        "
  +++ Str.concat_all (map path_line (path_points waypoints))
  +++ Str.nl +++ "        ".

Definition path_coordinates (waypoints : list waypoint) : Xml.Element :=
  Xml.Elem (q22 "coordinates") (Some (path_text waypoints)) [].

Definition path_tree (waypoints : list waypoint) : Xml.Element :=
  Xml.Elem (q22 "Placemark") (Some (Str.nl +++ "      "))
    [ Xml.Elem (q22 "name") (Some "Flight Path"%string) [];
      Xml.Elem (q22 "LineString") (Some (Str.nl +++ "        "))
        [path_coordinates waypoints];
      Xml.Elem (q22 "Style") (Some (Str.nl +++ "        "))
        [ Xml.Elem (q22 "LineStyle") (Some (Str.nl +++ "          "))
            [ Xml.Elem (q22 "color") (Some "ff00ff00"%string) [];
              Xml.Elem (q22 "width") (Some "3"%string) [] ] ] ].

(** The last child of the document: the flight path, if there is one,
    and its [coordinates] element. *)
Definition path_part (waypoints : list waypoint) : list Xml.Element :=
  if (1 <? length waypoints)%nat then [path_tree waypoints] else [].

Definition path_part_coordinates (waypoints : list waypoint)
  : list Xml.Element :=
  if (1 <? length waypoints)%nat then [path_coordinates waypoints] else [].

(** The points the flight path adds when it is read. *)
Definition path_part_points (waypoints : list waypoint) : list point :=
  if (1 <? length waypoints)%nat then map point_of (path_points waypoints)
  else [].

(** The tree the written document denotes, for a [date] without markup. *)
Definition manual_tree (waypoints : list waypoint) (date : string)
  : Xml.Element :=
  Xml.Elem (q22 "kml") (Some (Str.nl +++ "  "))
    [ Xml.Elem (q22 "Document") (Some (Str.nl +++ "    "))
        ([ Xml.Elem (q22 "name") (Some ("Flight Plan " +++ date)) [];
           Xml.Elem (q22 "description") (Some "Drone Survey Waypoints"%string) [] ]
         ++ point_trees 0 waypoints
         ++ path_part waypoints) ].

(** A string that is one token of a coordinate triple: not empty, of
    visible ASCII characters, no markup, no comma. *)
Fixpoint plain (s : string) : bool :=
  match s with
  | EmptyString => true
  | String c s' =>
      Xml.is_text_char c && negb (Str.is_space c) && negb (Ascii.eqb c ",") && plain s'
  end.

Definition token (s : string) : bool := Str.nonempty s && plain s.

(** A waypoint within the ranges whose coordinates are written as tokens
    that [float] reads back. *)
Definition round_trips (wp : waypoint) : Prop :=
  in_range_wp wp = true
  /\ token (float_repr (wp_lat wp)) = true
  /\ token (float_repr (wp_lon wp)) = true
  /\ float_of_string (float_repr (wp_lat wp)) = Some (wp_lat wp)
  /\ float_of_string (float_repr (wp_lon wp)) = Some (wp_lon wp).

End Builtins.

(** Two points that are remembered under equal keys: identical after
    rounding to 6 decimal places. *)
Definition same_key (p q : point) : bool :=
  tuple_eqb (coord_tuple p) (coord_tuple q).

(** The points of [coords] that no point before them (in [earlier] or in
    [coords]) equals after rounding: the first occurrences, in order. *)
Fixpoint first_occurrences (earlier coords : list point) : list point :=
  match coords with
  | [] => []
  | coord :: rest =>
      if existsb (same_key coord) earlier
      then first_occurrences (coord :: earlier) rest
      else coord :: first_occurrences (coord :: earlier) rest
  end.

(** No point of the list equals a later one after rounding. *)
Fixpoint distinct_keys (l : list point) : Prop :=
  match l with
  | [] => True
  | p :: rest => (forall q, In q rest -> same_key q p = false) /\ distinct_keys rest
  end.

(** What [seen] knows of the points met so far: a key is in [seen] exactly
    when it equals the key of one of them. *)
Definition seen_covers (seen : list (float * float)) (earlier : list point)
  : Prop :=
  forall k, existsb (tuple_eqb k) seen
            = existsb (fun e => tuple_eqb k (coord_tuple e)) earlier.

(** A point within the coordinate ranges. *)
Definition in_range (p : point) : bool := lat_ok (fst p) && lon_ok (snd p).

(** A state of the reader all of whose points are within the ranges. *)
Definition all_in_range (st : list point * list diagnostic) : Prop :=
  Forall (fun p => in_range p = true) (fst st).

End Kml.

(** ** The page: waypoints, route statistics, log sheet legs, drawings *)

Module App.
Import Py Geo.

(** [generate_waypoints_from_polyline_vertices(coordinates)]: the dict
    [{'lat': coord[0], 'lon': coord[1]}] of every vertex; a vertex with
    fewer than two items is an [IndexError]. *)
Definition vertex_waypoint (coord : list float) : result Kml.waypoint :=
  bind (getitem coord 0) (fun lat =>
  bind (getitem coord 1) (fun lon =>
  Ok {| Kml.wp_lat := lat; Kml.wp_lon := lon |})).

Definition generate_step (st : result (list Kml.waypoint)) (coord : list float)
  : result (list Kml.waypoint) :=
  bind st (fun waypoints =>
  bind (vertex_waypoint coord) (fun wp => Ok (waypoints ++ [wp]))).

Definition generate_waypoints_from_polyline_vertices
  (coordinates : list (list float)) : result (list Kml.waypoint) :=
  fold_left generate_step coordinates (Ok []).

(** The vertex a waypoint comes from, when the vertex is a pair. *)
Definition vertex_of (wp : Kml.waypoint) : list float :=
  [Kml.wp_lat wp; Kml.wp_lon wp].

Section Route.

Variables libm_sin libm_cos : float -> float.
Variables libm_atan2 libm_pow : float -> float -> float.

(** [calculate_distance] between two waypoints. *)
Definition waypoint_distance (wp1 wp2 : Kml.waypoint) : num * list diagnostic :=
  calculate_distance libm_sin libm_cos libm_atan2 libm_pow
    (Kml.wp_lat wp1) (Kml.wp_lon wp1) (Kml.wp_lat wp2) (Kml.wp_lon wp2).

(** Lines 453-458: one turn of the loop of the route statistics. *)
Definition route_step (waypoints : list Kml.waypoint)
  (st : result (num * list diagnostic)) (i : nat)
  : result (num * list diagnostic) :=
  bind st (fun '(total_distance, log) =>
  if Z.of_nat i <? Z.of_nat (length waypoints) - 1 then
    bind (getitem waypoints i) (fun wp1 =>
    bind (getitem waypoints (i + 1)) (fun wp2 =>
    let '(distance, msgs) := waypoint_distance wp1 wp2 in
    Ok (add total_distance distance, log ++ msgs)))
  else Ok (total_distance, log)).

(** Lines 451-464: the total distance of the route, closed when there are
    more than two waypoints ([waypoints[-1]] is the last one). *)
Definition route_total_distance (waypoints : list Kml.waypoint)
  : result (num * list diagnostic) :=
  let n := length waypoints in
  let st := fold_left (route_step waypoints) (range (Z.of_nat n)) (Ok (Int 0, [])) in
  if (2 <? n)%nat then
    bind st (fun '(total_distance, log) =>
    bind (getitem waypoints (n - 1)) (fun wp1 =>
    bind (getitem waypoints 0) (fun wp2 =>
    let '(distance, msgs) := waypoint_distance wp1 wp2 in
    Ok (add total_distance distance, log ++ msgs))))
  else st.

End Route.

(** Lines 602-606: one turn of the loop that lists the legs of the log
    sheet. *)
Definition legs_step (waypoints : list Kml.waypoint)
  (st : result (list (Kml.waypoint * Kml.waypoint * nat))) (i : nat)
  : result (list (Kml.waypoint * Kml.waypoint * nat)) :=
  bind st (fun legs =>
  bind (getitem waypoints i) (fun from_wp =>
  bind (getitem waypoints ((i + 1) mod length waypoints)) (fun to_wp =>
  Ok (legs ++ [(from_wp, to_wp, i)])))).

(** Lines 600-606: the legs, listed when there are two waypoints or
    more. *)
Definition legs (waypoints : list Kml.waypoint)
  : result (list (Kml.waypoint * Kml.waypoint * nat)) :=
  if (2 <=? length waypoints)%nat then
    fold_left (legs_step waypoints) (range (Z.of_nat (length waypoints))) (Ok [])
  else Ok [].

(** Lines 643-648: the [From] and [To] cells of the row of a leg; [None]
    when a conversion raises. *)
Definition dms_pair (wp : Kml.waypoint) : option string :=
  match Dms.decimal_to_dms_formatted (Kml.wp_lat wp) true,
        Dms.decimal_to_dms_formatted (Kml.wp_lon wp) false with
  | Some lat, Some lon => Some (lat +++ Str.nl +++ lon)
  | _, _ => None
  end.

Definition leg_cells (leg : Kml.waypoint * Kml.waypoint * nat)
  : option (string * string) :=
  let '(from_wp, to_wp, _) := leg in
  match dms_pair from_wp, dms_pair to_wp with
  | Some f, Some t => Some (f, t)
  | _, _ => None
  end.

(** A drawing the map hands back: a GeoJSON point [[lon, lat]], a line
    string of such positions, or something else. *)
Inductive drawing : Set :=
| DPoint (lon lat : float)
| DLineString (coords : list (float * float))
| DOther.

(** The part of the session state the drawings change. *)
Record session : Set := {
  waypoints : list Kml.waypoint;
  processed_markers : list (float * float);
  active_polyline : option (list (list float))
}.

(** Line 1073: whether a waypoint lies within 0.0001 degrees of
    [(lat, lon)] on both axes. *)
Definition near (lat lon : float) (wp : Kml.waypoint) : bool :=
  ((abs (Kml.wp_lat wp - lat) <? 0.0001)
   && (abs (Kml.wp_lon wp - lon) <? 0.0001))%float.

(** Lines 1062-1086: one drawing; the flag tells that [st.rerun()] was
    called, which ends the run: after a new waypoint and after every line
    string. *)
Definition process_drawing (s : session) (d : drawing) : session * bool :=
  match d with
  | DPoint lon lat =>
      let marker_id := (round_float lat 6, round_float lon 6) in
      if negb (existsb (Kml.tuple_eqb marker_id) (processed_markers s)) then
        let exists_ := existsb (near lat lon) (waypoints s) in
        if negb exists_ then
          ({| waypoints := waypoints s ++ [{| Kml.wp_lat := lat; Kml.wp_lon := lon |}];
              processed_markers := marker_id :: processed_markers s;
              active_polyline := active_polyline s |}, true)
        else (s, false)
      else (s, false)
  | DLineString coords =>
      let polyline_coords := map (fun coord => [snd coord; fst coord]) coords in
      ({| waypoints := waypoints s;
          processed_markers := processed_markers s;
          active_polyline := Some polyline_coords |}, true)
  | DOther => (s, false)
  end.

(** The loop over the drawings, left at the first rerun. *)
Fixpoint process_drawings (s : session) (drawings : list drawing) : session :=
  match drawings with
  | [] => s
  | d :: rest =>
      let '(s', rerun) := process_drawing s d in
      if rerun then s' else process_drawings s' rest
  end.

(** Waypoints none of which is near an earlier one. *)
Fixpoint spaced (wps : list Kml.waypoint) : Prop :=
  match wps with
  | [] => True
  | wp :: rest =>
      (forall later, In later rest ->
         near (Kml.wp_lat later) (Kml.wp_lon later) wp = false)
      /\ spaced rest
  end.

End App.

(** ** The builtins the codec calls

    Executable models of [float], of [repr] on a float (the shortest
    decimal that reads back) and of [ET.fromstring]. *)

Module Ref.
Import Py.

(** *** [float()]

    [float(s)] for a [str]: white space around the literal is passed
    over, underscores may stand between digits, [inf], [infinity] and
    [nan] are read in any case, and so are the decimal digits of other
    scripts. *)

Definition is_digit (c : ascii) : bool :=
  let n := nat_of_ascii c in ((48 <=? n) && (n <=? 57))%nat.

Definition digit_val (c : ascii) : Z := Z.of_nat (nat_of_ascii c) - 48.

(** The white space of C's [isspace]. *)
Definition is_c_space (c : ascii) : bool :=
  let n := nat_of_ascii c in ((9 <=? n) && (n <=? 13) || (n =? 32))%nat.

(** The code point of the character a string starts with, and the number
    of its bytes. *)
Definition decode_char (s : string) : N * nat :=
  let byte (c : ascii) := N_of_ascii c in
  match s with
  | String a s1 =>
      if (byte a <? 192)%N then (byte a, 1%nat)
      else
        match s1 with
        | String b s2 =>
            if (byte a <? 224)%N then (((byte a - 192) * 64 + (byte b - 128))%N, 2%nat)
            else
              match s2 with
              | String c s3 =>
                  if (byte a <? 240)%N then
                    (((byte a - 224) * 4096 + (byte b - 128) * 64 + (byte c - 128))%N,
                     3%nat)
                  else
                    match s3 with
                    | String d _ =>
                        (((byte a - 240) * 262144 + (byte b - 128) * 4096
                          + (byte c - 128) * 64 + (byte d - 128))%N, 4%nat)
                    | EmptyString => (0%N, 3%nat)
                    end
              | EmptyString => (0%N, 2%nat)
              end
        | EmptyString => (0%N, 1%nat)
        end
  | EmptyString => (0%N, 0%nat)
  end.

(** The code points of the digits zero outside ASCII (Unicode 14): the
    nine code points after each are its digits one to nine. *)
Definition zero_digits : list N :=
  [1632; 1776; 1984; 2406; 2534; 2662; 2790; 2918; 3046; 3174; 3302; 3430;
   3558; 3664; 3792; 3872; 4160; 4240; 6112; 6160; 6470; 6608; 6784; 6800;
   6992; 7088; 7232; 7248; 42528; 43216; 43264; 43472; 43504; 43600; 44016;
   65296; 66720; 68912; 69734; 69872; 69942; 70096; 70384; 70736; 70864;
   71248; 71360; 71472; 71904; 72016; 72784; 73040; 73120; 92768; 92864;
   93008; 120782; 120792; 120802; 120812; 120822; 123200; 123632; 125264;
   130032]%N.

(** The ASCII character [float] reads for a character outside ASCII: a
    space for white space, its digit for a decimal digit, and a question
    mark otherwise. *)
Definition ascii_for (s : string) : ascii :=
  let cp := fst (decode_char s) in
  if (0 <? Str.wide_space_width s)%nat then " "%char
  else
    match filter (fun z => (z <=? cp) && (cp <? z + 10))%N zero_digits with
    | z :: _ => ascii_of_N (48 + (cp - z))
    | [] => "?"%char
    end.

Fixpoint to_ascii (skip : nat) (s : string) : string :=
  match s with
  | EmptyString => EmptyString
  | String c s' =>
      match skip with
      | S k => to_ascii k s'
      | O =>
          if Str.is_ascii c then String c (to_ascii 0 s')
          else String (ascii_for s) (to_ascii (snd (decode_char s) - 1) s')
      end
  end.

Fixpoint c_lstrip (s : string) : string :=
  match s with
  | EmptyString => EmptyString
  | String c s' => if is_c_space c then c_lstrip s' else s
  end.

Fixpoint c_rstrip (s : string) : string :=
  match s with
  | EmptyString => EmptyString
  | String c s' =>
      let r := c_rstrip s' in
      if is_c_space c && negb (Str.nonempty r) then EmptyString else String c r
  end.

(** The literal without its underscores: each one stands after a digit
    and before a digit. *)
Fixpoint without_underscores (prev : option ascii) (s : string) : option string :=
  match s with
  | EmptyString =>
      match prev with
      | Some "_"%char => None
      | _ => Some EmptyString
      end
  | String c s' =>
      let after_digit := match prev with Some p => is_digit p | None => false end in
      let after_underscore :=
        match prev with Some p => Ascii.eqb p "_" | None => false end in
      if Ascii.eqb c "_" then
        if after_digit then without_underscores (Some c) s' else None
      else if after_underscore && negb (is_digit c) then None
      else option_map (String c) (without_underscores (Some c) s')
  end.

(** Leading digits of [s]: their value after [acc], how many, the rest. *)
Fixpoint take_digits (acc : Z) (count : Z) (s : string) : Z * Z * string :=
  match s with
  | String c s' =>
      if is_digit c then take_digits (10 * acc + digit_val c) (count + 1) s'
      else (acc, count, s)
  | EmptyString => (acc, count, s)
  end.

Definition take_sign (s : string) : bool * string :=
  match s with
  | String "-" s' => (true, s')
  | String "+" s' => (false, s')
  | _ => (false, s)
  end.

(** The exponent part, if any: its value and whether the literal ends
    there. *)
Definition take_exponent (s : string) : option Z :=
  match s with
  | EmptyString => Some 0
  | String c s' =>
      if Ascii.eqb c "e" || Ascii.eqb c "E" then
        let '(neg, s'') := take_sign s' in
        match take_digits 0 0 s'' with
        | (v, n, EmptyString) =>
            if 0 <? n then Some (if neg then - v else v) else None
        | _ => None
        end
      else None
  end.

Definition lower (c : ascii) : ascii :=
  let n := nat_of_ascii c in
  if ((65 <=? n) && (n <=? 90))%nat then ascii_of_nat (n + 32) else c.

Fixpoint lowercase (s : string) : string :=
  match s with
  | EmptyString => EmptyString
  | String c s' => String (lower c) (lowercase s')
  end.

Definition float_of_string (s : string) : option float :=
  match without_underscores None (c_rstrip (c_lstrip (to_ascii 0 s))) with
  | None => None
  | Some literal =>
      let '(neg, body) := take_sign literal in
      let word := lowercase body in
      if String.eqb word "inf" || String.eqb word "infinity"
      then Some (if neg then neg_infinity else infinity)
      else if String.eqb word "nan" then Some nan
      else
        let '(ip, n1, rest) := take_digits 0 0 body in
        let '(mant, n2, rest) :=
          match rest with
          | String "." rest' => take_digits ip 0 rest'
          | _ => (ip, 0, rest)
          end in
        if (n1 + n2 =? 0) then None
        else
          match take_exponent rest with
          | None => None
          | Some ex =>
              let e10 := ex - n2 in
              Some (if 0 <=? e10 then float_of_ratio neg (mant * 10 ^ e10) 1
                    else float_of_ratio neg mant (10 ^ (- e10)))
          end
  end.

(** *** [repr] of a float *)

(** The digits of the shortest decimal that reads back as [m * 2^e], and
    the position [decpt] of its point: the value is [0.digits * 10^decpt].
    All quantities are scaled to integers over the common unit
    [2^(e-2) / 10^k]. *)
Definition in_interval (m : positive) (lo hi v : Z) : bool :=
  if Z.even (Zpos m) then (lo <=? v) && (v <=? hi)
  else (lo <? v) && (v <? hi).

(** The candidate with [p] digits, if one lies in the rounding interval:
    [x = xn / xd] and the interval is [lon / xd .. hin / xd], the
    candidates are multiples of [10^k]. *)
Definition candidate (m : positive) (xn lon hin xd : Z) (k : Z) : option Z :=
  let unit_n := if 0 <=? k then 10 ^ k * xd else xd in
  let scale := if 0 <=? k then 1 else 10 ^ (- k) in
  let x := xn * scale in
  let lo := lon * scale in
  let hi := hin * scale in
  let dn := x / unit_n in
  let below := dn * unit_n in
  let above := (dn + 1) * unit_n in
  let ok_b := in_interval m lo hi below in
  let ok_a := in_interval m lo hi above in
  if ok_b && ok_a then
    match (x - below) ?= (above - x) with
    | Lt => Some dn
    | Gt => Some (dn + 1)
    | Eq => Some (if Z.even dn then dn else dn + 1)
    end
  else if ok_b then Some dn
  else if ok_a then Some (dn + 1)
  else None.

(** [floor(log10(n / d))] for positive [n] and [d]. *)
Definition floor_log10 (n d : Z) : Z :=
  let est := ((Z.log2 n - Z.log2 d) * 30103) / 100000 in
  let le10 (k : Z) := if 0 <=? k then (10 ^ k * d <=? n) else (d <=? n * 10 ^ (- k)) in
  if le10 (est + 2) then est + 2
  else if le10 (est + 1) then est + 1
  else if le10 est then est
  else if le10 (est - 1) then est - 1
  else est - 2.

Fixpoint shortest (fuel : nat) (p : Z) (m : positive) (xn lon hin xd e10 : Z)
  : Z * Z :=
  match fuel with
  | O => (0, 0)
  | S fuel' =>
      match candidate m xn lon hin xd (e10 - (p - 1)) with
      | Some d => (d, e10 - (p - 1))
      | None => shortest fuel' (p + 1) m xn lon hin xd e10
      end
  end.

Fixpoint strip_zeros (fuel : nat) (d k : Z) : Z * Z :=
  match fuel with
  | O => (d, k)
  | S fuel' => if (d mod 10 =? 0) && (0 <? d) then strip_zeros fuel' (d / 10) (k + 1) else (d, k)
  end.

(** Digits and [decpt] of a positive finite float. *)
Definition shortest_digits (m : positive) (e : Z) : string * Z :=
  let boundary := (Zpos m =? 2 ^ 52) && (-1074 <? e) in
  let sh := if 0 <=? e - 2 then 2 ^ (e - 2) else 1 in
  let xd := if 0 <=? e - 2 then 1 else 2 ^ (2 - e) in
  let xn := 4 * Zpos m * sh in
  let hin := (4 * Zpos m + 2) * sh in
  let lon := (if boundary then 4 * Zpos m - 1 else 4 * Zpos m - 2) * sh in
  let e10 := floor_log10 xn xd in
  let '(d, k) := shortest 18 1 m xn lon hin xd e10 in
  let '(d, k) := strip_zeros 20 d k in
  let ds := digits d in
  (ds, Z.of_nat (String.length ds) + k).

Fixpoint take (n : nat) (s : string) : string :=
  match n, s with
  | S n', String c s' => String c (take n' s')
  | _, _ => EmptyString
  end.

Definition float_repr (x : float) : string :=
  match Prim2SF x with
  | S754_nan => "nan"
  | S754_infinity s => if s then "-inf" else "inf"
  | S754_zero s => if s then "-0.0" else "0.0"
  | S754_finite s m e =>
      let '(ds, decpt) := shortest_digits m e in
      let n := Z.of_nat (String.length ds) in
      let body :=
        if (decpt <=? -4) || (16 <? decpt) then
          let ex := decpt - 1 in
          String.substring 0 1 ds
            +++ (if 1 <? n then "." +++ drop 1 ds else EmptyString)
            +++ "e" +++ (if ex <? 0 then "-" else "+")
            +++ rjust0 2 (digits (Z.abs ex))
        else if decpt <=? 0 then
          "0." +++ zeros (Z.to_nat (- decpt)) +++ ds
        else if n <=? decpt then
          ds +++ zeros (Z.to_nat (decpt - n)) +++ ".0"
        else
          take (Z.to_nat decpt) ds +++ "." +++ drop (Z.to_nat decpt) ds
      in
      (if s then "-" else EmptyString) +++ body
  end.

(** *** An XML reader

    [ET.fromstring] on the XML that KML files are written in: the XML
    declaration, elements, attributes, namespace declarations, character
    data with the five named and the numeric character references,
    comments, processing instructions and CDATA sections.  Every
    well-formedness error it meets is a [ParseError].  Document type
    declarations and names outside ASCII are not read: they are a
    [ParseError] here. *)

Inductive token : Set :=
| TOpen (name : string) (attrs : list (string * string)) (selfclose : bool)
| TClose (name : string)
| TText (s : string)
| TCData (s : string).

(** [s] without the prefix [pre], when it starts with it. *)
Fixpoint strip_prefix (pre s : string) : option string :=
  match pre, s with
  | EmptyString, _ => Some s
  | String a pre', String b s' =>
      if Ascii.eqb a b then strip_prefix pre' s' else None
  | String _ _, EmptyString => None
  end.

(** The text before the first occurrence of [pat], and the text after. *)
Fixpoint cut_at (pat s : string) : option (string * string) :=
  match strip_prefix pat s with
  | Some rest => Some (EmptyString, rest)
  | None =>
      match s with
      | EmptyString => None
      | String c s' =>
          match cut_at pat s' with
          | Some (before, rest) => Some (String c before, rest)
          | None => None
          end
      end
  end.

Fixpoint span (p : ascii -> bool) (s : string) : string * string :=
  match s with
  | String c s' =>
      if p c then let '(a, b) := span p s' in (String c a, b) else (EmptyString, s)
  | EmptyString => (EmptyString, EmptyString)
  end.

Fixpoint all_chars (p : ascii -> bool) (s : string) : bool :=
  match s with
  | EmptyString => true
  | String c s' => p c && all_chars p s'
  end.

(** The first character of a name: a letter, [_] or [:]. *)
Definition is_name_start (c : ascii) : bool :=
  let n := nat_of_ascii c in
  ((65 <=? n) && (n <=? 90) || (97 <=? n) && (n <=? 122) || (n =? 95) || (n =? 58))%nat.

(** A further character of a name: also a digit, [-] or [.]. *)
Definition is_name_char (c : ascii) : bool :=
  let n := nat_of_ascii c in
  is_name_start c || ((48 <=? n) && (n <=? 57) || (n =? 45) || (n =? 46))%nat.

Definition starts_name (s : string) : bool :=
  match s with
  | String c _ => is_name_start c
  | EmptyString => false
  end.

Definition is_xml_space (c : ascii) : bool :=
  let n := nat_of_ascii c in ((n =? 32) || (n =? 9) || (n =? 10) || (n =? 13))%nat.

(** A byte that may occur in a document: no control character but the
    tab, the line feed and the carriage return. *)
Definition is_xml_byte (c : ascii) : bool :=
  let n := nat_of_ascii c in ((32 <=? n) || (n =? 9) || (n =? 10) || (n =? 13))%nat.

(** Whether U+FFFE or U+FFFF occurs, which no document may hold. *)
Fixpoint has_noncharacter (s : string) : bool :=
  match s with
  | String a s' =>
      match s' with
      | String b (String c _) =>
          ((nat_of_ascii a =? 239) && (nat_of_ascii b =? 191)
           && ((nat_of_ascii c =? 190) || (nat_of_ascii c =? 191)))%nat
          || has_noncharacter s'
      | _ => false
      end
  | EmptyString => false
  end.

(** Line ends: a carriage return, with the line feed that follows it if
    there is one, is read as one line feed. *)
Fixpoint newlines (s : string) : string :=
  match s with
  | EmptyString => EmptyString
  | String c s' =>
      if (nat_of_ascii c =? 13)%nat then
        String (ascii_of_nat 10)
          match s' with
          | String d s'' => if (nat_of_ascii d =? 10)%nat then newlines s'' else newlines s'
          | EmptyString => EmptyString
          end
      else String c (newlines s')
  end.

Definition hex_val (c : ascii) : option N :=
  let n := N_of_ascii c in
  (if (48 <=? n) && (n <=? 57) then Some (n - 48)
   else if (65 <=? n) && (n <=? 70) then Some (n - 55)
   else if (97 <=? n) && (n <=? 102) then Some (n - 87)
   else None)%N.

Fixpoint number_in_base (base : N) (acc : N) (s : string) : option N :=
  match s with
  | EmptyString => Some acc
  | String c s' =>
      match hex_val c with
      | Some v =>
          if (v <? base)%N
          then number_in_base base (base * acc + v)%N s'
          else None
      | None => None
      end
  end.

(** A code point a character reference may name. *)
Definition is_xml_char (cp : N) : bool :=
  ((cp =? 9) || (cp =? 10) || (cp =? 13) || (32 <=? cp) && (cp <=? 55295)
   || (57344 <=? cp) && (cp <=? 65533) || (65536 <=? cp) && (cp <=? 1114111))%N.

Definition char_reference (digits : option N) : option string :=
  match digits with
  | Some cp => if is_xml_char cp then Some (Str.utf8_encode cp) else None
  | None => None
  end.

(** The character a reference [&name;] stands for. *)
Definition reference (name : string) : option string :=
  if String.eqb name "amp" then Some "&"%string
  else if String.eqb name "lt" then Some "<"%string
  else if String.eqb name "gt" then Some ">"%string
  else if String.eqb name "quot" then Some dq
  else if String.eqb name "apos" then Some "'"%string
  else
    match strip_prefix "#x" name, strip_prefix "#" name with
    | Some (String c h), _ => char_reference (number_in_base 16 0 (String c h))
    | None, Some (String c d) => char_reference (number_in_base 10 0 (String c d))
    | _, _ => None
    end.

(** Character data with its references replaced. *)
Fixpoint unescape (fuel : nat) (s : string) : result string :=
  match fuel with
  | O => Raise ParseError
  | S fuel' =>
      match s with
      | EmptyString => Ok EmptyString
      | String c s' =>
          if Ascii.eqb c "&" then
            match cut_at ";" s' with
            | Some (name, rest) =>
                match reference name with
                | Some r => bind (unescape fuel' rest) (fun t => Ok (r +++ t))
                | None => Raise ParseError
                end
            | None => Raise ParseError
            end
          else bind (unescape fuel' s') (fun t => Ok (String c t))
      end
  end.

(** The white space of an attribute value is read as spaces. *)
Fixpoint attribute_spaces (s : string) : string :=
  match s with
  | EmptyString => EmptyString
  | String c s' =>
      String (if is_xml_space c then " "%char else c) (attribute_spaces s')
  end.

(** The attributes of a start tag, up to its [>] or [/>]. *)
Fixpoint attributes (fuel : nat) (s : string)
  : result (list (string * string) * bool * string) :=
  match fuel with
  | O => Raise ParseError
  | S fuel' =>
      let '(sp, s1) := span is_xml_space s in
      match strip_prefix ">" s1, strip_prefix "/>" s1 with
      | Some rest, _ => Ok ([], false, rest)
      | None, Some rest => Ok ([], true, rest)
      | None, None =>
          let '(name, s2) := span is_name_char s1 in
          let '(_, s3) := span is_xml_space s2 in
          match sp, strip_prefix "=" s3 with
          | String _ _, Some s4 =>
              let '(_, s5) := span is_xml_space s4 in
              match s5 with
              | String q s6 =>
                  if starts_name name
                     && (Ascii.eqb q "'" || Ascii.eqb q (ascii_of_nat 34)) then
                    match cut_at (String q EmptyString) s6 with
                    | Some (raw, s7) =>
                        match cut_at "<" raw with
                        | Some _ => Raise ParseError
                        | None =>
                            bind (unescape (S (String.length raw)) (attribute_spaces raw))
                              (fun v =>
                            bind (attributes fuel' s7) (fun '(more, sc, rest) =>
                            Ok ((name, v) :: more, sc, rest)))
                        end
                    | None => Raise ParseError
                    end
                  else Raise ParseError
              | EmptyString => Raise ParseError
              end
          | _, _ => Raise ParseError
          end
      end
  end.

Fixpoint distinct_names (attrs : list (string * string)) : bool :=
  match attrs with
  | [] => true
  | (k, _) :: rest =>
      negb (existsb (fun a => String.eqb (fst a) k) rest) && distinct_names rest
  end.

(** The target of a processing instruction: a name without a colon that
    is not [xml] in any case. *)
Definition is_target (name : string) : bool :=
  starts_name name && Str.free_of ":" name
  && negb (String.eqb (lowercase name) "xml").

Definition starts_space (s : string) : bool :=
  match s with
  | String c _ => is_xml_space c
  | EmptyString => false
  end.

(** A comment, from after its [<!--]: no [--] but the one that ends
    it. *)
Definition comment (read : string -> result (list token)) (s : string)
  : result (list token) :=
  match cut_at "--" s with
  | Some (_, s1) =>
      match strip_prefix ">" s1 with
      | Some rest => read rest
      | None => Raise ParseError
      end
  | None => Raise ParseError
  end.

(** A CDATA section, from after its [<![CDATA[]. *)
Definition cdata (read : string -> result (list token)) (s : string)
  : result (list token) :=
  match cut_at "]]>" s with
  | Some (raw, rest) => bind (read rest) (fun ts => Ok (TCData raw :: ts))
  | None => Raise ParseError
  end.

(** A processing instruction, from after its [<?]. *)
Definition instruction (read : string -> result (list token)) (s : string)
  : result (list token) :=
  let '(name, s1) := span is_name_char s in
  let ends := match strip_prefix "?>" s1 with Some _ => true | None => false end in
  if is_target name && (ends || starts_space s1) then
    match cut_at "?>" s1 with
    | Some (_, rest) => read rest
    | None => Raise ParseError
    end
  else Raise ParseError.

(** An end tag, from after its [</]. *)
Definition end_tag (read : string -> result (list token)) (s : string)
  : result (list token) :=
  let '(name, s1) := span is_name_char s in
  let '(_, s2) := span is_xml_space s1 in
  match starts_name name, strip_prefix ">" s2 with
  | true, Some rest => bind (read rest) (fun ts => Ok (TClose name :: ts))
  | _, _ => Raise ParseError
  end.

(** A start tag, from after its [<]. *)
Definition start_tag (read : string -> result (list token)) (s : string)
  : result (list token) :=
  let '(name, s1) := span is_name_char s in
  if starts_name name then
    bind (attributes (S (String.length s1)) s1) (fun '(attrs, sc, rest) =>
    if distinct_names attrs then
      bind (read rest) (fun ts => Ok (TOpen name attrs sc :: ts))
    else Raise ParseError)
  else Raise ParseError.

(** Character data, up to the next [<]: it holds no []]>]. *)
Definition character_data (read : string -> result (list token)) (s : string)
  : result (list token) :=
  let '(raw, rest) := span (fun d => negb (Ascii.eqb d "<")) s in
  match cut_at "]]>" raw with
  | Some _ => Raise ParseError
  | None =>
      bind (unescape (S (String.length raw)) raw) (fun t =>
      bind (read rest) (fun ts => Ok (TText t :: ts)))
  end.

(** The first token of [s], and the rest of [s] read by [read]. *)
Definition next_token (read : string -> result (list token)) (s : string)
  : result (list token) :=
  match s with
  | EmptyString => Ok []
  | String c s1 =>
      if Ascii.eqb c "<" then
        match strip_prefix "!--" s1, strip_prefix "![CDATA[" s1,
              strip_prefix "?" s1, strip_prefix "/" s1 with
        | Some s2, _, _, _ => comment read s2
        | None, Some s2, _, _ => cdata read s2
        | None, None, Some s2, _ => instruction read s2
        | None, None, None, Some s2 => end_tag read s2
        | None, None, None, None => start_tag read s1
        end
      else character_data read s
  end.

Fixpoint tokenize (fuel : nat) (s : string) : result (list token) :=
  match fuel with
  | O => Raise ParseError
  | S fuel' => next_token (tokenize fuel') s
  end.

(** The tokens of a document: no token is empty, so this fuel is
    enough. *)
Definition tokens (s : string) : result (list token) :=
  tokenize (S (String.length s)) s.

(** An element being read: its name as written, its tag, the prefixes in
    scope, its text so far, whether a child was met, its children in
    reverse. *)
Record frame : Set := {
  f_name : string;
  f_tag : string;
  f_scope : list (string * string);
  f_text : string;
  f_child : bool;
  f_children : list Xml.Element
}.

Fixpoint lookup (k : string) (env : list (string * string)) : option string :=
  match env with
  | [] => None
  | (k', v) :: rest => if String.eqb k k' then Some v else lookup k rest
  end.

(** The bindings a start tag declares: [xmlns] binds the empty prefix. *)
Fixpoint declared (attrs : list (string * string)) : list (string * string) :=
  match attrs with
  | [] => []
  | (k, v) :: rest =>
      if String.eqb k "xmlns" then (EmptyString, v) :: declared rest
      else
        match strip_prefix "xmlns:" k with
        | Some p => (p, v) :: declared rest
        | None => declared rest
        end
  end.

(** Declarations that may be made: no prefix is undeclared, and [xml] and
    [xmlns] are not declared. *)
Definition declarable (binding : string * string) : bool :=
  let '(p, uri) := binding in
  match p with
  | EmptyString => true
  | String _ _ =>
      Str.nonempty uri && starts_name p && Str.free_of ":" p
      && negb (String.eqb p "xml") && negb (String.eqb p "xmlns")
  end.

(** The prefix and the local part of a name; both are names without a
    colon. *)
Definition qname (name : string) : option (string * string) :=
  match cut_at ":" name with
  | Some (p, local) =>
      if starts_name p && starts_name local && Str.free_of ":" local
      then Some (p, local) else None
  | None => Some (EmptyString, name)
  end.

(** The tag in Clark notation. *)
Definition qualify (scope : list (string * string)) (name : string) : result string :=
  match qname name with
  | Some (String c p, local) =>
      match lookup (String c p) scope with
      | Some uri => Ok ("{" +++ uri +++ "}" +++ local)
      | None => Raise ParseError
      end
  | Some (EmptyString, local) =>
      match lookup EmptyString scope with
      | Some (String c u) => Ok ("{" +++ String c u +++ "}" +++ local)
      | _ => Ok local
      end
  | None => Raise ParseError
  end.

(** The prefixes of the attributes of a start tag are bound. *)
Definition bound_attribute (scope : list (string * string)) (attr : string * string)
  : bool :=
  if String.eqb (fst attr) "xmlns" then true
  else
    match strip_prefix "xmlns:" (fst attr) with
    | Some _ => true
    | None =>
        match qname (fst attr) with
        | Some (String c p, _) =>
            match lookup (String c p) scope with
            | Some _ => true
            | None => false
            end
        | Some (EmptyString, _) => true
        | None => false
        end
    end.

Definition all_space (s : string) : bool := all_chars is_xml_space s.

(** Hand a finished element to its parent, or make it the root. *)
Definition attach (e : Xml.Element) (stack : list frame) (root : option Xml.Element)
  : result (list frame * option Xml.Element) :=
  match stack with
  | f :: rest =>
      Ok ({| f_name := f_name f; f_tag := f_tag f; f_scope := f_scope f;
             f_text := f_text f; f_child := true;
             f_children := e :: f_children f |} :: rest, root)
  | [] =>
      match root with
      | None => Ok ([], Some e)
      | Some _ => Raise ParseError
      end
  end.

Definition text_of (s : string) : option string :=
  match s with
  | EmptyString => None
  | String _ _ => Some s
  end.

(** Character data inside an element: kept as text until the first
    child. *)
Definition add_text (s : string) (stack : list frame) (root : option Xml.Element)
  : list frame * option Xml.Element :=
  match stack with
  | [] => (stack, root)
  | f :: rest =>
      if f_child f then (stack, root)
      else ({| f_name := f_name f; f_tag := f_tag f; f_scope := f_scope f;
               f_text := f_text f +++ s; f_child := false;
               f_children := f_children f |} :: rest, root)
  end.

(** The prefix [xml] is always bound. *)
Definition outermost : list (string * string) :=
  [("xml", "http://www.w3.org/XML/1998/namespace")]%string.

Definition build_step (st : result (list frame * option Xml.Element)) (t : token)
  : result (list frame * option Xml.Element) :=
  bind st (fun '(stack, root) =>
  match t with
  | TText s =>
      match stack with
      | [] => if all_space s then Ok (stack, root) else Raise ParseError
      | _ :: _ => Ok (add_text s stack root)
      end
  | TCData s =>
      match stack with
      | [] => Raise ParseError
      | _ :: _ => Ok (add_text s stack root)
      end
  | TOpen name attrs sc =>
      let outer := match stack with f :: _ => f_scope f | [] => outermost end in
      let scope := declared attrs ++ outer in
      if forallb declarable (declared attrs) && forallb (bound_attribute scope) attrs then
        bind (qualify scope name) (fun tg =>
        match stack, root with
        | [], Some _ => Raise ParseError
        | _, _ =>
            if sc then attach (Xml.Elem tg None []) stack root
            else
              Ok ({| f_name := name; f_tag := tg; f_scope := scope;
                     f_text := EmptyString; f_child := false;
                     f_children := [] |} :: stack, root)
        end)
      else Raise ParseError
  | TClose name =>
      match stack with
      | f :: rest =>
          if String.eqb (f_name f) name
          then attach (Xml.Elem (f_tag f) (text_of (f_text f)) (rev (f_children f))) rest root
          else Raise ParseError
      | [] => Raise ParseError
      end
  end).

(** The byte order mark, which may open a document. *)
Definition bom : string :=
  String (ascii_of_nat 239) (String (ascii_of_nat 187) (String (ascii_of_nat 191) EmptyString)).

Definition is_version_char (c : ascii) : bool :=
  let n := nat_of_ascii c in
  ((48 <=? n) && (n <=? 58) || (65 <=? n) && (n <=? 90) || (97 <=? n) && (n <=? 122)
   || (n =? 95) || (n =? 45) || (n =? 46))%nat.

Definition is_encoding_name (s : string) : bool :=
  match s with
  | String c s' =>
      let n := nat_of_ascii c in
      ((65 <=? n) && (n <=? 90) || (97 <=? n) && (n <=? 122))%nat
      && all_chars (fun d => is_version_char d && negb (Ascii.eqb d ":")) s'
  | EmptyString => false
  end.

Definition is_standalone (s : string) : bool :=
  String.eqb s "yes" || String.eqb s "no".

(** The pseudo-attributes of an XML declaration: [version], then
    [encoding] and [standalone] if they are given, in this order.  The
    encoding named is not looked at: the document is a [str]. *)
Definition declaration_ok (attrs : list (string * string)) : bool :=
  match attrs with
  | ("version"%string, v) :: rest =>
      all_chars is_version_char v
      && match rest with
         | [] => true
         | [("encoding"%string, e)] => is_encoding_name e
         | [("standalone"%string, a)] => is_standalone a
         | [("encoding"%string, e); ("standalone"%string, a)] =>
             is_encoding_name e && is_standalone a
         | _ => false
         end
  | _ => false
  end.

(** The document without its XML declaration, if it opens with one. *)
Definition prolog (s : string) : result string :=
  match strip_prefix "<?xml" s with
  | Some (String c r) =>
      if is_xml_space c then
        match cut_at "?>" (String c r) with
        | Some (inside, rest) =>
            match cut_at "&" inside, attributes (S (String.length inside)) (inside +++ ">") with
            | None, Ok (attrs, false, EmptyString) =>
                if declaration_ok attrs then Ok rest else Raise ParseError
            | _, _ => Raise ParseError
            end
        | None => Raise ParseError
        end
      else Ok s
  | _ => Ok s
  end.

(** [ET.fromstring(content)]. *)
Definition ET_fromstring (content : string) : result Xml.Element :=
  let content :=
    match strip_prefix bom content with
    | Some rest => rest
    | None => content
    end in
  if all_chars is_xml_byte content && negb (has_noncharacter content) then
    bind (prolog (newlines content)) (fun body =>
    bind (tokens body) (fun ts =>
    bind (fold_left build_step ts (Ok ([], None))) (fun '(stack, root) =>
    match stack, root with
    | [], Some e => Ok e
    | _, _ => Raise ParseError
    end)))
  else Raise ParseError.

End Ref.


(** ** Documents as they are laid out

    An element as it stands in a text: its name, its text, and its
    children, each with the text that follows it. *)

Module Layout.
Import Py.

Inductive Node : Set :=
| Mk (name text : string) (children : Children)
with Children : Set :=
| Last
| Next (child : Node) (tail : string) (rest : Children).

Scheme Node_mut := Induction for Node Sort Prop
  with Children_mut := Induction for Children Sort Prop.

(** The text of an element without attributes. *)
Fixpoint render (e : Node) : string :=
  match e with
  | Mk name text children =>
      "<" +++ name +++ ">" +++ text +++ render_children children
      +++ "</" +++ name +++ ">"
  end
with render_children (cs : Children) : string :=
  match cs with
  | Last => EmptyString
  | Next child tail rest => render child +++ tail +++ render_children rest
  end.

(** The element tree of a laid out element under the default namespace
    [ns]: the tails are not kept. *)
Fixpoint erase (ns : string) (e : Node) : Xml.Element :=
  match e with
  | Mk name text children =>
      Xml.Elem ("{" +++ ns +++ "}" +++ name) (Ref.text_of text) (erase_children ns children)
  end
with erase_children (ns : string) (cs : Children) : list Xml.Element :=
  match cs with
  | Last => []
  | Next child _ rest => erase ns child :: erase_children ns rest
  end.

(** The token of a piece of character data. *)
Definition chardata (t : string) : list Ref.token :=
  match t with
  | EmptyString => []
  | String _ _ => [Ref.TText t]
  end.

(** The tokens of a laid out element. *)
Fixpoint toks (e : Node) : list Ref.token :=
  match e with
  | Mk name text children =>
      Ref.TOpen name [] false :: chardata text ++ toks_children children
      ++ [Ref.TClose name]
  end
with toks_children (cs : Children) : list Ref.token :=
  match cs with
  | Last => []
  | Next child tail rest => toks child ++ chardata tail ++ toks_children rest
  end.

(** A name without a prefix. *)
Definition name_ok (name : string) : bool :=
  Ref.starts_name name && Ref.all_chars Ref.is_name_char name && Str.free_of ":" name.

(** Names are names, and text and tails are plain text. *)
Fixpoint wf (e : Node) : bool :=
  match e with
  | Mk name text children => name_ok name && Xml.plain_text text && wf_children children
  end
with wf_children (cs : Children) : bool :=
  match cs with
  | Last => true
  | Next child tail rest => wf child && Xml.plain_text tail && wf_children rest
  end.

(** Tokens put before the tokens of the rest. *)
Definition before (l : list Ref.token) (r : result (list Ref.token))
  : result (list Ref.token) :=
  bind r (fun ts => Ok (l ++ ts)).

(** A frame after a child was handed to it, and after several were. *)
Definition with_child (f : Ref.frame) (e : Xml.Element) : Ref.frame :=
  {| Ref.f_name := Ref.f_name f; Ref.f_tag := Ref.f_tag f;
     Ref.f_scope := Ref.f_scope f; Ref.f_text := Ref.f_text f;
     Ref.f_child := true; Ref.f_children := e :: Ref.f_children f |}.

Definition gather (f : Ref.frame) (es : list Xml.Element) : Ref.frame :=
  fold_left with_child es f.

(** The frame of an element whose start tag and text were read. *)
Definition opened (ns : string) (scope : list (string * string)) (name text : string)
  : Ref.frame :=
  {| Ref.f_name := name; Ref.f_tag := "{" +++ ns +++ "}" +++ name;
     Ref.f_scope := scope; Ref.f_text := text;
     Ref.f_child := false; Ref.f_children := [] |}.

Definition leaf (name text : string) : Node := Mk name text Last.

(** Children that are placemarks: each is followed by the end of its
    template and by the start of what comes next, the next placemark or
    the end tag of the document. *)
Definition lead (placemarks : list Node) : string :=
  match placemarks with
  | [] => Str.nl +++ "  "
  | _ :: _ => Str.nl +++ "    "
  end.

Fixpoint placemarks_children (placemarks : list Node) : Children :=
  match placemarks with
  | [] => Last
  | p :: rest => Next p (Str.nl +++ "        " +++ lead rest) (placemarks_children rest)
  end.

(** A placemark as a template writes it: on a line of its own, with the
    indentation of the template after it. *)
Definition placed (node : Node) : string :=
  (Str.nl +++ "    ") +++ render node +++ (Str.nl +++ "        ").

Section Written.

Variable float_repr : float -> string.

(** The placemark of waypoint [i]. *)
Definition point_node (i : N) (wp : Kml.waypoint) : Node :=
  Mk "Placemark" (Str.nl +++ "      ")
    (Next (leaf "name" ("WP" +++ Kml.letter i)) (Str.nl +++ "      ")
    (Next (leaf "description" ("Waypoint " +++ Kml.letter i)) (Str.nl +++ "      ")
    (Next (Mk "Point" (Str.nl +++ "        ")
             (Next (leaf "coordinates" (Kml.triple float_repr wp))
                (Str.nl +++ "      ") Last))
       (Str.nl +++ "    ") Last))).

Fixpoint point_nodes (i : N) (waypoints : list Kml.waypoint) : list Node :=
  match waypoints with
  | [] => []
  | wp :: rest => point_node i wp :: point_nodes (i + 1) rest
  end.

(** The placemark of the flight path. *)
Definition path_node (waypoints : list Kml.waypoint) : Node :=
  Mk "Placemark" (Str.nl +++ "      ")
    (Next (leaf "name" "Flight Path") (Str.nl +++ "      ")
    (Next (Mk "LineString" (Str.nl +++ "        ")
             (Next (leaf "coordinates" (Kml.path_text float_repr waypoints))
                (Str.nl +++ "      ") Last))
       (Str.nl +++ "      ")
    (Next (Mk "Style" (Str.nl +++ "        ")
             (Next (Mk "LineStyle" (Str.nl +++ "          ")
                      (Next (leaf "color" "ff00ff00") (Str.nl +++ "          ")
                      (Next (leaf "width" "3") (Str.nl +++ "        ") Last)))
                (Str.nl +++ "      ") Last))
       (Str.nl +++ "    ") Last))).

Definition path_nodes (waypoints : list Kml.waypoint) : list Node :=
  if (1 <? length waypoints)%nat then [path_node waypoints] else [].

Definition placemarks (waypoints : list Kml.waypoint) : list Node :=
  point_nodes 0 waypoints ++ path_nodes waypoints.

(** The [Document] element of the file written for the waypoints. *)
Definition document_node (waypoints : list Kml.waypoint) (date : string) : Node :=
  Mk "Document" (Str.nl +++ "    ")
    (Next (leaf "name" ("Flight Plan " +++ date)) (Str.nl +++ "    ")
    (Next (leaf "description" "Drone Survey Waypoints")
       (Str.nl +++ "    " +++ lead (placemarks waypoints))
       (placemarks_children (placemarks waypoints)))).

(** The XML declaration and the start tag of the root. *)
Definition declaration : string :=
  "<?xml version=" +++ dq +++ "1.0" +++ dq +++ " encoding=" +++ dq +++ "UTF-8"
  +++ dq +++ "?>".

Definition root_tag : string :=
  "<kml xmlns=" +++ dq +++ Kml.kml22 +++ dq +++ ">".

(** The file as a laid out document. *)
Definition document (waypoints : list Kml.waypoint) (date : string) : string :=
  declaration +++ Str.nl +++ root_tag +++ (Str.nl +++ "  ")
  +++ render (document_node waypoints date)
  +++ Str.nl +++ "</kml>" +++ (Str.nl +++ "    ").

End Written.

End Layout.


(** ** Sample inputs *)

Module Samples.
Import Py.

(** A one-placemark document whose elements live in the namespace [uri]. *)
Definition placemark_doc (uri : string) (description : string) : string :=
  "<kml xmlns='" +++ uri +++ "'><Document><Placemark><description>"
  +++ description
  +++ "</description><Point><coordinates>72.5,24.6,0</coordinates></Point>"
  +++ "</Placemark></Document></kml>".

(** The same placemark under KML 2.2, 2.1 and 2.0. *)
Definition kml22_doc : string :=
  placemark_doc "http://www.opengis.net/kml/2.2" "Gate".

Definition kml21_doc : string :=
  placemark_doc "http://earth.google.com/kml/2.1" "Gate".

Definition kml20_doc : string :=
  placemark_doc "http://earth.google.com/kml/2.0" "Gate".

(** A description with a bare ampersand: not well-formed. *)
Definition ampersand_doc : string :=
  placemark_doc "http://www.opengis.net/kml/2.2" "Gate & fence".

(** The triangle of the spec's scenario. *)
Definition triangle : list Geo.point :=
  [(24.6, 72.5); (24.601, 72.501); (24.602, 72.5)]%float.

(** A stand-in for the C library's sine: its cubic Taylor polynomial. *)
Definition sin_cubic (x : float) : float := (x - x * x * x / 6)%float.

(** A document that repeats one coordinate triple, and has another that
    differs from it in the seventh decimal. *)
Definition repeated_doc : string :=
  "<kml xmlns='http://www.opengis.net/kml/2.2'><Document><Placemark>"
  +++ "<LineString><coordinates>72.5,24.6,0 72.5000001,24.6,0 72.5,24.6,0 72.501,24.601,0"
  +++ "</coordinates></LineString></Placemark></Document></kml>".

(** The triangle as waypoints, and the document written for it. *)
Definition waypoints : list Kml.waypoint :=
  map (fun p => {| Kml.wp_lat := fst p; Kml.wp_lon := snd p |}) triangle.

Definition written (waypoints : list Kml.waypoint) : string :=
  match Kml.create_kml_manual Ref.float_repr waypoints "2024-05-01" None with
  | Ok s => s
  | Raise _ => EmptyString
  end.

(** Coordinate lists of every kind: valid, out of range, too long, not a
    number, swapped. *)
Definition mixed_coordinates : list (list float) :=
  [[24.6; 72.5]; [95; 10]; [1; 2; 3]; [nan; 0]; [72.5; 24.6]; []; [-90; 180]]%float.

(** Two antipodal points, and the values the C library's sine and cosine
    take at the arguments the haversine formula reaches for them
    (elsewhere a Taylor polynomial stands in). *)
Definition antipode_1 : Geo.point := (69.51232454868148, -46.70938587002465)%float.
Definition antipode_2 : Geo.point := (-69.51232454868148, 133.29061412997535)%float.

Definition sin_at (x : float) : float :=
  if (x =? -0x1.3695841ccd453p+0)%float then (-0x1.df9d5e3df0197p-1)%float
  else if (x =? 0x1.921fb54442d18p+0)%float then 1%float
  else sin_cubic x.

Definition cos_at (x : float) : float :=
  if (abs x =? 0x1.3695841ccd453p+0)%float then 0x1.6667f1c19dc42p-2%float
  else (1 - x * x / 2)%float.

(** [pow(x, 2.0)] as the product [x * x]. *)
Definition square (x y : float) : float := (x * x)%float.

(** A session with two waypoints and a processed marker, and drawings the
    map may hand back. *)
Definition session_1 : App.session :=
  {| App.waypoints := [ {| Kml.wp_lat := 24.6; Kml.wp_lon := 72.5 |};
                        {| Kml.wp_lat := 24.601; Kml.wp_lon := 72.501 |} ]%float;
     App.processed_markers := [(24.6, 72.5)%float];
     App.active_polyline := None |}.

Definition drawings_1 : list App.drawing :=
  [ App.DPoint 72.5 24.6;
    App.DPoint 72.50005 24.60005;
    App.DOther;
    App.DPoint 72.502 24.602;
    App.DLineString [(72.5, 24.6); (72.6, 24.7)];
    App.DPoint 72.503 24.603 ]%float.

(** [parse_kml] with the reference builtins. *)
Definition parse (file : string) : list Geo.point * list diagnostic :=
  Kml.parse_kml Ref.float_of_string Ref.float_repr Ref.ET_fromstring file.

End Samples.

Import Py.

(** * Properties *)

(** ** Axis order *)

Lemma ensure_lat_lon_order_fixed (c0 c1 : float) :
  Geo.lat_ok c0 && Geo.lon_ok c1 = true ->
  Geo.ensure_lat_lon_order [c0; c1] = [c0; c1].
Proof.
  intros H. unfold Geo.ensure_lat_lon_order. now rewrite H.
Qed.

(** C10. The axis-order normaliser is idempotent: applying
    [ensure_lat_lon_order] twice gives what applying it once gives, for
    every coordinate list (a swapped pair passes the latitude-first test,
    and a pair left alone is returned as it is). *)
Theorem ensure_lat_lon_order_idempotent (coord : list float) :
  Geo.ensure_lat_lon_order (Geo.ensure_lat_lon_order coord)
  = Geo.ensure_lat_lon_order coord.
Proof.
  destruct coord as [|c0 [|c1 [|c2 rest]]]; try reflexivity.
  destruct (Geo.lat_ok c0 && Geo.lon_ok c1) eqn:Hfirst.
  - now rewrite !(ensure_lat_lon_order_fixed c0 c1 Hfirst).
  - destruct (Geo.lon_ok c0 && Geo.lat_ok c1) eqn:Hsecond.
    + assert (Hswap : Geo.ensure_lat_lon_order [c0; c1] = [c1; c0]).
      { unfold Geo.ensure_lat_lon_order. now rewrite Hfirst, Hsecond. }
      rewrite Hswap. apply ensure_lat_lon_order_fixed.
      apply andb_true_iff in Hsecond as [Ha Hb].
      now rewrite Hb, Ha.
    + assert (Hkeep : Geo.ensure_lat_lon_order [c0; c1] = [c0; c1]).
      { unfold Geo.ensure_lat_lon_order. now rewrite Hfirst, Hsecond. }
      now rewrite !Hkeep.
Qed.

(** ** Distance *)
Section Distance.
Variables libm_sin libm_cos : float -> float.
Variables libm_atan2 libm_pow : float -> float -> float.

Let distance := Geo.calculate_distance libm_sin libm_cos libm_atan2 libm_pow.

(** C7. Whenever a latitude is not within [-90, 90] or a longitude not
    within [-180, 180], [calculate_distance] reports an error and returns
    the int 0: the check is made inside the function and the exception it
    raises is caught there. *)
Theorem calculate_distance_out_of_range (lat1 lon1 lat2 lon2 : float) :
  Geo.lat_ok lat1 = false \/ Geo.lat_ok lat2 = false \/
  Geo.lon_ok lon1 = false \/ Geo.lon_ok lon2 = false ->
  distance lat1 lon1 lat2 lon2
  = (Int 0, [StError "Distance calculation error: "
               (Some (ValueError "Invalid coordinate values"))]).
Proof.
  intros H. unfold distance, Geo.calculate_distance, Geo.haversine.
  assert (Hguard : negb (forallb Geo.lat_ok [lat1; lat2])
                   || negb (forallb Geo.lon_ok [lon1; lon2]) = true).
  { cbn [forallb]. rewrite !andb_true_r.
    destruct H as [H | [H | [H | H]]]; rewrite H;
      destruct (Geo.lat_ok lat1), (Geo.lat_ok lat2), (Geo.lon_ok lon1),
        (Geo.lon_ok lon2); (reflexivity || discriminate). }
  now rewrite Hguard.
Qed.

End Distance.

Lemma calculate_distance_out_of_range_witness :
  Geo.calculate_distance Samples.sin_cubic Samples.sin_cubic
    (fun y x => (y / x)%float) (fun x y => (x * x)%float) 91 72.5 24.6 72.5
  = (Int 0, [StError "Distance calculation error: "
               (Some (ValueError "Invalid coordinate values"))]).
Proof.
  apply calculate_distance_out_of_range. left. vm_compute. reflexivity.
Defined.


(** ** Binary64 facts *)

Lemma digits2_pos_bound (m : positive) : Zpos m < 2 ^ Zpos (digits2_pos m).
Proof.
  induction m as [m IH | m IH |]; simpl digits2_pos.
  - rewrite Pos2Z.inj_succ, Z.pow_succ_r by lia. lia.
  - rewrite Pos2Z.inj_succ, Z.pow_succ_r by lia. lia.
  - reflexivity.
Qed.

Lemma bounded_mantissa (m : positive) (e : Z) :
  bounded prec emax m e = true -> Zpos m < 2 ^ 53.
Proof.
  unfold bounded, canonical_mantissa, fexp. intros H.
  apply andb_true_iff in H as [H _].
  apply Z.eqb_eq in H.
  assert (Hd : Zpos (digits2_pos m) <= 53) by (unfold prec in H; lia).
  pose proof (digits2_pos_bound m) as Hm.
  assert (2 ^ Zpos (digits2_pos m) <= 2 ^ 53) by (apply Z.pow_le_mono_r; lia).
  lia.
Qed.

Lemma finite_mantissa (x : float) (s : bool) (m : positive) (e : Z) :
  Prim2SF x = S754_finite s m e -> Zpos m < 2 ^ 53.
Proof.
  intros H. pose proof (Prim2SF_valid x) as Hv. rewrite H in Hv.
  now apply bounded_mantissa with e.
Qed.

(** A float below 59.99995 truncates to at most 59. *)
Lemma int_of_float_below_carry (sec : float) (z : Z) :
  (59.99995 <=? sec)%float = false ->
  int_of_float sec = Some z -> z <= 59.
Proof.
  intros Hle Hint. unfold int_of_float in Hint.
  rewrite leb_spec in Hle.
  destruct (Prim2SF sec) as [s | s | | s m e] eqn:Hsf; try discriminate.
  - injection Hint as <-. lia.
  - pose proof (finite_mantissa _ _ _ _ Hsf) as Hm.
    injection Hint as <-.
    destruct s.
    + pose proof (Z.shiftl_nonneg (Zpos m) e). lia.
    + assert (HL : Prim2SF 59.99995 = S754_finite false 8444242264445262 (-47))
        by (vm_compute; reflexivity).
      rewrite HL in Hle.
      unfold SFleb, SFcompare in Hle.
      destruct (Z.compare_spec (-47) e) as [He | He | He]; try discriminate.
      * subst e. fold (Pos.compare 8444242264445262 m) in Hle.
        destruct (Pos.compare_spec 8444242264445262 m) as [Hp | Hp | Hp];
          try discriminate.
        clear Hle HL Hsf Hm.
        rewrite Z.shiftl_div_pow2 by discriminate.
        apply Z.lt_succ_r. apply Z.div_lt_upper_bound; [reflexivity|].
        apply Z.lt_trans with (Zpos 8444242264445262); [exact Hp | reflexivity].
      * clear Hle HL Hsf.
        rewrite Z.shiftl_div_pow2 by lia.
        apply Z.lt_succ_r. apply Z.div_lt_upper_bound.
        { apply Z.pow_pos_nonneg; lia. }
        assert (H48 : 2 ^ 48 <= 2 ^ (- e)) by (apply Z.pow_le_mono_r; lia).
        change (2 ^ 53) with (32 * 2 ^ 48) in Hm.
        change (Z.succ 59) with 60.
        remember (2 ^ 48) as a. remember (2 ^ (- e)) as b.
        clear Heqa Heqb He. nia.
Qed.

(** ** DMS formatter *)

Import Dms.

(** The two-digit field of a number below 60 never starts with "60". *)
Lemma format_02d_head (z : Z) :
  z <= 59 ->
  exists a b rest, format_02d z = String a (String b rest)
                   /\ (a <> "6"%char \/ b <> "0"%char).
Proof.
  intros Hz. destruct (Z.ltb_spec z 0) as [Hneg | Hpos].
  - unfold format_02d. destruct (Z.ltb_spec z 0) as [_ | ?]; [|lia].
    unfold rjust0, digits.
    destruct z as [| p | p]; try lia. simpl Z.opp.
    remember (NilZero.string_of_uint (N.to_uint (Z.to_N (Z.pos p)))) as d eqn:Hd.
    destruct d as [|c d].
    + exfalso. revert Hd. simpl. unfold NilZero.string_of_uint.
      destruct (Pos.to_uint p) eqn:Hu; discriminate.
    + simpl. destruct d.
      * exists "-"%char, c, EmptyString. split; [reflexivity | left; discriminate].
      * exists "-"%char, c, (String a d). split; [reflexivity | left; discriminate].
  - assert (Hn : exists n, (n < 60)%nat /\ z = Z.of_nat n).
    { exists (Z.to_nat z). split; lia. }
    destruct Hn as (n & Hn & ->).
    do 60 (destruct n as [|n];
           [vm_compute; do 3 eexists; split;
            [reflexivity | first [left; discriminate | right; discriminate]] |]).
    lia.
Qed.

Lemma format_02d_not_sixty (z : Z) (t : string) :
  z <= 59 -> format_02d z +++ t <> "60.0000"%string.
Proof.
  intros Hz Heq.
  destruct (format_02d_head z Hz) as (a & b & rest & Hf & Hab).
  rewrite Hf in Heq. simpl in Heq.
  injection Heq as Ha Hb _.
  destruct Hab as [Hab | Hab]; congruence.
Qed.

(** With the seconds reset to zero the seconds field reads [00.0000]. *)
Lemma render_zero_seconds (dir : string) (deg min_val : Z) :
  render dir (deg, min_val, 0%float)
  = Some {| deg_str := format_02d deg; min_str := format_02d min_val;
            sec_formatted := "00.0000"; direction := dir |}.
Proof. reflexivity. Qed.

(** C3. When the raw seconds are at least 59.99995 the seconds are reset
    to zero and the minutes incremented, and minutes that reach 60 are
    reset to zero with the degrees incremented; and no output has a
    seconds field reading [60.0000]. *)
Theorem dms_seconds_carry (decimal : float) (is_lat : bool)
  (deg min_val : Z) (sec : float) :
  decompose decimal = Some (deg, min_val, sec) ->
  ((59.99995 <=? sec)%float = true ->
   decimal_to_dms_formatted decimal is_lat
   = Some (format_02d (if 60 <=? min_val + 1 then deg + 1 else deg) +++ "°"
           +++ format_02d (if 60 <=? min_val + 1 then 0 else min_val + 1)
           +++ "'00.0000" +++ dq +++ direction_of decimal is_lat))
  /\ (forall f, dms_fields decimal is_lat = Some f ->
                sec_formatted f <> "60.0000"%string).
Proof.
  intros Hdec. split.
  - intros Hge. unfold decimal_to_dms_formatted, dms_fields, carry.
    rewrite Hdec, Hge.
    destruct (60 <=? min_val + 1); rewrite render_zero_seconds; reflexivity.
  - intros f Hf. unfold dms_fields, carry in Hf. rewrite Hdec in Hf.
    destruct (59.99995 <=? sec)%float eqn:Hge.
    + destruct (60 <=? min_val + 1); rewrite render_zero_seconds in Hf;
        injection Hf as <-; discriminate.
    + unfold render in Hf.
      destruct (int_of_float sec) as [sec_int|] eqn:Hint; [|discriminate].
      injection Hf as <-. simpl sec_formatted.
      apply format_02d_not_sixty.
      now apply int_of_float_below_carry with sec.
Qed.

Lemma dms_seconds_carry_witness :
  decimal_to_dms_formatted 179.99999999 false
  = Some ("180°00'00.0000" +++ dq +++ "E")
  /\ (forall f, dms_fields 179.99999999 false = Some f ->
                sec_formatted f <> "60.0000"%string).
Proof.
  destruct (decompose 179.99999999) as [[[deg min_val] sec]|] eqn:Hdec;
    [| vm_compute in Hdec; discriminate].
  destruct (dms_seconds_carry 179.99999999 false deg min_val sec Hdec)
    as [Hcarry Hnever].
  split; [| exact Hnever].
  vm_compute in Hdec. injection Hdec as <- <- <-.
  rewrite Hcarry by (vm_compute; reflexivity). reflexivity.
Defined.


(** The zero of the spec's example. *)
Lemma dms_zero :
  Dms.decimal_to_dms_formatted 0 true = Some ("00°00'00.0000" +++ dq +++ "N").
Proof. vm_compute. reflexivity. Qed.

Lemma dms_south :
  Dms.decimal_to_dms_formatted (-33.865) true
  = Some ("33°51'54.0000" +++ dq +++ "S").
Proof. vm_compute. reflexivity. Qed.

(** C4. At 0.00861111 degrees the raw seconds are 30.999996; their
    fraction is formatted as [1.0000], of which only [0000] is kept, and
    the output reads 30.0000 seconds where four-decimal precision gives
    31.0000. *)
Theorem dms_fraction_carry_lost :
  exists sec : float,
    Dms.decompose 0.00861111 = Some (0, 0, sec)
    /\ (30.99999 <=? sec)%float = true
    /\ (sec <? 31)%float = true
    /\ format_4f (sec - 30)%float = "1.0000"%string
    /\ Dms.decimal_to_dms_formatted 0.00861111 true
       = Some ("00°00'30.0000" +++ dq +++ "N").
Proof.
  exists 0x1.effffbce4217dp+4%float.
  repeat split; vm_compute; reflexivity.
Qed.

(** ** KML reader: the two parse attempts *)

Section ParseAttempts.
Variable float_of_string : string -> option float.
Variable float_repr : float -> string.
Variable ET_fromstring : string -> result Xml.Element.

(** C1. When the strict parse of a document raises [ParseError], building
    the lenient parser raises [TypeError], and [parse_kml] returns no
    point and reports the error: nothing is recovered. *)
Theorem parse_kml_lenient_mode_raises (file content : string) :
  Str.decode_utf8 file = Ok content ->
  ET_fromstring content = Raise ParseError ->
  Kml.parse_kml float_of_string float_repr ET_fromstring file
  = ([], [StError "KML Parsing Error: "
            (Some (TypeError
                     "'recover' is an invalid keyword argument for XMLParser()"))]).
Proof.
  intros Hdec Hstrict.
  unfold Kml.parse_kml, Kml.read_root.
  rewrite Hdec. simpl bind. rewrite Hstrict. reflexivity.
Qed.

End ParseAttempts.

Lemma parse_kml_lenient_mode_raises_witness :
  Samples.parse Samples.ampersand_doc
  = ([], [StError "KML Parsing Error: "
            (Some (TypeError
                     "'recover' is an invalid keyword argument for XMLParser()"))]).
Proof.
  apply (parse_kml_lenient_mode_raises Ref.float_of_string Ref.float_repr
           Ref.ET_fromstring Samples.ampersand_doc Samples.ampersand_doc);
    vm_compute; reflexivity.
Defined.

(** The same placemark, well-formed, is read. *)
Lemma parse_kml_escaped_ampersand :
  Samples.parse
    (Samples.placemark_doc "http://www.opengis.net/kml/2.2" "Gate &amp; fence")
  = ([(24.6, 72.5)%float], []).
Proof. vm_compute. reflexivity. Qed.

(** ** KML reader: namespaces *)

(** C2. A placemark under the KML 2.2 namespace is read, and the same
    placemark under the KML 2.1 or the KML 2.0 namespace yields no point:
    every candidate searches the 2.2 tags or the bare ones. *)
Theorem parse_kml_older_namespaces_yield_nothing :
  Samples.parse Samples.kml22_doc = ([(24.6, 72.5)%float], [])
  /\ Samples.parse Samples.kml21_doc = ([], [])
  /\ Samples.parse Samples.kml20_doc = ([], []).
Proof. repeat split; vm_compute; reflexivity. Qed.


(** ** Loops over indices *)

(** A loop whose body only reads [h i] is a fold over the values read. *)
Lemma fold_left_reads {S E : Type} (f : S -> nat -> S) (g : S -> E -> S)
  (h : nat -> E) (l : list nat) (st : S) :
  (forall i s, In i l -> f s i = g s (h i)) ->
  fold_left f l st = fold_left g (map h l) st.
Proof.
  revert st. induction l as [|i l IH]; intros st Hf; [reflexivity|].
  simpl. rewrite Hf by (left; reflexivity).
  apply IH. intros j s Hj. apply Hf. now right.
Qed.

Lemma range_of_length (n : nat) : Geo.range (Z.of_nat n) = seq 0 n.
Proof. unfold Geo.range. now rewrite Nat2Z.id. Qed.

Lemma range_of_length_pred (n : nat) :
  Geo.range (Z.of_nat n - 1) = seq 0 (n - 1).
Proof. unfold Geo.range. f_equal. lia. Qed.

Lemma getitem_nth {A} (l : list A) (i : nat) (d : A) :
  (i < length l)%nat -> Geo.getitem l i = Ok (nth i l d).
Proof.
  intros Hi. unfold Geo.getitem.
  now rewrite (nth_error_nth' l d Hi).
Qed.

(** Reading [l[i]] and [l[i+1]] for [i] below [n - 1] walks the
    consecutive pairs. *)
Lemma map_seq_segments {A} (l : list A) (d : A) :
  map (fun i => (nth i l d, nth (i + 1) l d)) (seq 0 (length l - 1))
  = Geo.segments l.
Proof.
  unfold Geo.segments.
  induction l as [|a l IH]; [reflexivity|].
  destruct l as [|b l]; [reflexivity|].
  replace (length (a :: b :: l) - 1)%nat with (S (length (b :: l) - 1))
    by (simpl; lia).
  rewrite <- cons_seq, <- seq_shift, map_cons, map_map.
  change (combine (a :: b :: l) (tl (a :: b :: l)))
    with ((a, b) :: combine (b :: l) (tl (b :: l))).
  rewrite <- IH. f_equal.
Qed.

Lemma segments_length {A} (l : list A) :
  length (Geo.segments l) = (length l - 1)%nat.
Proof.
  unfold Geo.segments. rewrite length_combine.
  destruct l; cbn [length tl]; lia.
Qed.

Lemma closed_edges_snoc {A} (a : A) (l : list A) (d : A) :
  Geo.closed_edges (a :: l)
  = Geo.segments (a :: l) ++ [(last (a :: l) d, a)].
Proof.
  unfold Geo.closed_edges, Geo.segments. simpl tl. simpl firstn.
  revert a. induction l as [|b l IH]; intros a; [reflexivity|].
  change (combine (a :: b :: l) ((b :: l) ++ [a]))
    with ((a, b) :: combine (b :: l) (l ++ [a])).
  change (combine (a :: b :: l) (b :: l))
    with ((a, b) :: combine (b :: l) l).
  change (last (a :: b :: l) d) with (last (b :: l) d).
  simpl app. f_equal.
  specialize (IH b).
  (* the tail pairs do not depend on which point closes the polygon *)
  clear IH. revert b. induction l as [|c l IH]; intros b; [reflexivity|].
  change (combine (b :: c :: l) ((c :: l) ++ [a]))
    with ((b, c) :: combine (c :: l) (l ++ [a])).
  change (combine (b :: c :: l) (c :: l)) with ((b, c) :: combine (c :: l) l).
  change (last (b :: c :: l) d) with (last (c :: l) d).
  simpl app. f_equal. apply IH.
Qed.

Lemma closed_edges_length {A} (l : list A) :
  length (Geo.closed_edges l) = length l.
Proof.
  unfold Geo.closed_edges. rewrite length_combine, length_app.
  destruct l; cbn [length tl firstn]; lia.
Qed.

(** Reading [l[i]] and [l[(i+1) % n]] for every [i] walks the closed
    polygon. *)
Lemma nth_last {A} (a : A) (l : list A) (d : A) :
  nth (length l) (a :: l) d = last (a :: l) d.
Proof.
  revert a. induction l as [|b l IH]; intros a; [reflexivity|].
  change (nth (length (b :: l)) (a :: b :: l) d) with (nth (length l) (b :: l) d).
  rewrite IH. reflexivity.
Qed.

Lemma map_seq_closed_edges {A} (l : list A) (d : A) :
  map (fun i => (nth i l d, nth ((i + 1) mod length l) l d)) (seq 0 (length l))
  = Geo.closed_edges l.
Proof.
  destruct l as [|a l]; [reflexivity|].
  rewrite (closed_edges_snoc a l d), <- (map_seq_segments (a :: l) d).
  cbn [length]. rewrite Nat.sub_succ, Nat.sub_0_r.
  rewrite seq_S, map_app. f_equal.
  - apply map_ext_in. intros i Hi. apply in_seq in Hi.
    rewrite Nat.mod_small by lia. reflexivity.
  - cbn [map]. rewrite Nat.add_0_l.
    replace (length l + 1)%nat with (S (length l)) by lia.
    rewrite Nat.Div0.mod_same. rewrite nth_last. reflexivity.
Qed.

(** ** Polyline length and spherical area *)

Section Engines.
Variables libm_sin libm_cos : float -> float.
Variables libm_atan2 libm_pow : float -> float -> float.

Let distance := Geo.calculate_distance libm_sin libm_cos libm_atan2 libm_pow.
Let polyline_length :=
  Geo.calculate_polyline_length libm_sin libm_cos libm_atan2 libm_pow.
Let leg_distances := Geo.leg_distances libm_sin libm_cos libm_atan2 libm_pow.
Let area_approximate := Geo.calculate_polygon_area_approximate libm_sin.

(** One turn of the loop, once both points are read. *)
Lemma polyline_step_reads (coordinates : list Geo.point) (i : nat)
  (st : result (num * list diagnostic)) (d : Geo.point) :
  (i < length coordinates - 1)%nat ->
  Geo.polyline_step libm_sin libm_cos libm_atan2 libm_pow coordinates st i
  = Geo.add_leg libm_sin libm_cos libm_atan2 libm_pow st
      (nth i coordinates d, nth (i + 1) coordinates d).
Proof.
  intros Hi. unfold Geo.polyline_step, Geo.add_leg.
  destruct st as [[total log] | e]; [|reflexivity].
  cbn [bind].
  rewrite (getitem_nth coordinates i d) by lia.
  rewrite (getitem_nth coordinates (i + 1) d) by lia.
  cbn [bind].
  destruct (nth i coordinates d), (nth (i + 1) coordinates d). reflexivity.
Qed.

(** Accumulating the legs one by one adds up their distances and
    concatenates their reports. *)
Lemma fold_legs (legs : list (Geo.point * Geo.point)) (total : num)
  (log : list diagnostic) :
  fold_left (Geo.add_leg libm_sin libm_cos libm_atan2 libm_pow)
    legs (Ok (total, log))
  = Ok (fold_left add (map fst (leg_distances legs)) total,
        log ++ concat (map snd (leg_distances legs))).
Proof.
  revert total log. induction legs as [|[[lat1 lon1] [lat2 lon2]] legs IH];
    intros total log.
  - cbn. now rewrite app_nil_r.
  - subst leg_distances. cbn [fold_left Geo.add_leg bind Geo.leg_distances map].
    destruct (Geo.calculate_distance libm_sin libm_cos libm_atan2 libm_pow
                lat1 lon1 lat2 lon2) as [dist msgs] eqn:Hd.
    rewrite IH. cbn [fst snd concat fold_left]. now rewrite app_assoc.
Qed.

(** C8. The polyline length is the sum, from the int 0 and in order, of
    the distances over the consecutive pairs: [n - 1] of them for [n]
    points, with no pair from the last point back to the first; it is 0
    for the empty sequence and for one point. *)
Theorem polyline_length_open_sum (coordinates : list Geo.point) :
  polyline_length coordinates
  = Ok (fold_left add (map fst (leg_distances (Geo.segments coordinates))) (Int 0),
        concat (map snd (leg_distances (Geo.segments coordinates))))
  /\ length (Geo.segments coordinates) = (length coordinates - 1)%nat
  /\ polyline_length [] = Ok (Int 0, [])
  /\ (forall p, polyline_length [p] = Ok (Int 0, [])).
Proof.
  split; [|split; [apply segments_length | split; [reflexivity | reflexivity]]].
  unfold polyline_length, Geo.calculate_polyline_length.
  rewrite range_of_length_pred.
  rewrite (fold_left_reads _
             (Geo.add_leg libm_sin libm_cos libm_atan2 libm_pow)
             (fun i => (nth i coordinates (0, 0)%float,
                        nth (i + 1) coordinates (0, 0)%float))).
  - rewrite map_seq_segments. apply (fold_legs _ (Int 0) []).
  - intros i s Hi. apply in_seq in Hi.
    apply polyline_step_reads. lia.
Qed.

(** One turn of the area loop, once both points are read. *)
Lemma area_step_reads (coordinates : list Geo.point) (i : nat)
  (st : result num) (d : Geo.point) :
  (i < length coordinates)%nat ->
  Geo.area_step libm_sin coordinates (length coordinates) st i
  = Geo.add_edge libm_sin st
      (nth i coordinates d, nth ((i + 1) mod length coordinates) coordinates d).
Proof.
  intros Hi. unfold Geo.area_step, Geo.add_edge.
  destruct st as [area | e]; [|reflexivity].
  cbn [bind fst snd].
  rewrite (getitem_nth coordinates i d) by lia.
  rewrite (getitem_nth coordinates _ d)
    by (apply Nat.mod_upper_bound; lia).
  reflexivity.
Qed.

Lemma excess_term_returns (p q : Geo.point) :
  Geo.sin_returns libm_sin p -> Geo.sin_returns libm_sin q ->
  Geo.excess_term libm_sin p q = Ok (Geo.excess libm_sin (p, q)).
Proof.
  unfold Geo.sin_returns, Geo.excess_term, Geo.excess.
  destruct p as [lat1 lon1], q as [lat2 lon2]. cbn [fst].
  intros -> ->. reflexivity.
Qed.

(** Accumulating edges whose sines return keeps a float sum. *)
Lemma fold_edges (edges : list (Geo.point * Geo.point)) (acc : float) :
  (forall e, In e edges ->
             Geo.sin_returns libm_sin (fst e) /\ Geo.sin_returns libm_sin (snd e)) ->
  fold_left (Geo.add_edge libm_sin) edges (Ok (Float acc))
  = Ok (Float (fold_left (fun a e => (a + Geo.excess libm_sin e)%float) edges acc)).
Proof.
  revert acc. induction edges as [|[p q] edges IH]; intros acc Hs; [reflexivity|].
  cbn [fold_left]. unfold Geo.add_edge at 2. cbn [bind fst snd].
  destruct (Hs (p, q)) as [Hp Hq]; [now left|]. cbn [fst snd] in Hp, Hq.
  rewrite (excess_term_returns p q Hp Hq). cbn [bind add to_float].
  apply IH. intros e He. apply Hs. now right.
Qed.

Lemma float_of_Z_zero : float_of_Z 0 = 0%float.
Proof. reflexivity. Qed.

Lemma in_combine_both {A} (x y : A) (l r : list A) :
  In (x, y) (combine l r) -> In x l /\ In y r.
Proof.
  intros H. split; [eapply in_combine_l | eapply in_combine_r]; exact H.
Qed.

(** C6. With fewer than 3 points the approximate area is the int 0.  With
    3 points or more it accumulates, over the consecutive pairs and the
    pair from the last point back to the first, the term
    [(lon2 - lon1) * (2 + sin lat1 + sin lat2)] in radians, and returns
    [|sum| * R * R / 2 / 10000] with [R = 6371000]. *)
Theorem area_approximate_closed_sum (coordinates : list Geo.point) :
  ((length coordinates < 3)%nat -> area_approximate coordinates = Ok (Int 0))
  /\ ((3 <= length coordinates)%nat ->
      (forall p, In p coordinates -> Geo.sin_returns libm_sin p) ->
      area_approximate coordinates
      = Ok (Float
              (abs (fold_left (fun a e => (a + Geo.excess libm_sin e)%float)
                      (Geo.closed_edges coordinates) 0%float)
               * 6371000 * 6371000 / 2 / 10000)%float))
  /\ length (Geo.closed_edges coordinates) = length coordinates.
Proof.
  split; [|split; [|apply closed_edges_length]].
  - intros Hlt. unfold area_approximate, Geo.calculate_polygon_area_approximate.
    apply Nat.ltb_lt in Hlt. now rewrite Hlt.
  - intros Hge Hsin.
    unfold area_approximate, Geo.calculate_polygon_area_approximate.
    destruct (Nat.ltb_spec (length coordinates) 3) as [Hlt | _]; [lia|].
    rewrite range_of_length.
    rewrite (fold_left_reads _ (Geo.add_edge libm_sin)
               (fun i => (nth i coordinates (0, 0)%float,
                          nth ((i + 1) mod length coordinates) coordinates
                            (0, 0)%float)))
      by (intros i s Hi; apply in_seq in Hi; apply area_step_reads; lia).
    rewrite map_seq_closed_edges.
    assert (Hedges : forall e, In e (Geo.closed_edges coordinates) ->
              Geo.sin_returns libm_sin (fst e) /\ Geo.sin_returns libm_sin (snd e)).
    { intros [p q] He. apply in_combine_both in He as [Hp Hq].
      split; apply Hsin; [exact Hp|].
      apply in_app_or in Hq as [Hq | Hq].
      - destruct coordinates; [contradiction | now right].
      - destruct coordinates as [|c cs]; [contradiction|].
        destruct Hq as [<- | []]. now left. }
    destruct (Geo.closed_edges coordinates) as [|[p q] edges] eqn:Hce.
    { pose proof (closed_edges_length coordinates) as Hl. rewrite Hce in Hl.
      cbn in Hl. lia. }
    cbn [fold_left]. unfold Geo.add_edge at 2. cbn [bind fst snd].
    destruct (Hedges (p, q)) as [Hp Hq]; [now left|]. cbn [fst snd] in Hp, Hq.
    rewrite (excess_term_returns p q Hp Hq). cbn [bind add to_float].
    rewrite float_of_Z_zero.
    rewrite fold_edges by (intros e He; apply Hedges; now right).
    reflexivity.
Qed.

End Engines.

Lemma area_approximate_closed_sum_witness :
  Geo.calculate_polygon_area_approximate Samples.sin_cubic Samples.triangle
  = Ok (Float
          (abs (fold_left (fun a e => (a + Geo.excess Samples.sin_cubic e)%float)
                  (Geo.closed_edges Samples.triangle) 0%float)
           * 6371000 * 6371000 / 2 / 10000)%float).
Proof.
  apply (area_approximate_closed_sum Samples.sin_cubic Samples.triangle).
  - cbn. lia.
  - intros p Hp.
    repeat (destruct Hp as [<- | Hp]; [vm_compute; reflexivity|]).
    contradiction.
Defined.

Lemma polyline_length_triangle :
  length (Geo.segments Samples.triangle) = 2%nat
  /\ length (Geo.closed_edges Samples.triangle) = 3%nat
  /\ last (Geo.closed_edges Samples.triangle) ((0, 0), (0, 0))%float
     = ((24.602, 72.5), (24.6, 72.5))%float.
Proof. repeat split. Qed.


(** ** Float equality *)

Lemma SFeqb_compared (x y : spec_float) :
  SFeqb x y = true <-> compared_sf x = compared_sf y /\ compared_sf x <> None.
Proof.
  unfold SFeqb, SFcompare, compared_sf.
  destruct x as [sx | sx | | sx mx ex], y as [sy | sy | | sy my ey];
    try destruct sx; try destruct sy;
    try (split;
         [ first [ discriminate | intros _; split; [reflexivity | discriminate] ]
         | intros [H1 H2]; first [ reflexivity | discriminate | congruence ] ]).
  all: fold (Pos.compare mx my);
    destruct (Z.compare_spec ex ey) as [He | He | He];
    destruct (Pos.compare_spec mx my) as [Hm | Hm | Hm]; cbn [CompOpp];
    (split;
     [ first [ discriminate | intros _; subst; split; [reflexivity | discriminate] ]
     | intros [H1 H2]; first [ reflexivity | injection H1 as -> ->; lia ] ]).
Qed.

Lemma eqb_compared (x y : float) :
  (x =? y)%float = true <-> compared x = compared y /\ compared x <> None.
Proof. rewrite FloatAxioms.eqb_spec. apply SFeqb_compared. Qed.

Lemma eqb_sym (x y : float) : (x =? y)%float = (y =? x)%float.
Proof.
  apply eq_true_iff_eq.
  split; intros H; apply eqb_compared in H as [H1 H2]; apply eqb_compared;
    split; congruence.
Qed.

Lemma eqb_trans (x y z : float) :
  (x =? y)%float = true -> (y =? z)%float = true -> (x =? z)%float = true.
Proof.
  intros Hxy Hyz. apply eqb_compared in Hxy as [H1 H2].
  apply eqb_compared in Hyz as [H3 H4]. apply eqb_compared. split; congruence.
Qed.

Lemma eqb_refl_compared (x : float) :
  compared x <> None -> (x =? x)%float = true.
Proof. intros H. apply eqb_compared. now split. Qed.

(** ** Rounding never makes a [nan] *)

Lemma shr_1_nonneg (mrs : shr_record) :
  0 <= shr_m mrs -> 0 <= shr_m (shr_1 mrs).
Proof.
  destruct mrs as [m r s]. cbn [shr_m]. intros Hm. unfold shr_1.
  destruct m as [|p|p]; [cbn; lia | | lia].
  destruct p; cbn; lia.
Qed.

Lemma iter_pos_nonneg (p : positive) (mrs : shr_record) :
  0 <= shr_m mrs -> 0 <= shr_m (iter_pos shr_1 p mrs).
Proof.
  revert mrs. induction p as [p IH | p IH |]; intros mrs Hm; cbn [iter_pos].
  - apply IH, IH. now apply shr_1_nonneg.
  - now apply IH, IH.
  - now apply shr_1_nonneg.
Qed.

Lemma shr_fexp_nonneg (m e : Z) (l : location) :
  0 <= m -> 0 <= shr_m (fst (shr_fexp prec emax m e l)).
Proof.
  intros Hm. unfold shr_fexp, shr.
  assert (H0 : 0 <= shr_m (shr_record_of_loc m l)).
  { destruct l as [|[]]; exact Hm. }
  destruct (fexp prec emax (Zdigits2 m + e) - e) as [|p|p]; cbn [fst];
    [exact H0 | now apply iter_pos_nonneg | exact H0].
Qed.

Lemma round_nearest_even_nonneg (m : Z) (l : location) :
  0 <= m -> 0 <= round_nearest_even m l.
Proof.
  intros Hm. unfold round_nearest_even.
  destruct l as [|[]]; try destruct (Z.even m); lia.
Qed.

Lemma binary_round_aux_not_nan (sx : bool) (mx ex : Z) (lx : location) :
  0 <= mx -> binary_round_aux prec emax sx mx ex lx <> S754_nan.
Proof.
  intros Hm. unfold binary_round_aux.
  pose proof (shr_fexp_nonneg mx ex lx Hm) as H1.
  destruct (shr_fexp prec emax mx ex lx) as [mrs' e']. cbn [fst] in H1.
  pose proof (shr_fexp_nonneg
                (round_nearest_even (shr_m mrs') (loc_of_shr_record mrs'))
                e' loc_Exact (round_nearest_even_nonneg _ _ H1)) as H2.
  destruct (shr_fexp prec emax _ e' loc_Exact) as [mrs'' e'']. cbn [fst] in H2.
  destruct (shr_m mrs'') as [|p|p]; [discriminate | | lia].
  destruct (e'' <=? emax - prec); discriminate.
Qed.

Lemma binary_round_not_nan (sx : bool) (mx : positive) (ex : Z) :
  binary_round prec emax sx mx ex <> S754_nan.
Proof.
  unfold binary_round.
  destruct (shl_align mx ex _) as [mz ez].
  apply binary_round_aux_not_nan. lia.
Qed.

Lemma binary_normalize_not_nan (m e : Z) (szero : bool) :
  binary_normalize prec emax m e szero <> S754_nan.
Proof.
  unfold binary_normalize.
  destruct m; [discriminate | apply binary_round_not_nan..].
Qed.

Lemma SF2Prim_not_nan (sf : spec_float) :
  sf <> S754_nan -> Prim2SF (SF2Prim sf) <> S754_nan.
Proof.
  intros Hsf. destruct sf as [s | s | | s m e]; [| | congruence |].
  - destruct s; vm_compute; discriminate.
  - destruct s; vm_compute; discriminate.
  - unfold SF2Prim.
    assert (Hf : Prim2SF (Z.ldexp (of_uint63 (Uint63.of_Z (Z.pos m))) e)
                 <> S754_nan).
    { rewrite Z_ldexp_spec, of_uint63_spec. unfold SFldexp.
      pose proof (binary_normalize_not_nan
                    (Uint63.to_Z (Uint63.of_Z (Z.pos m))) 0 false) as Hn.
      destruct (binary_normalize prec emax _ 0 false);
        [discriminate | discriminate | congruence | apply binary_round_not_nan]. }
    destruct s; [|exact Hf].
    rewrite opp_spec.
    destruct (Prim2SF (Z.ldexp (of_uint63 (Uint63.of_Z (Z.pos m))) e));
      [discriminate | discriminate | congruence | discriminate].
Qed.

Lemma compared_not_nan (x : float) :
  compared x <> None <-> Prim2SF x <> S754_nan.
Proof.
  unfold compared, compared_sf.
  destruct (Prim2SF x); split; intros H; try discriminate; congruence.
Qed.

Lemma float_of_ratio_compared (s : bool) (n d : Z) :
  compared (float_of_ratio s n d) <> None.
Proof.
  apply compared_not_nan. unfold float_of_ratio.
  destruct (n =? 0); [destruct s; vm_compute; discriminate|].
  apply SF2Prim_not_nan, binary_normalize_not_nan.
Qed.

(** Rounding a number gives a number. *)
Lemma round_float_compared (x : float) (ndigits : Z) :
  compared x <> None -> compared (round_float x ndigits) <> None.
Proof.
  intros Hx. unfold round_float.
  destruct (Prim2SF x) eqn:Hsf; try exact Hx.
  apply float_of_ratio_compared.
Qed.

(** A float within a closed range is a number. *)
Lemma between_compared (lo hi x : float) :
  Geo.between lo hi x = true -> compared x <> None.
Proof.
  unfold Geo.between. intros H. apply andb_true_iff in H as [H _].
  rewrite leb_spec in H. apply compared_not_nan. intros Hnan.
  rewrite Hnan in H. unfold SFleb, SFcompare in H.
  destruct (Prim2SF lo); discriminate.
Qed.

(** ** KML reader: duplicates *)

Lemma tuple_eqb_sym (a b : float * float) :
  Kml.tuple_eqb a b = Kml.tuple_eqb b a.
Proof.
  unfold Kml.tuple_eqb. now rewrite (eqb_sym (fst a)), (eqb_sym (snd a)).
Qed.

Lemma tuple_eqb_trans (a b c : float * float) :
  Kml.tuple_eqb a b = true -> Kml.tuple_eqb b c = true ->
  Kml.tuple_eqb a c = true.
Proof.
  unfold Kml.tuple_eqb. intros Hab Hbc.
  apply andb_true_iff in Hab as [H1 H2]. apply andb_true_iff in Hbc as [H3 H4].
  apply andb_true_iff. split; eapply eqb_trans; eassumption.
Qed.

Lemma same_key_sym (p q : Geo.point) : Kml.same_key p q = Kml.same_key q p.
Proof. apply tuple_eqb_sym. Qed.

Lemma same_key_trans (p q r : Geo.point) :
  Kml.same_key p q = true -> Kml.same_key q r = true -> Kml.same_key p r = true.
Proof. apply tuple_eqb_trans. Qed.

(** A point within the ranges equals itself after rounding. *)
Lemma same_key_refl (p : Geo.point) :
  Kml.in_range p = true -> Kml.same_key p p = true.
Proof.
  unfold Kml.in_range, Kml.same_key, Kml.tuple_eqb, Kml.coord_tuple.
  intros H. apply andb_true_iff in H as [Hlat Hlon]. cbn [fst snd].
  apply andb_true_iff. split; apply eqb_refl_compared, round_float_compared.
  - now apply between_compared with (-90)%float 90%float.
  - now apply between_compared with (-180)%float 180%float.
Qed.

Lemma filter_none {A} (f : A -> bool) (l : list A) :
  (forall y, In y l -> f y = false) -> filter f l = [].
Proof.
  induction l as [|x l IH]; intros H; [reflexivity|].
  cbn [filter]. rewrite (H x) by now left.
  apply IH. intros y Hy. apply H. now right.
Qed.

Lemma remove_duplicates_first_occurrences (seen : list (float * float))
  (earlier coords : list Geo.point) :
  Kml.seen_covers seen earlier ->
  Kml.remove_duplicates seen coords = Kml.first_occurrences earlier coords.
Proof.
  revert seen earlier. induction coords as [|c rest IH]; intros seen earlier Hcov;
    [reflexivity|].
  cbn [Kml.remove_duplicates Kml.first_occurrences].
  unfold Kml.same_key at 1.
  rewrite (Hcov (Kml.coord_tuple c)).
  destruct (existsb (fun e => Kml.tuple_eqb (Kml.coord_tuple c) (Kml.coord_tuple e))
              earlier) eqn:Hseen.
  - apply IH. intros k. cbn [existsb]. rewrite (Hcov k).
    destruct (Kml.tuple_eqb k (Kml.coord_tuple c)) eqn:Hk; [|reflexivity].
    cbn [orb]. rewrite <- (Hcov k).
    rewrite <- (Hcov (Kml.coord_tuple c)) in Hseen.
    apply existsb_exists in Hseen as (s & Hs & Hcs).
    apply existsb_exists. exists s. split; [exact Hs|].
    now apply tuple_eqb_trans with (Kml.coord_tuple c).
  - f_equal. apply IH. intros k. cbn [existsb]. now rewrite (Hcov k).
Qed.

Lemma remove_duplicates_unseen (seen : list (float * float))
  (coords : list Geo.point) (q : Geo.point) :
  In q (Kml.remove_duplicates seen coords) ->
  existsb (Kml.tuple_eqb (Kml.coord_tuple q)) seen = false.
Proof.
  revert seen. induction coords as [|c rest IH]; intros seen Hq; [contradiction|].
  cbn [Kml.remove_duplicates] in Hq.
  destruct (existsb (Kml.tuple_eqb (Kml.coord_tuple c)) seen) eqn:Hc.
  - now apply IH.
  - destruct Hq as [<- | Hq]; [exact Hc|].
    apply IH in Hq. cbn [existsb] in Hq.
    now apply orb_false_iff in Hq as [_ Hq].
Qed.

Lemma remove_duplicates_distinct (seen : list (float * float))
  (coords : list Geo.point) :
  Kml.distinct_keys (Kml.remove_duplicates seen coords).
Proof.
  revert seen. induction coords as [|c rest IH]; intros seen; [exact I|].
  cbn [Kml.remove_duplicates].
  destruct (existsb (Kml.tuple_eqb (Kml.coord_tuple c)) seen); [apply IH|].
  split; [|apply IH].
  intros q Hq. apply remove_duplicates_unseen in Hq. cbn [existsb] in Hq.
  now apply orb_false_iff in Hq as [Hq _].
Qed.

Lemma remove_duplicates_subset (seen : list (float * float))
  (coords : list Geo.point) (q : Geo.point) :
  In q (Kml.remove_duplicates seen coords) -> In q coords.
Proof.
  revert seen. induction coords as [|c rest IH]; intros seen Hq; [contradiction|].
  cbn [Kml.remove_duplicates] in Hq.
  destruct (existsb (Kml.tuple_eqb (Kml.coord_tuple c)) seen).
  - right. now apply IH with seen.
  - destruct Hq as [<- | Hq]; [now left | right; now apply IH with (Kml.coord_tuple c :: seen)].
Qed.

(** Every point met is kept, or equals after rounding a point that is kept
    or a key that was already seen. *)
Lemma remove_duplicates_represents (seen : list (float * float))
  (coords : list Geo.point) (p : Geo.point) :
  In p coords -> Kml.same_key p p = true ->
  (exists q, In q (Kml.remove_duplicates seen coords) /\ Kml.same_key p q = true)
  \/ existsb (Kml.tuple_eqb (Kml.coord_tuple p)) seen = true.
Proof.
  revert seen. induction coords as [|c rest IH]; intros seen Hp Hrefl;
    [contradiction|].
  cbn [Kml.remove_duplicates].
  destruct (existsb (Kml.tuple_eqb (Kml.coord_tuple c)) seen) eqn:Hc.
  - destruct Hp as [<- | Hp]; [now right | now apply IH].
  - destruct Hp as [<- | Hp].
    + left. exists c. split; [now left | exact Hrefl].
    + destruct (IH (Kml.coord_tuple c :: seen) Hp Hrefl) as [(q & Hq & Hpq) | Hs].
      * left. exists q. split; [now right | exact Hpq].
      * cbn [existsb] in Hs. apply orb_true_iff in Hs as [Hs | Hs].
        -- left. exists c. split; [now left | exact Hs].
        -- now right.
Qed.

(** Among points of distinct keys, at most one equals [p] after
    rounding. *)
Lemma distinct_keys_count (l : list Geo.point) (p : Geo.point) :
  Kml.distinct_keys l ->
  (exists q, In q l /\ Kml.same_key p q = true) ->
  length (filter (Kml.same_key p) l) = 1%nat.
Proof.
  induction l as [|x l IH]; intros Hd (q & Hq & Hpq); [contradiction|].
  destruct Hd as [Hx Hd]. cbn [filter].
  destruct (Kml.same_key p x) eqn:Hpx.
  - cbn [length]. f_equal.
    assert (Hnone : filter (Kml.same_key p) l = []).
    { apply filter_none. intros y Hy.
      destruct (Kml.same_key p y) eqn:Hpy; [|reflexivity].
      rewrite <- (Hx y Hy). symmetry.
      apply same_key_trans with p; [now rewrite same_key_sym | exact Hpx]. }
    now rewrite Hnone.
  - destruct Hq as [-> | Hq]; [congruence|].
    apply IH; [exact Hd | exists q; now split].
Qed.

Section Reader.
Variable float_of_string : string -> option float.
Variable float_repr : float -> string.
Variable ET_fromstring : string -> result Xml.Element.

Let parse_kml := Kml.parse_kml float_of_string float_repr ET_fromstring.
Let extract := Kml.extract float_of_string float_repr.
Let read_token := Kml.read_token float_of_string float_repr.
Let read_element := Kml.read_element float_of_string float_repr.

Lemma read_token_in_range (st : list Geo.point * list diagnostic) (tok : string) :
  Kml.all_in_range st -> Kml.all_in_range (read_token st tok).
Proof.
  unfold Kml.all_in_range, read_token, Kml.read_token.
  destruct st as [coords log]. intros Hst.
  destruct (2 <=? length (Str.split_on "," tok))%nat; [|exact Hst].
  destruct (float_of_string _) as [lon|]; [|exact Hst].
  destruct (float_of_string _) as [lat|]; [|exact Hst].
  destruct (Geo.lat_ok lat && Geo.lon_ok lon) eqn:Hok; [|exact Hst].
  cbn [fst] in *. apply Forall_app. split; [exact Hst|].
  constructor; [exact Hok | constructor].
Qed.

Lemma fold_in_range {E} (f : list Geo.point * list diagnostic -> E ->
                             list Geo.point * list diagnostic)
  (l : list E) (st : list Geo.point * list diagnostic) :
  (forall s e, Kml.all_in_range s -> Kml.all_in_range (f s e)) ->
  Kml.all_in_range st -> Kml.all_in_range (fold_left f l st).
Proof.
  intros Hf. revert st. induction l as [|e l IH]; intros st Hst; [exact Hst|].
  cbn [fold_left]. apply IH, Hf, Hst.
Qed.

Lemma read_element_in_range (st : list Geo.point * list diagnostic)
  (elem : Xml.Element) :
  Kml.all_in_range st -> Kml.all_in_range (read_element st elem).
Proof.
  intros Hst. unfold read_element, Kml.read_element.
  destruct (Xml.text elem) as [t|]; [|exact Hst].
  destruct (Str.nonempty t); [|exact Hst].
  apply fold_in_range; [apply read_token_in_range | exact Hst].
Qed.

Lemma probe_in_range (root : Xml.Element)
  (candidates : list (list (string * string)))
  (st : list Geo.point * list diagnostic) :
  Kml.all_in_range st ->
  Kml.all_in_range (Kml.probe float_of_string float_repr root candidates st).
Proof.
  revert st. induction candidates as [|ns rest IH]; intros st Hst; [exact Hst|].
  cbn [Kml.probe].
  assert (Hst' : Kml.all_in_range
                   (fold_left read_element (Kml.coord_elements root ns) st))
    by (apply fold_in_range; [apply read_element_in_range | exact Hst]).
  fold read_element.
  destruct (fst (fold_left read_element (Kml.coord_elements root ns) st));
    [now apply IH | exact Hst'].
Qed.

(** Every point gathered from a document is within the ranges. *)
Lemma extract_in_range (root : Xml.Element) (p : Geo.point) :
  In p (fst (extract root)) -> Kml.in_range p = true.
Proof.
  intros Hp.
  assert (H : Kml.all_in_range (extract root))
    by (apply probe_in_range; constructor).
  unfold Kml.all_in_range in H. rewrite Forall_forall in H. now apply H.
Qed.

Lemma parse_kml_of_root (file : string) (root : Xml.Element) :
  Kml.read_root ET_fromstring file = Ok root ->
  parse_kml file
  = (Kml.remove_duplicates [] (fst (extract root)), snd (extract root)).
Proof.
  intros Hroot. unfold parse_kml, Kml.parse_kml. rewrite Hroot.
  fold extract. now destruct (extract root).
Qed.

(** C9. No two points [parse_kml] returns are identical after rounding to
    6 decimal places; the points returned are the first occurrences, in
    order, of the points gathered from the document; and every point
    gathered is represented by exactly one point of the output. *)
Theorem parse_kml_removes_duplicates (file : string) :
  Kml.distinct_keys (fst (parse_kml file))
  /\ (forall root, Kml.read_root ET_fromstring file = Ok root ->
        fst (parse_kml file) = Kml.first_occurrences [] (fst (extract root))
        /\ (forall p, In p (fst (extract root)) ->
              length (filter (Kml.same_key p) (fst (parse_kml file))) = 1%nat)).
Proof.
  split.
  - unfold parse_kml, Kml.parse_kml.
    destruct (Kml.read_root ET_fromstring file) as [root | e]; [|exact I].
    destruct (Kml.extract float_of_string float_repr root) as [coords log].
    apply remove_duplicates_distinct.
  - intros root Hroot. rewrite (parse_kml_of_root file root Hroot). cbn [fst].
    split.
    + apply remove_duplicates_first_occurrences. intros k. reflexivity.
    + intros p Hp. apply distinct_keys_count; [apply remove_duplicates_distinct|].
      pose proof (same_key_refl p (extract_in_range root p Hp)) as Hrefl.
      destruct (remove_duplicates_represents [] _ p Hp Hrefl) as [Hq | Hs];
        [exact Hq | discriminate].
Qed.

End Reader.

Lemma parse_kml_removes_duplicates_witness :
  exists root,
    Kml.read_root Ref.ET_fromstring Samples.repeated_doc = Ok root
    /\ length (fst (Kml.extract Ref.float_of_string Ref.float_repr root)) = 4%nat
    /\ fst (Samples.parse Samples.repeated_doc)
       = [(24.6, 72.5); (24.601, 72.501)]%float
    /\ (forall p,
          In p (fst (Kml.extract Ref.float_of_string Ref.float_repr root)) ->
          length (filter (Kml.same_key p) (fst (Samples.parse Samples.repeated_doc)))
          = 1%nat).
Proof.
  destruct (Kml.read_root Ref.ET_fromstring Samples.repeated_doc)
    as [root | e] eqn:Hroot; [| vm_compute in Hroot; discriminate].
  exists root.
  destruct (parse_kml_removes_duplicates Ref.float_of_string Ref.float_repr
              Ref.ET_fromstring Samples.repeated_doc) as [_ Hfirst].
  destruct (Hfirst root Hroot) as [_ Hone].
  split; [reflexivity|]. split; [|split; [|exact Hone]].
  - vm_compute in Hroot. injection Hroot as <-. vm_compute. reflexivity.
  - vm_compute. reflexivity.
Defined.


(** ** Splitting strings *)

Lemma append_assoc (a b c : string) : (a +++ b) +++ c = a +++ b +++ c.
Proof. induction a as [|x a IH]; [reflexivity | cbn; now rewrite IH]. Qed.

Lemma append_nil_r (a : string) : a +++ EmptyString = a.
Proof. induction a as [|x a IH]; [reflexivity | cbn; now rewrite IH]. Qed.

(** A part without the separator, then a separator: the part is cut
    off. *)
Lemma split_on_part (sep : ascii) (a rest : string) :
  (forall c, In c (list_ascii_of_string a) -> Ascii.eqb c sep = false) ->
  Str.split_on sep (a +++ String sep rest) = a :: Str.split_on sep rest.
Proof.
  induction a as [|x a IH]; intros Ha.
  - cbn. now rewrite Ascii.eqb_refl.
  - cbn [String.append Str.split_on]. rewrite (Ha x) by now left.
    rewrite IH by (intros c Hc; apply Ha; now right). reflexivity.
Qed.

Lemma split_on_last (sep : ascii) (a : string) :
  (forall c, In c (list_ascii_of_string a) -> Ascii.eqb c sep = false) ->
  Str.split_on sep a = [a].
Proof.
  induction a as [|x a IH]; intros Ha; [reflexivity|].
  cbn [Str.split_on]. rewrite (Ha x) by now left.
  rewrite IH by (intros c Hc; apply Ha; now right). reflexivity.
Qed.

(** White space outside ASCII starts with a byte above 127. *)
Lemma wide_space_width_ascii (c : ascii) (s : string) :
  Str.is_ascii c = true -> Str.wide_space_width (String c s) = 0%nat.
Proof.
  unfold Str.is_ascii, Str.wide_space_width. intros Hc. apply Nat.ltb_lt in Hc.
  destruct s as [|d s]; [reflexivity|].
  destruct (Nat.eqb_spec (nat_of_ascii c) 194); [lia|].
  destruct s as [|e s]; [reflexivity|].
  destruct (Nat.eqb_spec (nat_of_ascii c) 225); [lia|].
  destruct (Nat.eqb_spec (nat_of_ascii c) 226); [lia|].
  destruct (Nat.eqb_spec (nat_of_ascii c) 227); [lia|].
  reflexivity.
Qed.

Lemma space_width_space (c : ascii) (s : string) :
  Str.is_space c = true -> Str.space_width (String c s) = 1%nat.
Proof. unfold Str.space_width. now intros ->. Qed.

Lemma space_width_solid (c : ascii) (s : string) :
  Str.is_ascii c = true -> Str.is_space c = false ->
  Str.space_width (String c s) = 0%nat.
Proof.
  intros Ha Hc. unfold Str.space_width. rewrite Hc.
  now apply wide_space_width_ascii.
Qed.

Lemma split_space (c : ascii) (s : string) :
  Str.is_space c = true -> Str.split (String c s) = Str.split s.
Proof.
  intros Hc. unfold Str.split. cbn [Str.split_from].
  now rewrite (space_width_space c s Hc).
Qed.

(** A character of a word, before white space or the end. *)
Lemma split_last_of_word (c : ascii) (s : string) :
  Str.is_ascii c = true -> Str.is_space c = false -> Str.head_blank s = true ->
  Str.split (String c s) = String c EmptyString :: Str.split s.
Proof.
  intros Ha Hc Hs. unfold Str.split. cbn [Str.split_from].
  rewrite (space_width_solid c s Ha Hc).
  destruct s as [|d s]; [reflexivity|].
  cbn [Str.head_blank] in Hs. now rewrite (space_width_space d s Hs).
Qed.

(** A character of a word, before another one. *)
Lemma split_inside_word (c d : ascii) (s : string) :
  Str.is_ascii c = true -> Str.is_space c = false ->
  Str.is_ascii d = true -> Str.is_space d = false ->
  Str.split (String c (String d s))
  = match Str.split (String d s) with
    | t :: ts => String c t :: ts
    | [] => [String c EmptyString]
    end.
Proof.
  intros Ha Hc Hb Hd. unfold Str.split.
  change (Str.split_from 0 (String c (String d s)))
    with (match Str.space_width (String c (String d s)) with
          | S k => Str.split_from k (String d s)
          | O =>
              match Str.space_width (String d s) with
              | O =>
                  match Str.split_from 0 (String d s) with
                  | t :: ts => String c t :: ts
                  | [] => [String c EmptyString]
                  end
              | S _ => String c EmptyString :: Str.split_from 0 (String d s)
              end
          end).
  now rewrite (space_width_solid c _ Ha Hc), (space_width_solid d s Hb Hd).
Qed.

Lemma split_blank_prefix (w s : string) :
  Str.blank w = true -> Str.split (w +++ s) = Str.split s.
Proof.
  induction w as [|c w IH]; intros Hw; [reflexivity|].
  cbn [Str.blank] in Hw. apply andb_true_iff in Hw as [Hc Hw].
  cbn [String.append]. rewrite (split_space c _ Hc). now apply IH.
Qed.

Lemma split_blank (w : string) : Str.blank w = true -> Str.split w = [].
Proof.
  intros Hw. rewrite <- (append_nil_r w). now rewrite split_blank_prefix.
Qed.

Lemma solid_append (a b : string) :
  Str.solid (a +++ b) = Str.solid a && Str.solid b.
Proof.
  induction a as [|x a IH]; [reflexivity|].
  cbn [String.append Str.solid]. rewrite IH. now rewrite !andb_assoc.
Qed.

Lemma text_char_ascii (c : ascii) :
  Xml.is_text_char c = true -> Str.is_ascii c = true.
Proof.
  unfold Xml.is_text_char, Xml.is_printable, Str.is_ascii. intros H.
  apply andb_true_iff in H as [H _]. apply andb_true_iff in H as [H _].
  apply andb_true_iff in H as [H _]. apply Nat.ltb_lt.
  apply orb_true_iff in H as [H | H].
  - apply Nat.eqb_eq in H. lia.
  - apply andb_true_iff in H as [_ H]. apply Nat.leb_le in H. lia.
Qed.

Lemma plain_chars (s : string) (c : ascii) :
  Kml.plain s = true -> In c (list_ascii_of_string s) ->
  Str.is_space c = false /\ Ascii.eqb c "," = false.
Proof.
  induction s as [|x s IH]; intros Hp Hc; [contradiction|].
  cbn [Kml.plain] in Hp. apply andb_true_iff in Hp as [Hx Hs].
  apply andb_true_iff in Hx as [Hx Hx2]. apply andb_true_iff in Hx as [_ Hx1].
  destruct Hc as [<- | Hc]; [|now apply IH].
  split; now apply negb_true_iff.
Qed.

Lemma plain_append (a b : string) :
  Kml.plain (a +++ b) = Kml.plain a && Kml.plain b.
Proof.
  induction a as [|x a IH]; [reflexivity|].
  cbn [String.append Kml.plain]. rewrite IH. now rewrite !andb_assoc.
Qed.

(** The three parts of a written triple. *)
Lemma split_on_triple (a b : string) :
  Kml.plain a = true -> Kml.plain b = true ->
  Str.split_on "," (a +++ "," +++ b +++ ",0") = [a; b; "0"%string].
Proof.
  intros Ha Hb.
  change (a +++ "," +++ b +++ ",0")
    with (a +++ String "," (b +++ String "," "0")).
  rewrite split_on_part by (intros c Hc; now apply (plain_chars a)).
  rewrite split_on_part by (intros c Hc; now apply (plain_chars b)).
  reflexivity.
Qed.

Lemma plain_solid (s : string) : Kml.plain s = true -> Str.solid s = true.
Proof.
  induction s as [|c s IH]; intros Hp; [reflexivity|].
  cbn [Kml.plain] in Hp. apply andb_true_iff in Hp as [Hc Hp].
  apply andb_true_iff in Hc as [Hc _]. apply andb_true_iff in Hc as [Ht Hc].
  cbn [Str.solid]. now rewrite (text_char_ascii c Ht), Hc, IH.
Qed.

Lemma plain_plain_text (s : string) : Kml.plain s = true -> Xml.plain_text s = true.
Proof.
  induction s as [|c s IH]; intros Hp; [reflexivity|].
  cbn [Kml.plain] in Hp. apply andb_true_iff in Hp as [Hc Hp].
  apply andb_true_iff in Hc as [Hc _]. apply andb_true_iff in Hc as [Ht _].
  cbn [Xml.plain_text]. now rewrite Ht, IH.
Qed.

(** A word followed by white space or by nothing is the first token. *)
Lemma split_word (t s : string) :
  Str.nonempty t = true -> Str.solid t = true -> Str.head_blank s = true ->
  Str.split (t +++ s) = t :: Str.split s.
Proof.
  intros Hne Hp Hs. induction t as [|c t IH]; [discriminate|].
  cbn [Str.solid] in Hp. apply andb_true_iff in Hp as [Hc Hp].
  apply andb_true_iff in Hc as [Ha Hc]. apply negb_true_iff in Hc.
  cbn [String.append].
  destruct t as [|d t].
  - cbn [String.append]. now apply split_last_of_word.
  - specialize (IH eq_refl Hp).
    cbn [Str.solid] in Hp. apply andb_true_iff in Hp as [Hd _].
    apply andb_true_iff in Hd as [Hb Hd]. apply negb_true_iff in Hd.
    cbn [String.append] in *.
    rewrite (split_inside_word c d _ Ha Hc Hb Hd), IH. reflexivity.
Qed.

Lemma split_single (t : string) :
  Str.nonempty t = true -> Str.solid t = true -> Str.split t = [t].
Proof.
  intros Hne Hs. rewrite <- (append_nil_r t) at 1.
  now rewrite split_word.
Qed.

(** White space at the start does not change the tokens. *)
Lemma split_lstrip_from (k : nat) (s : string) :
  Str.split_from 0 (Str.lstrip_from k s) = Str.split_from k s.
Proof.
  revert k. induction s as [|c s IH]; intros k; [now destruct k|].
  destruct k as [|k]; [|apply IH].
  cbn [Str.lstrip_from Str.split_from].
  destruct (Str.space_width (String c s)) as [|w] eqn:Hw; [|apply IH].
  cbn [Str.split_from]. now rewrite Hw.
Qed.

Lemma split_lstrip (s : string) : Str.split (Str.lstrip s) = Str.split s.
Proof. apply split_lstrip_from. Qed.

Lemma lstrip_ascii (c : ascii) (s : string) :
  Str.is_ascii c = true ->
  Str.lstrip (String c s) = if Str.is_space c then Str.lstrip s else String c s.
Proof.
  intros Ha. unfold Str.lstrip. cbn [Str.lstrip_from].
  destruct (Str.is_space c) eqn:Hc.
  - now rewrite (space_width_space c s Hc).
  - now rewrite (space_width_solid c s Ha Hc).
Qed.

Lemma lstrip_ascii_only (s : string) :
  Str.ascii_only s = true -> Str.ascii_only (Str.lstrip s) = true.
Proof.
  induction s as [|c s IH]; intros Hs; [reflexivity|].
  cbn [Str.ascii_only] in Hs. apply andb_true_iff in Hs as [Hc Hs].
  rewrite (lstrip_ascii c s Hc). destruct (Str.is_space c); [now apply IH|].
  cbn [Str.ascii_only]. now rewrite Hc, Hs.
Qed.

Lemma rstrip_ascii_only (s : string) :
  Str.ascii_only s = true -> Str.ascii_only (Str.rstrip s) = true.
Proof.
  induction s as [|c s IH]; intros Hs; [reflexivity|].
  cbn [Str.ascii_only] in Hs. apply andb_true_iff in Hs as [Hc Hs].
  cbn [Str.rstrip]. destruct (Str.nonempty (Str.lstrip (String c s))); [|reflexivity].
  cbn [Str.ascii_only]. now rewrite Hc, IH.
Qed.

(** What is left of an ASCII string starts as the string does, unless
    nothing is left. *)
Lemma rstrip_head (d : ascii) (s : string) :
  Str.rstrip (String d s) = EmptyString
  \/ exists r, Str.rstrip (String d s) = String d r.
Proof.
  cbn [Str.rstrip]. destruct (Str.nonempty (Str.lstrip (String d s))); eauto.
Qed.

(** White space at the end of an ASCII string does not change the
    tokens. *)
Lemma split_rstrip (s : string) :
  Str.ascii_only s = true -> Str.split (Str.rstrip s) = Str.split s.
Proof.
  induction s as [|c s IH]; intros Hs; [reflexivity|].
  cbn [Str.ascii_only] in Hs. apply andb_true_iff in Hs as [Hc Hs].
  specialize (IH Hs).
  cbn [Str.rstrip].
  destruct (Str.lstrip (String c s)) as [|x l] eqn:Hl; cbn [Str.nonempty].
  - rewrite <- (split_lstrip (String c s)), Hl. reflexivity.
  - destruct (Str.is_space c) eqn:Hsp.
    + now rewrite !(split_space c _ Hsp).
    + destruct s as [|d s]; [reflexivity|].
      cbn [Str.ascii_only] in Hs. apply andb_true_iff in Hs as [Hd Hs].
      destruct (Str.is_space d) eqn:Hdsp.
      * rewrite (split_last_of_word c (String d s) Hc Hsp Hdsp).
        destruct (rstrip_head d s) as [Hr | [r Hr]]; rewrite Hr in *.
        -- rewrite <- IH. now rewrite (split_last_of_word c EmptyString Hc Hsp eq_refl).
        -- rewrite (split_last_of_word c (String d r) Hc Hsp Hdsp). now rewrite IH.
      * assert (Hr : exists r, Str.rstrip (String d s) = String d r).
        { cbn [Str.rstrip]. rewrite (lstrip_ascii d s Hd), Hdsp. cbn. eauto. }
        destruct Hr as [r Hr]. rewrite Hr in *.
        rewrite !(split_inside_word c d _ Hc Hsp Hd Hdsp). now rewrite IH.
Qed.

(** Stripping an ASCII text does not change its tokens. *)
Lemma split_strip (s : string) :
  Str.ascii_only s = true -> Str.split (Str.strip s) = Str.split s.
Proof.
  intros Hs. unfold Str.strip.
  rewrite split_rstrip by now apply lstrip_ascii_only.
  apply split_lstrip.
Qed.

Lemma ascii_only_append (a b : string) :
  Str.ascii_only (a +++ b) = Str.ascii_only a && Str.ascii_only b.
Proof.
  induction a as [|x a IH]; [reflexivity|].
  cbn [String.append Str.ascii_only]. rewrite IH. now rewrite andb_assoc.
Qed.

Lemma solid_ascii_only (s : string) : Str.solid s = true -> Str.ascii_only s = true.
Proof.
  induction s as [|c s IH]; intros Hs; [reflexivity|].
  cbn [Str.solid] in Hs. apply andb_true_iff in Hs as [Hc Hs].
  apply andb_true_iff in Hc as [Hc _].
  cbn [Str.ascii_only]. now rewrite Hc, IH.
Qed.

Lemma plain_text_append (a b : string) :
  Xml.plain_text (a +++ b) = Xml.plain_text a && Xml.plain_text b.
Proof.
  induction a as [|x a IH]; [reflexivity|].
  cbn [String.append Xml.plain_text]. rewrite IH. now rewrite andb_assoc.
Qed.

Lemma plain_text_ascii_only (s : string) :
  Xml.plain_text s = true -> Str.ascii_only s = true.
Proof.
  induction s as [|c s IH]; intros Hs; [reflexivity|].
  cbn [Xml.plain_text] in Hs. apply andb_true_iff in Hs as [Hc Hs].
  cbn [Str.ascii_only]. now rewrite (text_char_ascii c Hc), IH.
Qed.

(** ** KML: writing and reading back *)

Section RoundTrip.
Variable float_of_string : string -> option float.
Variable float_repr : float -> string.
Variable ET_fromstring : string -> result Xml.Element.

Let read_token := Kml.read_token float_of_string float_repr.
Let read_element := Kml.read_element float_of_string float_repr.
Let triple := Kml.triple float_repr.
Let round_trips := Kml.round_trips float_of_string float_repr.
Let path_line := Kml.path_line float_repr.

Lemma triple_solid (wp : Kml.waypoint) :
  round_trips wp ->
  Str.nonempty (triple wp) = true /\ Str.solid (triple wp) = true.
Proof.
  intros (_ & Hlat & Hlon & _). unfold triple, Kml.triple.
  apply andb_true_iff in Hlat as [_ Hlat]. apply andb_true_iff in Hlon as [Hne Hlon].
  split.
  - destruct (float_repr (Kml.wp_lon wp)); [discriminate | reflexivity].
  - rewrite !solid_append, (plain_solid _ Hlat), (plain_solid _ Hlon). reflexivity.
Qed.

Lemma read_token_triple (wp : Kml.waypoint) (coords : list Geo.point)
  (log : list diagnostic) :
  round_trips wp ->
  read_token (coords, log) (triple wp) = (coords ++ [Kml.point_of wp], log).
Proof.
  intros (Hrange & Hlat & Hlon & Hflat & Hflon).
  apply andb_true_iff in Hlat as [_ Hlat]. apply andb_true_iff in Hlon as [_ Hlon].
  unfold read_token, Kml.read_token, triple, Kml.triple.
  rewrite (split_on_triple _ _ Hlon Hlat).
  cbn [length Nat.leb nth]. rewrite Hflon, Hflat.
  unfold Kml.in_range_wp in Hrange. rewrite Hrange. reflexivity.
Qed.

Lemma fold_read_tokens (wps : list Kml.waypoint) (coords : list Geo.point)
  (log : list diagnostic) :
  (forall wp, In wp wps -> round_trips wp) ->
  fold_left read_token (map triple wps) (coords, log)
  = (coords ++ map Kml.point_of wps, log).
Proof.
  revert coords. induction wps as [|wp wps IH]; intros coords Hrt.
  - cbn. now rewrite app_nil_r.
  - cbn [map fold_left]. rewrite read_token_triple by (apply Hrt; now left).
    rewrite IH by (intros w Hw; apply Hrt; now right).
    now rewrite <- app_assoc.
Qed.

Lemma path_line_triple (wp : Kml.waypoint) :
  path_line wp = "          " +++ triple wp +++ Str.nl.
Proof.
  unfold path_line, Kml.path_line, triple, Kml.triple.
  now rewrite !append_assoc.
Qed.

(** The tokens of the lines of a flight path are the triples. *)
Lemma split_path_lines (wps : list Kml.waypoint) (tail : string) :
  (forall wp, In wp wps -> round_trips wp) ->
  Str.blank tail = true ->
  Str.split (Str.concat_all (map path_line wps) +++ tail) = map triple wps.
Proof.
  intros Hrt Htail. induction wps as [|wp wps IH].
  - cbn. now apply split_blank.
  - cbn [map Str.concat_all fold_right]. fold (Str.concat_all (map path_line wps)).
    rewrite path_line_triple, !append_assoc.
    rewrite split_blank_prefix by reflexivity.
    destruct (triple_solid wp) as [Hne Hs]; [apply Hrt; now left|].
    rewrite split_word by (try assumption; reflexivity).
    change (Str.nl +++ Str.concat_all (map path_line wps) +++ tail)
      with (String (ascii_of_nat 10) (Str.concat_all (map path_line wps) +++ tail)).
    cbn [Str.split].
    change (Str.is_space (ascii_of_nat 10)) with true. cbn iota.
    f_equal. apply IH. intros w Hw. apply Hrt. now right.
Qed.

Lemma read_element_point (wp : Kml.waypoint) (coords : list Geo.point)
  (log : list diagnostic) :
  round_trips wp ->
  read_element (coords, log) (Kml.point_coordinates float_repr wp)
  = (coords ++ [Kml.point_of wp], log).
Proof.
  intros Hrt. destruct (triple_solid wp Hrt) as [Hne Hs].
  unfold read_element, Kml.read_element, Kml.point_coordinates.
  cbn [Xml.text]. fold (triple wp). rewrite Hne.
  rewrite split_strip by now apply solid_ascii_only.
  rewrite (split_single _ Hne Hs).
  cbn [fold_left]. now apply read_token_triple.
Qed.

Lemma triple_plain_text (wp : Kml.waypoint) :
  round_trips wp -> Xml.plain_text (triple wp) = true.
Proof.
  intros (_ & Hlat & Hlon & _). unfold triple, Kml.triple.
  apply andb_true_iff in Hlat as [_ Hlat]. apply andb_true_iff in Hlon as [_ Hlon].
  rewrite !plain_text_append, (plain_plain_text _ Hlat), (plain_plain_text _ Hlon).
  reflexivity.
Qed.

Lemma path_lines_plain_text (wps : list Kml.waypoint) :
  (forall wp, In wp wps -> round_trips wp) ->
  Xml.plain_text (Str.concat_all (map path_line wps)) = true.
Proof.
  induction wps as [|wp wps IH]; intros Hrt; [reflexivity|].
  cbn [map Str.concat_all fold_right]. fold (Str.concat_all (map path_line wps)).
  rewrite plain_text_append, path_line_triple, !plain_text_append.
  rewrite triple_plain_text by (apply Hrt; now left).
  rewrite IH by (intros w Hw; apply Hrt; now right). reflexivity.
Qed.

Lemma path_points_round_trip (wps : list Kml.waypoint) :
  (forall wp, In wp wps -> round_trips wp) ->
  forall wp, In wp (Kml.path_points wps) -> round_trips wp.
Proof.
  intros Hrt wp Hwp. unfold Kml.path_points in Hwp.
  apply in_app_or in Hwp as [Hwp | Hwp]; [now apply Hrt|].
  destruct (2 <? length wps)%nat; [|contradiction].
  apply Hrt. destruct wps as [|w0 ws]; [contradiction|].
  destruct Hwp as [<- | []]. now left.
Qed.

Lemma path_text_plain_text (wps : list Kml.waypoint) :
  (forall wp, In wp wps -> round_trips wp) ->
  Xml.plain_text (Kml.path_text float_repr wps) = true.
Proof.
  intros Hrt. unfold Kml.path_text. rewrite !plain_text_append.
  fold path_line.
  rewrite path_lines_plain_text by now apply path_points_round_trip.
  reflexivity.
Qed.

Lemma read_element_path (wps : list Kml.waypoint) (coords : list Geo.point)
  (log : list diagnostic) :
  (forall wp, In wp wps -> round_trips wp) ->
  read_element (coords, log) (Kml.path_coordinates float_repr wps)
  = (coords ++ map Kml.point_of (Kml.path_points wps), log).
Proof.
  intros Hrt.
  pose proof (path_points_round_trip wps Hrt) as Hrt'.
  pose proof (plain_text_ascii_only _ (path_text_plain_text wps Hrt)) as Hascii.
  unfold read_element, Kml.read_element, Kml.path_coordinates.
  cbn [Xml.text]. rewrite (split_strip _ Hascii).
  unfold Kml.path_text.
  change (Str.nonempty (Str.nl +++ _)) with true. cbn iota.
  rewrite <- append_assoc.
  rewrite split_blank_prefix by reflexivity.
  fold path_line.
  rewrite split_path_lines by (try assumption; reflexivity).
  now apply fold_read_tokens.
Qed.

End RoundTrip.

(** ** The tree of a written document *)

Lemma tagged_app (t : string) (a b : list Xml.Element) :
  Xml.tagged t (a ++ b) = Xml.tagged t a ++ Xml.tagged t b.
Proof. apply filter_app. Qed.

Section WrittenTree.
Variable float_of_string : string -> option float.
Variable float_repr : float -> string.
Variable ET_fromstring : string -> result Xml.Element.

Let point_coordinates := Kml.point_coordinates float_repr.
Let point_element := Kml.point_element float_repr.
Let point_trees := Kml.point_trees float_repr.
Let path_coordinates := Kml.path_coordinates float_repr.
Let path_tree := Kml.path_tree float_repr.
Let manual_tree := Kml.manual_tree float_repr.
Let round_trips := Kml.round_trips float_of_string float_repr.
Let read_element := Kml.read_element float_of_string float_repr.
Let extract := Kml.extract float_of_string float_repr.
Let parse_kml := Kml.parse_kml float_of_string float_repr ET_fromstring.

Lemma tagged_point_trees_coordinates (i : N) (wps : list Kml.waypoint) :
  Xml.tagged (Kml.q22 "coordinates") (flat_map Xml.iter (point_trees i wps))
  = map point_coordinates wps.
Proof.
  revert i. induction wps as [|wp wps IH]; intros i; [reflexivity|].
  unfold point_trees. cbn [Kml.point_trees flat_map]. rewrite tagged_app.
  fold point_trees. rewrite IH. reflexivity.
Qed.

Lemma tagged_point_trees_point (i : N) (wps : list Kml.waypoint) :
  Xml.tagged (Kml.q22 "Point") (flat_map Xml.iter (point_trees i wps))
  = map point_element wps.
Proof.
  revert i. induction wps as [|wp wps IH]; intros i; [reflexivity|].
  unfold point_trees. cbn [Kml.point_trees flat_map]. rewrite tagged_app.
  fold point_trees. rewrite IH. reflexivity.
Qed.

Lemma tagged_point_trees_ring (i : N) (wps : list Kml.waypoint) :
  Xml.tagged (Kml.q22 "LinearRing") (flat_map Xml.iter (point_trees i wps)) = [].
Proof.
  revert i. induction wps as [|wp wps IH]; intros i; [reflexivity|].
  unfold point_trees. cbn [Kml.point_trees flat_map]. rewrite tagged_app.
  fold point_trees. rewrite IH. reflexivity.
Qed.

Lemma tagged_path_part (wps : list Kml.waypoint) :
  Xml.tagged (Kml.q22 "coordinates")
    (flat_map Xml.iter (Kml.path_part float_repr wps))
  = Kml.path_part_coordinates float_repr wps
  /\ Xml.tagged (Kml.q22 "Point")
       (flat_map Xml.iter (Kml.path_part float_repr wps)) = []
  /\ Xml.tagged (Kml.q22 "LinearRing")
       (flat_map Xml.iter (Kml.path_part float_repr wps)) = [].
Proof.
  unfold Kml.path_part, Kml.path_part_coordinates.
  destruct (1 <? length wps)%nat; repeat split; reflexivity.
Qed.

(** The descendants of the root that carry the tag [t]. *)
Lemma descend_root (t : string) (wps : list Kml.waypoint) (date : string) :
  Xml.descend t [manual_tree wps date]
  = Xml.tagged t
      [Xml.Elem (Kml.q22 "Document") (Some (Str.nl +++ "    "))
         (Xml.children
            (hd (Xml.Elem EmptyString None [])
               (Xml.children (manual_tree wps date))));
       Xml.Elem (Kml.q22 "name") (Some ("Flight Plan " +++ date)) [];
       Xml.Elem (Kml.q22 "description") (Some "Drone Survey Waypoints"%string) []]
    ++ Xml.tagged t (flat_map Xml.iter (point_trees 0 wps))
    ++ Xml.tagged t (flat_map Xml.iter (Kml.path_part float_repr wps)).
Proof.
  unfold Xml.descend, manual_tree, Kml.manual_tree.
  cbn [flat_map Xml.children hd Xml.iter]. rewrite !app_nil_r.
  rewrite !flat_map_app.
  change (Xml.tagged t (?x :: ?l)) with (Xml.tagged t ([x] ++ l)).
  rewrite <- !tagged_app. cbn [flat_map Xml.iter app]. reflexivity.
Qed.

Lemma findall_coordinates (wps : list Kml.waypoint) (date : string)
  (ns : list (string * string)) :
  Xml.findall (manual_tree wps date) [Kml.q22 "coordinates"] ns
  = map point_coordinates wps ++ Kml.path_part_coordinates float_repr wps.
Proof.
  unfold Xml.findall. cbn [fold_left]. rewrite descend_root.
  rewrite tagged_point_trees_coordinates.
  destruct (tagged_path_part wps) as (-> & _ & _). reflexivity.
Qed.

Lemma descend_point_elements (wps : list Kml.waypoint) :
  Xml.descend (Kml.q22 "coordinates") (map point_element wps)
  = map point_coordinates wps.
Proof.
  induction wps as [|wp wps IH]; [reflexivity|].
  unfold Xml.descend in *. cbn [map flat_map]. rewrite IH. reflexivity.
Qed.

Lemma findall_point_coordinates (wps : list Kml.waypoint) (date : string)
  (ns : list (string * string)) :
  Xml.findall (manual_tree wps date)
    [Kml.q22 "Point"; Kml.q22 "coordinates"] ns
  = map point_coordinates wps.
Proof.
  unfold Xml.findall. cbn [fold_left]. rewrite descend_root.
  rewrite tagged_point_trees_point.
  destruct (tagged_path_part wps) as (_ & -> & _).
  change (Xml.tagged (Kml.q22 "Point") [_; _; _]) with (@nil Xml.Element).
  rewrite app_nil_l, app_nil_r. apply descend_point_elements.
Qed.

Lemma findall_ring_coordinates (wps : list Kml.waypoint) (date : string)
  (ns : list (string * string)) :
  Xml.findall (manual_tree wps date)
    [Kml.q22 "LinearRing"; Kml.q22 "coordinates"] ns
  = [].
Proof.
  unfold Xml.findall. cbn [fold_left]. rewrite descend_root.
  rewrite tagged_point_trees_ring.
  destruct (tagged_path_part wps) as (_ & _ & ->). reflexivity.
Qed.

(** What the first prefix map selects in a written document. *)
Lemma coord_elements_written (wps : list Kml.waypoint) (date : string)
  (ns : list (string * string)) :
  ns <> [] ->
  Kml.coord_elements (manual_tree wps date) ns
  = map point_coordinates wps ++ Kml.path_part_coordinates float_repr wps
    ++ map point_coordinates wps.
Proof.
  intros Hns. destruct ns as [|n ns]; [congruence|].
  unfold Kml.coord_elements.
  change "{http://www.opengis.net/kml/2.2}coordinates"%string
    with (Kml.q22 "coordinates").
  change "{http://www.opengis.net/kml/2.2}Point"%string with (Kml.q22 "Point").
  change "{http://www.opengis.net/kml/2.2}LinearRing"%string
    with (Kml.q22 "LinearRing").
  rewrite findall_coordinates, findall_point_coordinates, findall_ring_coordinates.
  now rewrite app_nil_r, <- app_assoc.
Qed.

End WrittenTree.

(** ** First occurrences *)

Lemma first_occurrences_app (earlier l r : list Geo.point) :
  Kml.first_occurrences earlier (l ++ r)
  = Kml.first_occurrences earlier l
    ++ Kml.first_occurrences (rev l ++ earlier) r.
Proof.
  revert earlier. induction l as [|x l IH]; intros earlier; [reflexivity|].
  cbn [app Kml.first_occurrences rev]. rewrite <- app_assoc. cbn [app].
  destruct (existsb (Kml.same_key x) earlier); rewrite IH; reflexivity.
Qed.

(** Points that all equal an earlier point after rounding add nothing. *)
Lemma first_occurrences_known (earlier r : list Geo.point) :
  (forall x, In x r -> exists e, In e earlier /\ Kml.same_key x e = true) ->
  Kml.first_occurrences earlier r = [].
Proof.
  revert earlier. induction r as [|x r IH]; intros earlier Hk; [reflexivity|].
  cbn [Kml.first_occurrences].
  assert (Hx : existsb (Kml.same_key x) earlier = true).
  { apply existsb_exists. apply Hk. now left. }
  rewrite Hx. apply IH. intros y Hy.
  destruct (Hk y (or_intror Hy)) as (e & He & Hye).
  exists e. split; [now right | exact Hye].
Qed.

Lemma first_occurrences_repeats (l r : list Geo.point) :
  (forall x, In x l -> Kml.in_range x = true) ->
  (forall x, In x r -> In x l) ->
  Kml.first_occurrences [] (l ++ r) = Kml.first_occurrences [] l.
Proof.
  intros Hrange Hsub. rewrite first_occurrences_app.
  rewrite (first_occurrences_known (rev l ++ []) r); [apply app_nil_r|].
  intros x Hx. exists x. split.
  - rewrite app_nil_r. apply in_rev. rewrite rev_involutive. now apply Hsub.
  - apply same_key_refl, Hrange, Hsub, Hx.
Qed.

(** ** Writing and reading back *)

Section WriteRead.
Variable float_of_string : string -> option float.
Variable float_repr : float -> string.
Variable ET_fromstring : string -> result Xml.Element.

Let round_trips := Kml.round_trips float_of_string float_repr.
Let read_element := Kml.read_element float_of_string float_repr.
Let extract := Kml.extract float_of_string float_repr.
Let parse_kml := Kml.parse_kml float_of_string float_repr ET_fromstring.
Let manual_tree := Kml.manual_tree float_repr.
Let create_kml_manual := Kml.create_kml_manual float_repr.

Lemma fold_read_points (wps : list Kml.waypoint) (coords : list Geo.point)
  (log : list diagnostic) :
  (forall wp, In wp wps -> round_trips wp) ->
  fold_left read_element (map (Kml.point_coordinates float_repr) wps) (coords, log)
  = (coords ++ map Kml.point_of wps, log).
Proof.
  revert coords. induction wps as [|wp wps IH]; intros coords Hrt.
  - cbn. now rewrite app_nil_r.
  - cbn [map fold_left].
    unfold read_element at 2.
    rewrite read_element_point by (apply Hrt; now left).
    fold read_element.
    rewrite IH by (intros w Hw; apply Hrt; now right).
    now rewrite <- app_assoc.
Qed.

Lemma fold_read_path_part (wps : list Kml.waypoint) (coords : list Geo.point)
  (log : list diagnostic) :
  (forall wp, In wp wps -> round_trips wp) ->
  fold_left read_element (Kml.path_part_coordinates float_repr wps) (coords, log)
  = (coords ++ Kml.path_part_points wps, log).
Proof.
  intros Hrt. unfold Kml.path_part_coordinates, Kml.path_part_points.
  destruct (1 <? length wps)%nat.
  - cbn [fold_left]. unfold read_element. now apply read_element_path.
  - cbn. now rewrite app_nil_r.
Qed.

(** The points gathered from a written document, before duplicates are
    removed: the points, those of the flight path, the points again. *)
Lemma extract_written (wps : list Kml.waypoint) (date : string) :
  wps <> [] ->
  (forall wp, In wp wps -> round_trips wp) ->
  extract (manual_tree wps date)
  = (map Kml.point_of wps ++ Kml.path_part_points wps ++ map Kml.point_of wps, []).
Proof.
  intros Hne Hrt. unfold extract, Kml.extract, Kml.namespaces.
  cbn [Kml.probe].
  unfold manual_tree. rewrite coord_elements_written by discriminate.
  fold read_element.
  rewrite !fold_left_app.
  rewrite (fold_read_points wps [] [] Hrt).
  rewrite (fold_read_path_part wps _ [] Hrt).
  rewrite (fold_read_points wps _ [] Hrt).
  cbn [app fst].
  destruct wps as [|wp wps]; [congruence|].
  cbn [map app]. now rewrite <- !app_assoc.
Qed.

Lemma path_part_points_subset (wps : list Kml.waypoint) (x : Geo.point) :
  In x (Kml.path_part_points wps) -> In x (map Kml.point_of wps).
Proof.
  unfold Kml.path_part_points, Kml.path_points.
  destruct (1 <? length wps)%nat; [|contradiction].
  rewrite map_app. intros Hx. apply in_app_or in Hx as [Hx | Hx]; [exact Hx|].
  destruct (2 <? length wps)%nat; [|contradiction].
  destruct wps as [|w0 ws]; [contradiction|].
  destruct Hx as [<- | []]. now left.
Qed.

(** A file whose tree is the tree of the written document is read as the
    waypoints' points, each once. *)
Lemma parse_manual_tree (wps : list Kml.waypoint) (date text : string) :
  wps <> [] ->
  (forall wp, In wp wps -> round_trips wp) ->
  Kml.read_root ET_fromstring text = Ok (manual_tree wps date) ->
  parse_kml text = (Kml.first_occurrences [] (map Kml.point_of wps), [])
  /\ (forall q, In q (fst (parse_kml text)) -> In q (map Kml.point_of wps))
  /\ (forall p, In p (map Kml.point_of wps) ->
        exists q, In q (fst (parse_kml text)) /\ Kml.same_key p q = true).
Proof.
  intros Hne Hrt Hroot.
  assert (Hrange : forall x, In x (map Kml.point_of wps) -> Kml.in_range x = true).
  { intros x Hx. apply in_map_iff in Hx as (wp & <- & Hwp).
    now destruct (Hrt wp Hwp) as [Hr _]. }
  assert (Hparse : parse_kml text
                   = (Kml.first_occurrences [] (map Kml.point_of wps), [])).
  { unfold parse_kml. rewrite (parse_kml_of_root _ _ _ _ _ Hroot).
    fold extract manual_tree. rewrite (extract_written wps date Hne Hrt).
    cbn [fst snd]. f_equal.
    rewrite (remove_duplicates_first_occurrences [] [])
      by (intros k; reflexivity).
    apply first_occurrences_repeats; [exact Hrange|].
    intros x Hx. apply in_app_or in Hx as [Hx | Hx]; [|exact Hx].
    now apply path_part_points_subset. }
  split; [exact Hparse|]. rewrite Hparse. cbn [fst].
  rewrite <- (remove_duplicates_first_occurrences [] [])
    by (intros k; reflexivity).
  split.
  - intros q Hq. now apply remove_duplicates_subset in Hq.
  - intros p Hp.
    destruct (remove_duplicates_represents [] _ p Hp
                (same_key_refl p (Hrange p Hp))) as [Hq | Hs];
      [exact Hq | discriminate].
Qed.

End WriteRead.


(** ** The reader: fuel *)

Lemma length_append (a b : string) :
  String.length (a +++ b) = (String.length a + String.length b)%nat.
Proof. induction a as [|x a IH]; [reflexivity | cbn; now rewrite IH]. Qed.

Lemma strip_prefix_append (pre s r : string) :
  Ref.strip_prefix pre s = Some r -> s = pre +++ r.
Proof.
  revert s. induction pre as [|a pre IH]; intros s H.
  - cbn in H. now injection H as ->.
  - destruct s as [|b s]; [discriminate|]. cbn [Ref.strip_prefix] in H.
    destruct (Ascii.eqb_spec a b) as [-> | _]; [|discriminate].
    cbn [String.append]. f_equal. now apply IH.
Qed.

Lemma strip_prefix_length (pre s r : string) :
  Ref.strip_prefix pre s = Some r ->
  (String.length r + String.length pre = String.length s)%nat.
Proof.
  intros H. apply strip_prefix_append in H as ->. rewrite length_append. lia.
Qed.

Lemma cut_at_length (pat s before r : string) :
  Ref.cut_at pat s = Some (before, r) ->
  (String.length r + String.length pat <= String.length s)%nat.
Proof.
  revert before. induction s as [|c s IH]; intros before H.
  - cbn [Ref.cut_at] in H.
    destruct (Ref.strip_prefix pat EmptyString) as [x|] eqn:Hp; [|discriminate].
    injection H as _ <-. apply strip_prefix_length in Hp. lia.
  - cbn [Ref.cut_at] in H.
    destruct (Ref.strip_prefix pat (String c s)) as [x|] eqn:Hp.
    + injection H as _ <-. apply strip_prefix_length in Hp. lia.
    + destruct (Ref.cut_at pat s) as [[b x]|] eqn:Hc; [|discriminate].
      injection H as _ <-. specialize (IH b eq_refl). cbn [String.length]. lia.
Qed.

Lemma span_length (p : ascii -> bool) (s : string) :
  (String.length (fst (Ref.span p s)) + String.length (snd (Ref.span p s))
   = String.length s)%nat.
Proof.
  induction s as [|c s IH]; [reflexivity|].
  cbn [Ref.span]. destruct (p c); [|reflexivity].
  destruct (Ref.span p s) as [a b]. cbn [fst snd String.length] in *. lia.
Qed.

Lemma span_rest_length (p : ascii -> bool) (s a b : string) :
  Ref.span p s = (a, b) -> (String.length b <= String.length s)%nat.
Proof.
  intros H. pose proof (span_length p s) as Hl. rewrite H in Hl.
  cbn [fst snd] in Hl. lia.
Qed.

Lemma attributes_length (fuel : nat) (s : string)
  (attrs : list (string * string)) (sc : bool) (rest : string) :
  Ref.attributes fuel s = Ok (attrs, sc, rest) ->
  (String.length rest < String.length s)%nat.
Proof.
  revert s attrs sc rest. induction fuel as [|fuel IH]; intros s attrs sc rest H;
    [discriminate|].
  cbn [Ref.attributes] in H.
  destruct (Ref.span Ref.is_xml_space s) as [sp s1] eqn:H1.
  apply span_rest_length in H1.
  destruct (Ref.strip_prefix ">" s1) as [r1|] eqn:Hgt.
  { injection H as _ _ <-. apply strip_prefix_length in Hgt. cbn in Hgt. lia. }
  destruct (Ref.strip_prefix "/>" s1) as [r1|] eqn:Hsl.
  { injection H as _ _ <-. apply strip_prefix_length in Hsl. cbn in Hsl. lia. }
  destruct (Ref.span Ref.is_name_char s1) as [name s2] eqn:H2.
  apply span_rest_length in H2.
  destruct (Ref.span Ref.is_xml_space s2) as [sp2 s3] eqn:H3.
  apply span_rest_length in H3.
  destruct sp as [|x sp]; [discriminate|].
  destruct (Ref.strip_prefix "=" s3) as [s4|] eqn:H4; [|discriminate].
  apply strip_prefix_length in H4. cbn in H4.
  destruct (Ref.span Ref.is_xml_space s4) as [sp4 s5] eqn:H5.
  apply span_rest_length in H5.
  destruct s5 as [|q s6]; [discriminate|].
  destruct (Ref.starts_name name && _); [|discriminate].
  destruct (Ref.cut_at (String q EmptyString) s6) as [[raw s7]|] eqn:H7; [|discriminate].
  apply cut_at_length in H7.
  destruct (Ref.cut_at "<" raw); [discriminate|].
  destruct (Ref.unescape _ _) as [v|]; [|discriminate]. cbn [bind] in H.
  destruct (Ref.attributes fuel s7) as [[[more sc'] rest']|] eqn:Hrec; [|discriminate].
  cbn [bind] in H. injection H as _ _ <-.
  apply IH in Hrec. cbn [String.length] in *. lia.
Qed.

Section Readers.
Variables read1 read2 : string -> result (list Ref.token).

Lemma comment_ext (s : string) :
  (forall r, (String.length r <= String.length s)%nat -> read1 r = read2 r) ->
  Ref.comment read1 s = Ref.comment read2 s.
Proof.
  intros H. unfold Ref.comment.
  destruct (Ref.cut_at "--" s) as [[b s1]|] eqn:Hc; [|reflexivity].
  apply cut_at_length in Hc.
  destruct (Ref.strip_prefix ">" s1) as [rest|] eqn:Hp; [|reflexivity].
  apply strip_prefix_length in Hp. apply H. lia.
Qed.

Lemma cdata_ext (s : string) :
  (forall r, (String.length r <= String.length s)%nat -> read1 r = read2 r) ->
  Ref.cdata read1 s = Ref.cdata read2 s.
Proof.
  intros H. unfold Ref.cdata.
  destruct (Ref.cut_at "]]>" s) as [[raw rest]|] eqn:Hc; [|reflexivity].
  apply cut_at_length in Hc. rewrite H by lia. reflexivity.
Qed.

Lemma instruction_ext (s : string) :
  (forall r, (String.length r <= String.length s)%nat -> read1 r = read2 r) ->
  Ref.instruction read1 s = Ref.instruction read2 s.
Proof.
  intros H. unfold Ref.instruction.
  destruct (Ref.span Ref.is_name_char s) as [name s1] eqn:H1.
  apply span_rest_length in H1.
  destruct (Ref.is_target name && _); [|reflexivity].
  destruct (Ref.cut_at "?>" s1) as [[b rest]|] eqn:Hc; [|reflexivity].
  apply cut_at_length in Hc. apply H. lia.
Qed.

Lemma end_tag_ext (s : string) :
  (forall r, (String.length r <= String.length s)%nat -> read1 r = read2 r) ->
  Ref.end_tag read1 s = Ref.end_tag read2 s.
Proof.
  intros H. unfold Ref.end_tag.
  destruct (Ref.span Ref.is_name_char s) as [name s1] eqn:H1.
  apply span_rest_length in H1.
  destruct (Ref.span Ref.is_xml_space s1) as [sp s2] eqn:H2.
  apply span_rest_length in H2.
  destruct (Ref.starts_name name); [|reflexivity].
  destruct (Ref.strip_prefix ">" s2) as [rest|] eqn:Hp; [|reflexivity].
  apply strip_prefix_length in Hp. rewrite H by lia. reflexivity.
Qed.

Lemma start_tag_ext (s : string) :
  (forall r, (String.length r <= String.length s)%nat -> read1 r = read2 r) ->
  Ref.start_tag read1 s = Ref.start_tag read2 s.
Proof.
  intros H. unfold Ref.start_tag.
  destruct (Ref.span Ref.is_name_char s) as [name s1] eqn:H1.
  apply span_rest_length in H1.
  destruct (Ref.starts_name name); [|reflexivity].
  destruct (Ref.attributes _ s1) as [[[attrs sc] rest]|] eqn:Ha; [|reflexivity].
  apply attributes_length in Ha. cbn [bind].
  destruct (Ref.distinct_names attrs); [|reflexivity].
  rewrite H by lia. reflexivity.
Qed.

Lemma character_data_ext (c : ascii) (s : string) :
  Ascii.eqb c "<" = false ->
  (forall r, (String.length r <= String.length s)%nat -> read1 r = read2 r) ->
  Ref.character_data read1 (String c s) = Ref.character_data read2 (String c s).
Proof.
  intros Hc H. unfold Ref.character_data. cbn [Ref.span]. rewrite Hc. cbn [negb].
  destruct (Ref.span _ s) as [a rest] eqn:H1.
  apply span_rest_length in H1.
  destruct (Ref.cut_at "]]>" (String c a)); [reflexivity|].
  destruct (Ref.unescape _ _); [|reflexivity]. cbn [bind].
  rewrite H by lia. reflexivity.
Qed.

(** The first token only asks for the tokens of a shorter text. *)
Lemma next_token_ext (s : string) :
  (forall r, (String.length r < String.length s)%nat -> read1 r = read2 r) ->
  Ref.next_token read1 s = Ref.next_token read2 s.
Proof.
  intros H. destruct s as [|c s]; [reflexivity|]. cbn [Ref.next_token].
  cbn [String.length] in H.
  destruct (Ascii.eqb c "<") eqn:Hc.
  - destruct (Ref.strip_prefix "!--" s) as [s2|] eqn:H1.
    { apply strip_prefix_length in H1. apply comment_ext. intros r Hr. apply H. lia. }
    destruct (Ref.strip_prefix "![CDATA[" s) as [s2|] eqn:H2.
    { apply strip_prefix_length in H2. apply cdata_ext. intros r Hr. apply H. lia. }
    destruct (Ref.strip_prefix "?" s) as [s2|] eqn:H3.
    { apply strip_prefix_length in H3. apply instruction_ext. intros r Hr. apply H. lia. }
    destruct (Ref.strip_prefix "/" s) as [s2|] eqn:H4.
    { apply strip_prefix_length in H4. apply end_tag_ext. intros r Hr. apply H. lia. }
    apply start_tag_ext. intros r Hr. apply H. lia.
  - apply character_data_ext; [exact Hc|]. intros r Hr. apply H. lia.
Qed.

End Readers.

(** More fuel than the text has characters changes nothing. *)
Lemma tokenize_enough (f1 f2 : nat) (s : string) :
  (String.length s < f1)%nat -> (String.length s < f2)%nat ->
  Ref.tokenize f1 s = Ref.tokenize f2 s.
Proof.
  revert f2 s. induction f1 as [|f1 IH]; intros f2 s H1 H2; [lia|].
  destruct f2 as [|f2]; [lia|]. cbn [Ref.tokenize].
  apply next_token_ext. intros r Hr. apply IH; lia.
Qed.

Lemma tokens_unfold (s : string) :
  Ref.tokens s = Ref.next_token Ref.tokens s.
Proof.
  unfold Ref.tokens at 1. cbn [Ref.tokenize].
  apply next_token_ext. intros r Hr. unfold Ref.tokens. apply tokenize_enough; lia.
Qed.

(** ** The reader: tokens of a laid out element *)

Lemma span_all (p : ascii -> bool) (a : string) (d : ascii) (r : string) :
  Ref.all_chars p a = true -> p d = false ->
  Ref.span p (a +++ String d r) = (a, String d r).
Proof.
  intros Ha Hd. induction a as [|c a IH].
  - cbn. now rewrite Hd.
  - cbn [Ref.all_chars] in Ha. apply andb_true_iff in Ha as [Hc Ha].
    cbn [String.append Ref.span]. rewrite Hc, (IH Ha). reflexivity.
Qed.

Lemma span_whole (p : ascii -> bool) (a : string) :
  Ref.all_chars p a = true -> Ref.span p a = (a, EmptyString).
Proof.
  intros Ha. induction a as [|c a IH]; [reflexivity|].
  cbn [Ref.all_chars] in Ha. apply andb_true_iff in Ha as [Hc Ha].
  cbn [Ref.span]. rewrite Hc, (IH Ha). reflexivity.
Qed.

Lemma name_start_not_markup (c : ascii) :
  Ref.is_name_start c = true ->
  Ascii.eqb "!" c = false /\ Ascii.eqb "?" c = false /\ Ascii.eqb "/" c = false.
Proof.
  destruct c as [[] [] [] [] [] [] [] []]; cbn; intros H;
    try discriminate H; repeat split.
Qed.

Lemma text_char_cases (c : ascii) :
  Xml.is_text_char c = true ->
  Ascii.eqb c "<" = false /\ Ascii.eqb c "&" = false /\ Ascii.eqb c ">" = false
  /\ Xml.is_printable c = true.
Proof.
  unfold Xml.is_text_char. intros H.
  apply andb_true_iff in H as [H H3]. apply andb_true_iff in H as [H H2].
  apply andb_true_iff in H as [H0 H1].
  repeat split; try now apply negb_true_iff. exact H0.
Qed.

Lemma plain_text_not_lt (t : string) :
  Xml.plain_text t = true ->
  Ref.all_chars (fun d => negb (Ascii.eqb d "<")) t = true.
Proof.
  induction t as [|c t IH]; intros H; [reflexivity|].
  cbn [Xml.plain_text] in H. apply andb_true_iff in H as [Hc H].
  destruct (text_char_cases c Hc) as (Hlt & _).
  cbn [Ref.all_chars]. now rewrite Hlt, IH.
Qed.

(** Text without [>] holds no []]>]. *)
Lemma plain_text_no_cdata_end (t : string) :
  Xml.plain_text t = true -> Ref.cut_at "]]>" t = None.
Proof.
  induction t as [|c t IH]; intros H; [reflexivity|].
  cbn [Xml.plain_text] in H. apply andb_true_iff in H as [Hc H].
  cbn [Ref.cut_at]. rewrite (IH H).
  assert (Hp : Ref.strip_prefix "]]>" (String c t) = None).
  { cbn [Ref.strip_prefix]. destruct (Ascii.eqb "]" c); [|reflexivity].
    destruct t as [|d t]; [reflexivity|].
    destruct (Ascii.eqb "]" d); [|reflexivity].
    destruct t as [|e t]; [reflexivity|].
    cbn [Xml.plain_text] in H. apply andb_true_iff in H as [_ H].
    apply andb_true_iff in H as [He _].
    destruct (text_char_cases e He) as (_ & _ & Hgt & _).
    rewrite Ascii.eqb_sym, Hgt. reflexivity. }
  now rewrite Hp.
Qed.

(** Text without [&] is its own character data. *)
Lemma unescape_plain (t : string) (fuel : nat) :
  Xml.plain_text t = true -> (String.length t < fuel)%nat ->
  Ref.unescape fuel t = Ok t.
Proof.
  revert fuel. induction t as [|c t IH]; intros fuel H Hf.
  - destruct fuel; [cbn in Hf; lia | reflexivity].
  - destruct fuel as [|fuel]; [cbn in Hf; lia|].
    cbn [Xml.plain_text] in H. apply andb_true_iff in H as [Hc H].
    destruct (text_char_cases c Hc) as (_ & Hamp & _).
    cbn [Ref.unescape]. rewrite Hamp.
    rewrite (IH fuel H) by (cbn in Hf; lia). reflexivity.
Qed.

Lemma before_before (a b : list Ref.token) (r : result (list Ref.token)) :
  Layout.before a (Layout.before b r) = Layout.before (a ++ b) r.
Proof.
  destruct r as [ts|e]; [|reflexivity]. cbn. now rewrite app_assoc.
Qed.

Lemma before_nil (r : result (list Ref.token)) : Layout.before [] r = r.
Proof. now destruct r. Qed.

Lemma name_ok_parts (name : string) :
  Layout.name_ok name = true ->
  Ref.starts_name name = true /\ Ref.all_chars Ref.is_name_char name = true
  /\ Str.free_of ":" name = true.
Proof.
  unfold Layout.name_ok. intros H.
  apply andb_true_iff in H as [H H3]. apply andb_true_iff in H as [H1 H2].
  now repeat split.
Qed.

(** A start tag without attributes. *)
Lemma tokens_start_tag (name r : string) :
  Layout.name_ok name = true ->
  Ref.tokens ("<" +++ name +++ ">" +++ r)
  = Layout.before [Ref.TOpen name [] false] (Ref.tokens r).
Proof.
  intros Hn. destruct (name_ok_parts name Hn) as (Hs & Hall & _).
  rewrite tokens_unfold.
  change ("<" +++ name +++ ">" +++ r) with (String "<" (name +++ String ">" r)).
  cbn [Ref.next_token]. change (Ascii.eqb "<" "<") with true. cbn iota.
  destruct name as [|c name]; [discriminate|]. cbn [Ref.starts_name] in Hs.
  destruct (name_start_not_markup c Hs) as (H1 & H2 & H3).
  cbn [String.append Ref.strip_prefix]. rewrite H1, H2, H3.
  unfold Ref.start_tag.
  change (String c (name +++ String ">" r)) with (String c name +++ String ">" r).
  rewrite (span_all Ref.is_name_char (String c name) ">" r Hall eq_refl).
  cbn [Ref.starts_name]. rewrite Hs.
  reflexivity.
Qed.

(** An end tag. *)
Lemma tokens_end_tag (name r : string) :
  Layout.name_ok name = true ->
  Ref.tokens ("</" +++ name +++ ">" +++ r)
  = Layout.before [Ref.TClose name] (Ref.tokens r).
Proof.
  intros Hn. destruct (name_ok_parts name Hn) as (Hs & Hall & _).
  rewrite tokens_unfold.
  change ("</" +++ name +++ ">" +++ r)
    with (String "<" (String "/" (name +++ String ">" r))).
  cbn [Ref.next_token]. change (Ascii.eqb "<" "<") with true. cbn iota.
  cbn [Ref.strip_prefix]. change (Ascii.eqb "!" "/") with false.
  change (Ascii.eqb "?" "/") with false. change (Ascii.eqb "/" "/") with true.
  cbn iota. unfold Ref.end_tag.
  rewrite (span_all Ref.is_name_char name ">" r Hall eq_refl).
  cbn [Ref.span]. change (Ref.is_xml_space ">") with false. cbn iota.
  rewrite Hs. reflexivity.
Qed.

(** Plain text before a tag. *)
Lemma tokens_text (t r : string) :
  Xml.plain_text t = true ->
  Ref.tokens (t +++ String "<" r)
  = Layout.before (Layout.chardata t) (Ref.tokens (String "<" r)).
Proof.
  intros Ht. destruct t as [|c t]; [cbn [String.append Layout.chardata]; now rewrite before_nil|].
  rewrite tokens_unfold.
  pose proof Ht as Ht'.
  cbn [Xml.plain_text] in Ht'. apply andb_true_iff in Ht' as [Hc _].
  destruct (text_char_cases c Hc) as (Hlt & _).
  cbn [String.append Ref.next_token]. rewrite Hlt.
  unfold Ref.character_data.
  change (String c (t +++ String "<" r)) with (String c t +++ String "<" r).
  rewrite (span_all _ (String c t) "<" r (plain_text_not_lt _ Ht) eq_refl).
  rewrite (plain_text_no_cdata_end _ Ht).
  rewrite (unescape_plain _ _ Ht) by lia.
  reflexivity.
Qed.

(** Plain text at the end. *)
Lemma tokens_last_text (t : string) :
  Xml.plain_text t = true -> Ref.tokens t = Ok (Layout.chardata t).
Proof.
  intros Ht. destruct t as [|c t]; [reflexivity|].
  rewrite tokens_unfold.
  pose proof Ht as Ht'.
  cbn [Xml.plain_text] in Ht'. apply andb_true_iff in Ht' as [Hc _].
  destruct (text_char_cases c Hc) as (Hlt & _).
  cbn [Ref.next_token]. rewrite Hlt.
  unfold Ref.character_data.
  rewrite (span_whole _ (String c t) (plain_text_not_lt _ Ht)).
  rewrite (plain_text_no_cdata_end _ Ht).
  rewrite (unescape_plain _ _ Ht) by lia.
  reflexivity.
Qed.

Lemma render_children_starts (cs : Layout.Children) (r : string) :
  exists r', Layout.render_children cs +++ String "<" r = String "<" r'.
Proof.
  destruct cs as [|[name text children] tail rest].
  - now exists r.
  - cbn [Layout.render_children Layout.render String.append]. eauto.
Qed.

(** The tokens of a laid out element are found in its text, whatever
    follows. *)
Lemma tokens_render (e : Layout.Node) :
  Layout.wf e = true ->
  forall r, Ref.tokens (Layout.render e +++ r)
            = Layout.before (Layout.toks e) (Ref.tokens r).
Proof.
  induction e as [name text children IH | | child IHc tail rest IHr]
    using Layout.Node_mut
    with (P0 := fun cs =>
      Layout.wf_children cs = true ->
      forall r, Ref.tokens (Layout.render_children cs +++ String "<" r)
                = Layout.before (Layout.toks_children cs) (Ref.tokens (String "<" r))).
  - intros Hwf r. cbn [Layout.wf] in Hwf.
    apply andb_true_iff in Hwf as [Hwf Hcs]. apply andb_true_iff in Hwf as [Hn Ht].
    cbn [Layout.render Layout.toks]. rewrite !append_assoc.
    rewrite (tokens_start_tag name _ Hn).
    change ("</" +++ name +++ ">" +++ r)
      with (String "<" ("/" +++ name +++ ">" +++ r)).
    destruct (render_children_starts children ("/" +++ name +++ ">" +++ r)) as [r' Hr'].
    rewrite Hr', (tokens_text text r' Ht), <- Hr'.
    rewrite (IH Hcs).
    change (String "<" ("/" +++ name +++ ">" +++ r))
      with ("</" +++ name +++ ">" +++ r).
    rewrite (tokens_end_tag name r Hn).
    rewrite !before_before, <- !app_assoc. reflexivity.
  - intros _ r. cbn [Layout.render_children Layout.toks_children String.append].
    now rewrite before_nil.
  - intros Hwf r. cbn [Layout.wf_children] in Hwf.
    apply andb_true_iff in Hwf as [Hwf Hrest]. apply andb_true_iff in Hwf as [Hc Ht].
    cbn [Layout.render_children Layout.toks_children]. rewrite !append_assoc.
    rewrite (IHc Hc).
    destruct (render_children_starts rest r) as [r' Hr'].
    rewrite Hr', (tokens_text tail r' Ht), <- Hr'.
    rewrite (IHr Hrest). rewrite !before_before, <- !app_assoc. reflexivity.
Qed.

(** ** The reader: the tree of a laid out element *)

Lemma cut_at_free (sep : ascii) (s : string) :
  Str.free_of sep s = true -> Ref.cut_at (String sep EmptyString) s = None.
Proof.
  induction s as [|c s IH]; intros H; [reflexivity|].
  cbn [Str.free_of] in H. apply andb_true_iff in H as [Hc H].
  apply negb_true_iff in Hc.
  cbn [Ref.cut_at Ref.strip_prefix]. rewrite Ascii.eqb_sym, Hc, (IH H). reflexivity.
Qed.

(** The tag of a name without a prefix under a default namespace. *)
Lemma qualify_plain (scope : list (string * string)) (ns name : string) :
  Layout.name_ok name = true ->
  Ref.lookup EmptyString scope = Some ns -> Str.nonempty ns = true ->
  Ref.qualify scope name = Ok ("{" +++ ns +++ "}" +++ name).
Proof.
  intros Hn Hl Hns. destruct (name_ok_parts name Hn) as (_ & _ & Hfree).
  unfold Ref.qualify, Ref.qname. rewrite (cut_at_free ":" name Hfree), Hl.
  destruct ns; [discriminate | reflexivity].
Qed.

Lemma gather_fields (f : Ref.frame) (es : list Xml.Element) :
  Ref.f_name (Layout.gather f es) = Ref.f_name f
  /\ Ref.f_tag (Layout.gather f es) = Ref.f_tag f
  /\ Ref.f_scope (Layout.gather f es) = Ref.f_scope f
  /\ Ref.f_text (Layout.gather f es) = Ref.f_text f
  /\ Ref.f_children (Layout.gather f es) = rev es ++ Ref.f_children f.
Proof.
  revert f. induction es as [|e es IH]; intros f; [now repeat split|].
  unfold Layout.gather. cbn [fold_left]. fold (Layout.gather (Layout.with_child f e) es).
  destruct (IH (Layout.with_child f e)) as (H1 & H2 & H3 & H4 & H5).
  rewrite H1, H2, H3, H4, H5. cbn [Layout.with_child Ref.f_name Ref.f_tag
    Ref.f_scope Ref.f_text Ref.f_children rev].
  rewrite <- app_assoc. now repeat split.
Qed.

(** Character data after a child is passed over. *)
Lemma build_tail (f : Ref.frame) (e : Xml.Element) (stack : list Ref.frame)
  (root : option Xml.Element) (tail : string) (ts : list Ref.token) :
  fold_left Ref.build_step (Layout.chardata tail ++ ts)
    (Ok (Layout.with_child f e :: stack, root))
  = fold_left Ref.build_step ts (Ok (Layout.with_child f e :: stack, root)).
Proof. destruct tail; reflexivity. Qed.

(** The text of an element that was just opened. *)
Lemma build_text (ns : string) (scope : list (string * string)) (name text : string)
  (stack : list Ref.frame) (root : option Xml.Element) (ts : list Ref.token) :
  fold_left Ref.build_step (Layout.chardata text ++ ts)
    (Ok (Layout.opened ns scope name EmptyString :: stack, root))
  = fold_left Ref.build_step ts (Ok (Layout.opened ns scope name text :: stack, root)).
Proof. destruct text; reflexivity. Qed.

(** The tokens of a laid out element hand its tree to the element that
    is being read. *)
Lemma build_render (ns : string) (e : Layout.Node) :
  Str.nonempty ns = true -> Layout.wf e = true ->
  forall f stack root ts,
    Ref.lookup EmptyString (Ref.f_scope f) = Some ns ->
    fold_left Ref.build_step (Layout.toks e ++ ts) (Ok (f :: stack, root))
    = fold_left Ref.build_step ts
        (Ok (Layout.with_child f (Layout.erase ns e) :: stack, root)).
Proof.
  intros Hns.
  induction e as [name text children IH | | child IHc tail rest IHr]
    using Layout.Node_mut
    with (P0 := fun cs =>
      Layout.wf_children cs = true ->
      forall f stack root ts,
        Ref.lookup EmptyString (Ref.f_scope f) = Some ns ->
        fold_left Ref.build_step (Layout.toks_children cs ++ ts) (Ok (f :: stack, root))
        = fold_left Ref.build_step ts
            (Ok (Layout.gather f (Layout.erase_children ns cs) :: stack, root))).
  - intros Hwf f stack root ts Hl. cbn [Layout.wf] in Hwf.
    apply andb_true_iff in Hwf as [Hwf Hcs]. apply andb_true_iff in Hwf as [Hn Ht].
    cbn [Layout.toks app]. rewrite <- !app_assoc.
    cbn [fold_left]. unfold Ref.build_step at 2. cbn [bind Ref.declared app forallb andb].
    rewrite (qualify_plain (Ref.f_scope f) ns name Hn Hl Hns). cbn [bind].
    fold (Layout.opened ns (Ref.f_scope f) name EmptyString).
    rewrite build_text.
    rewrite (IH Hcs) by exact Hl.
    cbn [app fold_left]. unfold Ref.build_step at 2. cbn [bind].
    destruct (gather_fields (Layout.opened ns (Ref.f_scope f) name text)
                (Layout.erase_children ns children)) as (H1 & H2 & _ & H4 & H5).
    rewrite H1, H2, H4, H5. cbn [Layout.opened Ref.f_name Ref.f_tag Ref.f_text
      Ref.f_children].
    rewrite String.eqb_refl, app_nil_r, rev_involutive. reflexivity.
  - intros _ f stack root ts _. reflexivity.
  - intros Hwf f stack root ts Hl. cbn [Layout.wf_children] in Hwf.
    apply andb_true_iff in Hwf as [Hwf Hrest]. apply andb_true_iff in Hwf as [Hc Ht].
    cbn [Layout.toks_children Layout.erase_children]. rewrite <- !app_assoc.
    rewrite (IHc Hc) by exact Hl.
    rewrite build_tail.
    rewrite (IHr Hrest) by exact Hl. reflexivity.
Qed.

(** ** The reader: a whole document *)

Lemma printable_append (a b : string) :
  Xml.printable (a +++ b) = Xml.printable a && Xml.printable b.
Proof.
  induction a as [|x a IH]; [reflexivity|].
  cbn [String.append Xml.printable]. rewrite IH. now rewrite andb_assoc.
Qed.

Lemma plain_text_printable (s : string) :
  Xml.plain_text s = true -> Xml.printable s = true.
Proof.
  induction s as [|c s IH]; intros H; [reflexivity|].
  cbn [Xml.plain_text] in H. apply andb_true_iff in H as [Hc H].
  destruct (text_char_cases c Hc) as (_ & _ & _ & Hp).
  cbn [Xml.printable]. now rewrite Hp, IH.
Qed.

Lemma name_char_printable (c : ascii) :
  Ref.is_name_char c = true -> Xml.is_printable c = true.
Proof.
  destruct c as [[] [] [] [] [] [] [] []]; cbn; intros H;
    try discriminate H; reflexivity.
Qed.

Lemma name_printable (s : string) :
  Ref.all_chars Ref.is_name_char s = true -> Xml.printable s = true.
Proof.
  induction s as [|c s IH]; intros H; [reflexivity|].
  cbn [Ref.all_chars] in H. apply andb_true_iff in H as [Hc H].
  cbn [Xml.printable]. now rewrite (name_char_printable c Hc), IH.
Qed.

Lemma render_printable (e : Layout.Node) :
  Layout.wf e = true -> Xml.printable (Layout.render e) = true.
Proof.
  induction e as [name text children IH | | child IHc tail rest IHr]
    using Layout.Node_mut
    with (P0 := fun cs =>
      Layout.wf_children cs = true ->
      Xml.printable (Layout.render_children cs) = true).
  - intros Hwf. cbn [Layout.wf] in Hwf.
    apply andb_true_iff in Hwf as [Hwf Hcs]. apply andb_true_iff in Hwf as [Hn Ht].
    destruct (name_ok_parts name Hn) as (_ & Hall & _).
    cbn [Layout.render]. rewrite !printable_append.
    rewrite (name_printable name Hall), (plain_text_printable text Ht), (IH Hcs).
    reflexivity.
  - reflexivity.
  - intros Hwf. cbn [Layout.wf_children] in Hwf.
    apply andb_true_iff in Hwf as [Hwf Hrest]. apply andb_true_iff in Hwf as [Hc Ht].
    cbn [Layout.render_children]. rewrite !printable_append.
    now rewrite (IHc Hc), (plain_text_printable tail Ht), (IHr Hrest).
Qed.

Lemma printable_char_cases (c : ascii) :
  Xml.is_printable c = true ->
  Ref.is_xml_byte c = true /\ Str.is_ascii c = true
  /\ (nat_of_ascii c =? 13)%nat = false /\ (nat_of_ascii c =? 239)%nat = false.
Proof.
  destruct c as [[] [] [] [] [] [] [] []]; cbn; intros H;
    try discriminate H; repeat split.
Qed.

Lemma printable_xml_bytes (s : string) :
  Xml.printable s = true -> Ref.all_chars Ref.is_xml_byte s = true.
Proof.
  induction s as [|c s IH]; intros H; [reflexivity|].
  cbn [Xml.printable] in H. apply andb_true_iff in H as [Hc H].
  destruct (printable_char_cases c Hc) as (Hb & _).
  cbn [Ref.all_chars]. now rewrite Hb, IH.
Qed.

Lemma printable_ascii_only (s : string) :
  Xml.printable s = true -> Str.ascii_only s = true.
Proof.
  induction s as [|c s IH]; intros H; [reflexivity|].
  cbn [Xml.printable] in H. apply andb_true_iff in H as [Hc H].
  destruct (printable_char_cases c Hc) as (_ & Ha & _).
  cbn [Str.ascii_only]. now rewrite Ha, IH.
Qed.

Lemma printable_newlines (s : string) :
  Xml.printable s = true -> Ref.newlines s = s.
Proof.
  induction s as [|c s IH]; intros H; [reflexivity|].
  cbn [Xml.printable] in H. apply andb_true_iff in H as [Hc H].
  destruct (printable_char_cases c Hc) as (_ & _ & Hcr & _).
  cbn [Ref.newlines]. now rewrite Hcr, (IH H).
Qed.

Lemma printable_no_noncharacter (s : string) :
  Xml.printable s = true -> Ref.has_noncharacter s = false.
Proof.
  induction s as [|a s IH]; intros H; [reflexivity|].
  cbn [Xml.printable] in H. apply andb_true_iff in H as [Ha H].
  destruct (printable_char_cases a Ha) as (_ & _ & _ & Hn).
  cbn [Ref.has_noncharacter].
  destruct s as [|b [|c s]]; try reflexivity.
  rewrite Hn. cbn [andb orb]. now apply IH.
Qed.

Lemma ascii_utf8_valid (s : string) :
  Str.ascii_only s = true -> Str.utf8_valid s = true.
Proof.
  unfold Str.utf8_valid. induction s as [|c s IH]; intros H; [reflexivity|].
  cbn [Str.ascii_only] in H. apply andb_true_iff in H as [Hc H].
  cbn [Str.utf8_valid_from]. unfold Str.is_ascii in Hc. rewrite Hc. now apply IH.
Qed.

Section Document.
Variable float_repr : float -> string.

(** The XML declaration that is written is passed over. *)
Lemma prolog_declaration (r : string) :
  Ref.prolog (Layout.declaration +++ r) = Ok r.
Proof. reflexivity. Qed.

(** The start tag of the root. *)
Lemma tokens_root_tag (r : string) :
  Ref.tokens (Layout.root_tag +++ r)
  = Layout.before [Ref.TOpen "kml" [("xmlns"%string, Kml.kml22)] false] (Ref.tokens r).
Proof. rewrite tokens_unfold. reflexivity. Qed.

(** A document with the root [kml] in the KML 2.2 namespace and one
    laid out element in it is read as the tree of that element under
    the root. *)
Lemma reader_document (e : Layout.Node) :
  Layout.wf e = true ->
  Ref.ET_fromstring
    (Layout.declaration +++ Str.nl +++ Layout.root_tag +++ (Str.nl +++ "  ")
     +++ Layout.render e +++ Str.nl +++ "</kml>" +++ (Str.nl +++ "    "))
  = Ok (Xml.Elem (Kml.q22 "kml") (Some (Str.nl +++ "  "))
          [Layout.erase Kml.kml22 e])
  /\ Xml.printable
       (Layout.declaration +++ Str.nl +++ Layout.root_tag +++ (Str.nl +++ "  ")
        +++ Layout.render e +++ Str.nl +++ "</kml>" +++ (Str.nl +++ "    ")) = true.
Proof.
  intros Hwf.
  set (body := Str.nl +++ Layout.root_tag +++ (Str.nl +++ "  ")
               +++ Layout.render e +++ Str.nl +++ "</kml>" +++ (Str.nl +++ "    ")).
  assert (Hp : Xml.printable (Layout.declaration +++ body) = true).
  { subst body. rewrite !printable_append, (render_printable e Hwf). reflexivity. }
  split; [|exact Hp].
  unfold Ref.ET_fromstring.
  change (Ref.strip_prefix Ref.bom (Layout.declaration +++ body)) with (@None string).
  cbn iota.
  rewrite (printable_xml_bytes _ Hp), (printable_no_noncharacter _ Hp),
    (printable_newlines _ Hp).
  cbn [andb negb]. rewrite prolog_declaration. cbn [bind].
  assert (Htokens : Ref.tokens body
           = Ok ([Ref.TText Str.nl;
                  Ref.TOpen "kml" [("xmlns"%string, Kml.kml22)] false;
                  Ref.TText (Str.nl +++ "  ")]
                 ++ Layout.toks e
                 ++ [Ref.TText Str.nl; Ref.TClose "kml"; Ref.TText (Str.nl +++ "    ")])).
  { subst body.
    change (Layout.root_tag +++ ?r) with (String "<" ("kml xmlns=" +++ dq +++ Kml.kml22 +++ dq +++ ">" +++ r)).
    rewrite (tokens_text Str.nl _ eq_refl).
    change (String "<" ("kml xmlns=" +++ dq +++ Kml.kml22 +++ dq +++ ">" +++ ?r))
      with (Layout.root_tag +++ r).
    rewrite tokens_root_tag.
    destruct e as [name text children].
    change (Layout.render (Layout.Mk name text children) +++ ?r)
      with (String "<" ((name +++ ">" +++ text +++ Layout.render_children children
                         +++ "</" +++ name +++ ">") +++ r)).
    rewrite (tokens_text (Str.nl +++ "  ") _ eq_refl).
    change (String "<" ((name +++ ">" +++ text +++ Layout.render_children children
                         +++ "</" +++ name +++ ">") +++ ?r))
      with (Layout.render (Layout.Mk name text children) +++ r).
    rewrite (tokens_render _ Hwf).
    change (Str.nl +++ "</kml>" +++ Str.nl +++ "    ")
      with (Str.nl +++ String "<" ("/kml>" +++ Str.nl +++ "    ")).
    rewrite (tokens_text Str.nl _ eq_refl).
    change (String "<" ("/kml>" +++ Str.nl +++ "    "))
      with ("</" +++ "kml" +++ ">" +++ (Str.nl +++ "    ")).
    rewrite (tokens_end_tag "kml" _ eq_refl).
    rewrite (tokens_last_text (Str.nl +++ "    ") eq_refl).
    reflexivity. }
  rewrite Htokens. cbn [bind].
  rewrite fold_left_app.
  change (fold_left Ref.build_step
            [Ref.TText Str.nl; Ref.TOpen "kml" [("xmlns"%string, Kml.kml22)] false;
             Ref.TText (Str.nl +++ "  ")] (Ok ([], None)))
    with (Ok ([Layout.opened Kml.kml22 (("", Kml.kml22) :: Ref.outermost)%string "kml"
                 (Str.nl +++ "  ")], @None Xml.Element)).
  rewrite (build_render Kml.kml22 e eq_refl Hwf) by reflexivity.
  reflexivity.
Qed.

End Document.


(** ** The text [create_kml_manual] writes *)

Lemma concat_all_app (a b : list string) :
  Str.concat_all (a ++ b) = Str.concat_all a +++ Str.concat_all b.
Proof.
  induction a as [|x a IH]; [reflexivity|].
  cbn [app Str.concat_all fold_right]. fold (Str.concat_all (a ++ b)).
  fold (Str.concat_all a). now rewrite IH, append_assoc.
Qed.

Lemma fold_left_append {A} (f : A -> string) (l : list A) (acc : string) :
  fold_left (fun acc x => acc +++ f x) l acc = acc +++ Str.concat_all (map f l).
Proof.
  revert acc. induction l as [|x l IH]; intros acc.
  - cbn. now rewrite append_nil_r.
  - cbn [fold_left map Str.concat_all fold_right]. fold (Str.concat_all (map f l)).
    now rewrite IH, append_assoc.
Qed.

Section WrittenText.
Variable float_of_string : string -> option float.
Variable float_repr : float -> string.

Let round_trips := Kml.round_trips float_of_string float_repr.
Let point_node := Layout.point_node float_repr.
Let point_nodes := Layout.point_nodes float_repr.
Let path_node := Layout.path_node float_repr.
Let path_nodes := Layout.path_nodes float_repr.
Let placemarks := Layout.placemarks float_repr.
Let document_node := Layout.document_node float_repr.

Lemma chr_letter (i : N) :
  (65 + i < 1114112)%N -> Str.chr (65 + i) = Ok (Kml.letter i).
Proof.
  intros Hi. unfold Kml.letter, Str.chr.
  destruct (N.ltb_spec (65 + i) 1114112) as [_ | H]; [reflexivity | lia].
Qed.

Lemma point_placemark_text (i : N) (wp : Kml.waypoint) :
  (65 + i < 1114112)%N ->
  Kml.point_placemark float_repr i wp = Ok (Layout.placed (point_node i wp)).
Proof.
  intros Hi. unfold Kml.point_placemark. rewrite (chr_letter i Hi). cbn [bind].
  f_equal. unfold Layout.placed, point_node, Layout.point_node, Layout.leaf, Kml.triple.
  cbn [Layout.render Layout.render_children].
  rewrite !append_assoc. reflexivity.
Qed.

Lemma point_placemarks_text (wps : list Kml.waypoint) (i : N) (acc : string) :
  (65 + i + N.of_nat (length wps) <= 1114112)%N ->
  Kml.point_placemarks float_repr i wps acc
  = Ok (acc +++ Str.concat_all (map Layout.placed (point_nodes i wps))).
Proof.
  revert i acc. induction wps as [|wp wps IH]; intros i acc Hi.
  - cbn. now rewrite append_nil_r.
  - cbn [length] in Hi. cbn [Kml.point_placemarks].
    rewrite point_placemark_text by lia. cbn [bind].
    rewrite IH by lia. f_equal.
    unfold point_nodes. cbn [Layout.point_nodes map Str.concat_all fold_right].
    fold point_nodes. fold (Str.concat_all (map Layout.placed (point_nodes (i + 1) wps))).
    now rewrite append_assoc.
Qed.

Lemma path_lines_text (wps : list Kml.waypoint) :
  fold_left (fun acc wp => acc +++ Kml.path_line float_repr wp) wps EmptyString
  +++ (if (2 <? length wps)%nat
       then match wps with
            | wp0 :: _ => Kml.path_line float_repr wp0
            | [] => EmptyString
            end
       else EmptyString)
  = Str.concat_all (map (Kml.path_line float_repr) (Kml.path_points wps)).
Proof.
  rewrite fold_left_append. cbn [String.append].
  unfold Kml.path_points. rewrite map_app, concat_all_app. f_equal.
  destruct (2 <? length wps)%nat; [|reflexivity].
  destruct wps as [|wp0 wps]; [reflexivity|].
  cbn. now rewrite append_nil_r.
Qed.

Lemma flight_path_text (wps : list Kml.waypoint) :
  Kml.flight_path float_repr wps = Str.concat_all (map Layout.placed (path_nodes wps)).
Proof.
  unfold Kml.flight_path, path_nodes, Layout.path_nodes.
  destruct (1 <? length wps)%nat; [|reflexivity].
  cbn [map Str.concat_all fold_right]. rewrite append_nil_r.
  unfold Layout.placed, Layout.path_node, Layout.leaf, Kml.path_text.
  cbn [Layout.render Layout.render_children].
  rewrite <- path_lines_text.
  rewrite !append_assoc. reflexivity.
Qed.

(** The placemarks of a document between the description and the end
    tag. *)
Lemma placemarks_children_text (nodes : list Layout.Node) :
  Layout.lead nodes +++ Layout.render_children (Layout.placemarks_children nodes)
  = Str.concat_all (map Layout.placed nodes) +++ (Str.nl +++ "  ").
Proof.
  induction nodes as [|n nodes IH]; [reflexivity|].
  cbn [Layout.placemarks_children Layout.render_children map Str.concat_all
       fold_right Layout.lead].
  fold (Str.concat_all (map Layout.placed nodes)).
  unfold Layout.placed at 1. rewrite !append_assoc.
  do 5 f_equal. exact IH.
Qed.

(** The file that is written is the laid out document. *)
Lemma create_kml_manual_text (wps : list Kml.waypoint) (date : string)
  (kml_filename : option string) :
  (length wps <= 26)%nat ->
  Kml.create_kml_manual float_repr wps date kml_filename
  = Ok (Layout.document float_repr wps date).
Proof.
  intros Hlen. unfold Kml.create_kml_manual.
  rewrite point_placemarks_text by lia. cbn [bind]. f_equal.
  rewrite flight_path_text.
  unfold Layout.document, Layout.document_node, Layout.leaf.
  cbn [Layout.render Layout.render_children].
  fold placemarks.
  assert (Hpl : Str.concat_all (map Layout.placed (point_nodes 0 wps))
                +++ Str.concat_all (map Layout.placed (path_nodes wps))
                = Str.concat_all (map Layout.placed (placemarks wps)))
    by (unfold placemarks, Layout.placemarks; now rewrite map_app, concat_all_app).
  rewrite !append_assoc.
  rewrite <- (append_assoc (Layout.lead (placemarks wps))).
  rewrite placemarks_children_text, <- Hpl.
  unfold Layout.declaration, Layout.root_tag, Kml.kml22.
  rewrite !append_assoc. reflexivity.
Qed.

(** ** The written document is well-formed *)

Lemma letter_of_nat_plain_text (n : nat) :
  (n < 26)%nat -> Xml.plain_text (Kml.letter (N.of_nat n)) = true.
Proof.
  intros Hn. do 26 (destruct n as [|n]; [reflexivity|]). lia.
Qed.

Lemma letter_plain_text (i : N) :
  (i < 26)%N -> Xml.plain_text (Kml.letter i) = true.
Proof.
  intros Hi. rewrite <- (Nnat.N2Nat.id i). apply letter_of_nat_plain_text. lia.
Qed.

Lemma point_node_wf (i : N) (wp : Kml.waypoint) :
  (i < 26)%N -> round_trips wp -> Layout.wf (point_node i wp) = true.
Proof.
  intros Hi Hrt. unfold point_node, Layout.point_node, Layout.leaf.
  cbn [Layout.wf Layout.wf_children].
  rewrite !plain_text_append, (letter_plain_text i Hi).
  rewrite (triple_plain_text float_of_string float_repr wp Hrt).
  reflexivity.
Qed.

Lemma point_nodes_wf (wps : list Kml.waypoint) (i : N) :
  (i + N.of_nat (length wps) <= 26)%N ->
  (forall wp, In wp wps -> round_trips wp) ->
  forall n, In n (point_nodes i wps) -> Layout.wf n = true.
Proof.
  revert i. induction wps as [|wp wps IH]; intros i Hi Hrt n Hn; [contradiction|].
  cbn [length] in Hi. destruct Hn as [<- | Hn].
  - apply point_node_wf; [lia | apply Hrt; now left].
  - apply (IH (i + 1)%N); [lia | intros w Hw; apply Hrt; now right | exact Hn].
Qed.

Lemma path_node_wf (wps : list Kml.waypoint) :
  (forall wp, In wp wps -> round_trips wp) -> Layout.wf (path_node wps) = true.
Proof.
  intros Hrt. unfold path_node, Layout.path_node, Layout.leaf.
  cbn [Layout.wf Layout.wf_children].
  rewrite (path_text_plain_text float_of_string float_repr wps Hrt).
  reflexivity.
Qed.

Lemma placemarks_children_wf (nodes : list Layout.Node) :
  (forall n, In n nodes -> Layout.wf n = true) ->
  Layout.wf_children (Layout.placemarks_children nodes) = true.
Proof.
  induction nodes as [|n nodes IH]; intros H; [reflexivity|].
  cbn [Layout.placemarks_children Layout.wf_children].
  rewrite (H n) by now left. rewrite IH by (intros m Hm; apply H; now right).
  destruct nodes; reflexivity.
Qed.

Lemma placemarks_wf (wps : list Kml.waypoint) :
  (length wps <= 26)%nat ->
  (forall wp, In wp wps -> round_trips wp) ->
  forall n, In n (placemarks wps) -> Layout.wf n = true.
Proof.
  intros Hlen Hrt n Hn. unfold placemarks, Layout.placemarks in Hn.
  apply in_app_or in Hn as [Hn | Hn].
  - apply (point_nodes_wf wps 0); [lia | exact Hrt | exact Hn].
  - unfold Layout.path_nodes in Hn. destruct (1 <? length wps)%nat; [|contradiction].
    destruct Hn as [<- | []]. now apply path_node_wf.
Qed.

Lemma document_node_wf (wps : list Kml.waypoint) (date : string) :
  (length wps <= 26)%nat ->
  (forall wp, In wp wps -> round_trips wp) ->
  Xml.plain_text date = true ->
  Layout.wf (document_node wps date) = true.
Proof.
  intros Hlen Hrt Hdate. unfold document_node, Layout.document_node, Layout.leaf.
  cbn [Layout.wf Layout.wf_children].
  rewrite !plain_text_append, Hdate. fold placemarks.
  rewrite (placemarks_children_wf _ (placemarks_wf wps Hlen Hrt)).
  destruct (placemarks wps); reflexivity.
Qed.

(** ** The tree of the written document *)

Lemma text_of_nonempty (s : string) :
  Str.nonempty s = true -> Ref.text_of s = Some s.
Proof. destruct s; [discriminate | reflexivity]. Qed.

Lemma triple_nonempty (wp : Kml.waypoint) :
  Str.nonempty (Kml.triple float_repr wp) = true.
Proof. unfold Kml.triple. now destruct (float_repr (Kml.wp_lon wp)). Qed.

Lemma erase_point_node (i : N) (wp : Kml.waypoint) :
  Layout.erase Kml.kml22 (point_node i wp) = Kml.point_tree float_repr i wp.
Proof.
  unfold point_node, Layout.point_node, Layout.leaf.
  cbn [Layout.erase Layout.erase_children].
  rewrite (text_of_nonempty _ (triple_nonempty wp)). reflexivity.
Qed.

Lemma erase_point_nodes (wps : list Kml.waypoint) (i : N) :
  map (Layout.erase Kml.kml22) (point_nodes i wps) = Kml.point_trees float_repr i wps.
Proof.
  revert i. induction wps as [|wp wps IH]; intros i; [reflexivity|].
  unfold point_nodes. cbn [Layout.point_nodes map Kml.point_trees].
  fold point_nodes. fold point_node. now rewrite erase_point_node, IH.
Qed.

Lemma erase_path_nodes (wps : list Kml.waypoint) :
  map (Layout.erase Kml.kml22) (path_nodes wps) = Kml.path_part float_repr wps.
Proof.
  unfold path_nodes, Layout.path_nodes, Kml.path_part.
  destruct (1 <? length wps)%nat; reflexivity.
Qed.

Lemma erase_placemarks_children (nodes : list Layout.Node) :
  Layout.erase_children Kml.kml22 (Layout.placemarks_children nodes)
  = map (Layout.erase Kml.kml22) nodes.
Proof.
  induction nodes as [|n nodes IH]; [reflexivity|].
  cbn [Layout.placemarks_children Layout.erase_children map]. now rewrite IH.
Qed.

(** The tree of the laid out document is the tree the reader of the
    coordinates is proved on. *)
Lemma erase_document (wps : list Kml.waypoint) (date : string) :
  Xml.Elem (Kml.q22 "kml") (Some (Str.nl +++ "  "))
    [Layout.erase Kml.kml22 (document_node wps date)]
  = Kml.manual_tree float_repr wps date.
Proof.
  unfold document_node, Layout.document_node, Layout.leaf, Kml.manual_tree.
  cbn [Layout.erase Layout.erase_children].
  rewrite erase_placemarks_children. fold placemarks.
  unfold placemarks, Layout.placemarks. rewrite map_app.
  fold point_nodes path_nodes.
  rewrite erase_point_nodes, erase_path_nodes. reflexivity.
Qed.

End WrittenText.

(** ** Writing and reading back *)

Section WriteAndRead.
Variable float_of_string : string -> option float.
Variable float_repr : float -> string.

Let round_trips := Kml.round_trips float_of_string float_repr.
Let parse_kml := Kml.parse_kml float_of_string float_repr Ref.ET_fromstring.
Let create_kml_manual := Kml.create_kml_manual float_repr.

(** The file that is written is decoded and parsed to the tree of the
    laid out document. *)
Lemma read_root_written (wps : list Kml.waypoint) (date : string) :
  (length wps <= 26)%nat ->
  (forall wp, In wp wps -> round_trips wp) ->
  Xml.plain_text date = true ->
  Kml.read_root Ref.ET_fromstring (Layout.document float_repr wps date)
  = Ok (Kml.manual_tree float_repr wps date).
Proof.
  intros Hlen Hrt Hdate.
  pose proof (document_node_wf float_of_string float_repr wps date Hlen Hrt Hdate)
    as Hwf.
  destruct (reader_document _ Hwf) as [Hread Hprint].
  unfold Kml.read_root, Str.decode_utf8.
  fold (Layout.document float_repr wps date) in Hread, Hprint.
  rewrite (ascii_utf8_valid _ (printable_ascii_only _ Hprint)). cbn [bind].
  rewrite Hread, erase_document. reflexivity.
Qed.

(** C5. For 1 to 26 waypoints within the ranges whose coordinates [repr]
    writes as tokens that [float] reads back, and a date without markup,
    [create_kml_manual] returns a file, and [parse_kml] reads that file
    (decoded, parsed by the XML reader, searched and freed of
    duplicates) as the waypoints' points with duplicates after rounding
    to 6 decimals removed: every point returned is a waypoint's point,
    every waypoint's point equals a returned one after that rounding,
    and nothing is reported.  The third field of a triple, the
    altitude, is not read. *)
Theorem kml_round_trip (waypoints : list Kml.waypoint) (date : string)
  (kml_filename : option string) :
  (1 <= length waypoints <= 26)%nat ->
  (forall wp, In wp waypoints -> round_trips wp) ->
  Xml.plain_text date = true ->
  exists text,
    create_kml_manual waypoints date kml_filename = Ok text
    /\ parse_kml text
       = (Kml.first_occurrences [] (map Kml.point_of waypoints), [])
    /\ (forall q, In q (fst (parse_kml text)) ->
                  In q (map Kml.point_of waypoints))
    /\ (forall p, In p (map Kml.point_of waypoints) ->
          exists q, In q (fst (parse_kml text))
                    /\ Kml.same_key p q = true).
Proof.
  intros [Hlo Hhi] Hrt Hdate.
  exists (Layout.document float_repr waypoints date). split.
  - now apply create_kml_manual_text.
  - apply (parse_manual_tree float_of_string float_repr Ref.ET_fromstring
             waypoints date).
    + destruct waypoints; [cbn in Hlo; lia | discriminate].
    + exact Hrt.
    + now apply read_root_written.
Qed.

End WriteAndRead.

Lemma kml_round_trip_witness :
  exists text,
    Kml.create_kml_manual Ref.float_repr Samples.waypoints "2024-05-01" None
    = Ok text
    /\ Samples.parse text = (Samples.triangle, [])
    /\ (forall q, In q (fst (Samples.parse text)) ->
                  In q (map Kml.point_of Samples.waypoints))
    /\ (forall p, In p (map Kml.point_of Samples.waypoints) ->
          exists q, In q (fst (Samples.parse text)) /\ Kml.same_key p q = true).
Proof.
  assert (Hlen : (1 <= length Samples.waypoints <= 26)%nat) by (cbn; lia).
  assert (Hrt : forall wp, In wp Samples.waypoints ->
                  Kml.round_trips Ref.float_of_string Ref.float_repr wp).
  { intros wp Hwp.
    repeat (destruct Hwp as [<- | Hwp];
            [repeat split; vm_compute; reflexivity|]).
    contradiction. }
  destruct (kml_round_trip Ref.float_of_string Ref.float_repr
              Samples.waypoints "2024-05-01" None Hlen Hrt eq_refl)
    as (text & Htext & Hparse & Hsub & Hrep).
  exists text. split; [exact Htext|].
  split; [|split; [exact Hsub | exact Hrep]].
  unfold Samples.parse. rewrite Hparse. vm_compute. reflexivity.
Defined.


(** ** Float order *)

Lemma SFcompare_antisym (x y : spec_float) :
  SFcompare y x = option_map CompOpp (SFcompare x y).
Proof.
  unfold SFcompare.
  destruct x as [sx | sx | | sx mx ex], y as [sy | sy | | sy my ey];
    try destruct sx; try destruct sy; try reflexivity.
  all: cbn [option_map]; f_equal;
    rewrite (Z.compare_antisym ex ey);
    fold (Pos.compare mx my); fold (Pos.compare my mx);
    rewrite (Pos.compare_antisym mx my);
    destruct (ex ?= ey); cbn [CompOpp]; try reflexivity;
    destruct (mx ?= my)%positive; reflexivity.
Qed.

Lemma SFcompare_some (x y : spec_float) :
  x <> S754_nan -> y <> S754_nan -> exists c, SFcompare x y = Some c.
Proof.
  intros Hx Hy. unfold SFcompare.
  destruct x, y; try congruence; eauto.
Qed.

(** Between two numbers, [not (x <= y)] is [y < x]. *)
Lemma leb_false_ltb (x y : float) :
  compared x <> None -> compared y <> None ->
  (x <=? y)%float = false -> (y <? x)%float = true.
Proof.
  intros Hx Hy. apply compared_not_nan in Hx, Hy.
  rewrite leb_spec, ltb_spec. unfold SFleb, SFltb.
  rewrite (SFcompare_antisym (Prim2SF x) (Prim2SF y)).
  destruct (SFcompare_some _ _ Hx Hy) as [c ->].
  destruct c; cbn; congruence.
Qed.

Lemma ltb_leb_false (x y : float) :
  (y <? x)%float = true -> (x <=? y)%float = false.
Proof.
  rewrite leb_spec, ltb_spec. unfold SFleb, SFltb.
  rewrite (SFcompare_antisym (Prim2SF x) (Prim2SF y)).
  destruct (SFcompare (Prim2SF x) (Prim2SF y)) as [[]|]; cbn; congruence.
Qed.

Lemma leb_compared (x y : float) :
  (x <=? y)%float = true -> compared x <> None /\ compared y <> None.
Proof.
  rewrite leb_spec. unfold SFleb, SFcompare. intros H.
  split; apply compared_not_nan; intros Hn; rewrite Hn in H;
    destruct (Prim2SF x), (Prim2SF y); discriminate.
Qed.

Lemma nan_leb_l (x y : float) : compared x = None -> (x <=? y)%float = false.
Proof.
  intros Hx. destruct (x <=? y)%float eqn:H; [|reflexivity].
  apply leb_compared in H as [H _]. congruence.
Qed.

Lemma nan_leb_r (x y : float) : compared y = None -> (x <=? y)%float = false.
Proof.
  intros Hy. destruct (x <=? y)%float eqn:H; [|reflexivity].
  apply leb_compared in H as [_ H]. congruence.
Qed.

(** The range test fails exactly below the range, above it and on
    [nan]. *)
Lemma between_false_iff (lo hi x : float) :
  compared lo <> None -> compared hi <> None ->
  Geo.between lo hi x = false <->
  (x <? lo)%float = true \/ (hi <? x)%float = true \/ compared x = None.
Proof.
  intros Hlo Hhi. unfold Geo.between. split.
  - intros H. destruct (compared x) eqn:Hx; [|now right; right].
    assert (Hx' : compared x <> None) by congruence.
    apply andb_false_iff in H as [H | H].
    + left. now apply leb_false_ltb.
    + right; left. now apply leb_false_ltb.
  - intros [H | [H | H]].
    + now rewrite (ltb_leb_false _ _ H).
    + rewrite (ltb_leb_false _ _ H). apply andb_false_r.
    + now rewrite (nan_leb_r _ _ H).
Qed.

Lemma abs_opp (x : float) : abs (- x) = abs x.
Proof.
  apply Prim2SF_inj. rewrite !abs_spec, opp_spec.
  now destruct (Prim2SF x).
Qed.

(** ** Coordinate validation *)

Section Validation.
Variable float_repr : float -> string.

Let validate := Geo.validate_coordinates float_repr.
Let step := Geo.validate_step float_repr.

Lemma validate_fold (coordinates kept : list (list float)) (log : list diagnostic) :
  fst (fold_left step coordinates (kept, log))
  = kept ++ filter Geo.valid_pair coordinates
  /\ length (snd (fold_left step coordinates (kept, log)))
     = (length log + length (filter Geo.rejected_pair coordinates))%nat.
Proof.
  revert kept log. induction coordinates as [|c cs IH]; intros kept log.
  - cbn. now rewrite app_nil_r, Nat.add_0_r.
  - cbn [fold_left].
    assert (Hstep : step (kept, log) c
                    = (kept ++ (if Geo.valid_pair c then [c] else []),
                       log ++ (if Geo.rejected_pair c
                               then [StWarning ("Invalid coordinates skipped: "
                                                +++ Geo.list_str float_repr c)]
                               else []))).
    { unfold step, Geo.validate_step, Geo.valid_pair, Geo.rejected_pair.
      destruct c as [|lat [|lon [|x xs]]]; try (now rewrite !app_nil_r).
      destruct (Geo.lat_ok lat && Geo.lon_ok lon); cbn [negb];
        now rewrite ?app_nil_r. }
    rewrite Hstep. destruct (IH (kept ++ (if Geo.valid_pair c then [c] else []))
                               (log ++ (if Geo.rejected_pair c
                                        then [StWarning ("Invalid coordinates skipped: "
                                                         +++ Geo.list_str float_repr c)]
                                        else []))) as [IH1 IH2].
    rewrite IH1, IH2. cbn [filter].
    destruct (Geo.valid_pair c), (Geo.rejected_pair c);
      rewrite ?length_app; cbn [length app];
      rewrite <- ?app_assoc, ?app_nil_r; split; (reflexivity || lia).
Qed.

Lemma validate_filter (coordinates : list (list float)) :
  fst (validate coordinates) = filter Geo.valid_pair coordinates
  /\ length (snd (validate coordinates))
     = length (filter Geo.rejected_pair coordinates).
Proof.
  unfold validate, Geo.validate_coordinates.
  destruct (validate_fold coordinates [] []) as [H1 H2].
  fold step. rewrite H1, H2. now split.
Qed.

Lemma validate_only_warns (cs kept : list (list float)) (log : list diagnostic) :
  forallb is_warning log = true ->
  forallb is_warning (snd (fold_left step cs (kept, log))) = true.
Proof.
  revert kept log. induction cs as [|c cs IH]; intros kept log Hlog; [exact Hlog|].
  cbn [fold_left]. unfold step at 2, Geo.validate_step.
  destruct c as [|lat [|lon [|x xs]]]; try now apply IH.
  destruct (Geo.lat_ok lat && Geo.lon_ok lon); apply IH; [exact Hlog|].
  rewrite forallb_app, Hlog. reflexivity.
Qed.

(** X1. [validate_coordinates] keeps, in order, exactly the pairs within
    the ranges, and warns once for every pair it drops; lists of another
    length are dropped without a warning. *)
Theorem validate_coordinates_keeps_valid_pairs (coordinates : list (list float)) :
  fst (validate coordinates) = filter Geo.valid_pair coordinates
  /\ length (snd (validate coordinates))
     = length (filter Geo.rejected_pair coordinates)
  /\ forallb is_warning (snd (validate coordinates)) = true.
Proof.
  destruct (validate_filter coordinates) as [H1 H2].
  repeat split; [exact H1 | exact H2 |].
  now apply validate_only_warns.
Qed.

Lemma filter_valid_fixed (l : list (list float)) :
  filter Geo.valid_pair (filter Geo.valid_pair l) = filter Geo.valid_pair l
  /\ filter Geo.rejected_pair (filter Geo.valid_pair l) = [].
Proof.
  induction l as [|c cs [IH1 IH2]]; [split; reflexivity|].
  cbn [filter]. destruct (Geo.valid_pair c) eqn:Hc; [|now split].
  cbn [filter]. rewrite Hc, IH1, IH2.
  assert (Hr : Geo.rejected_pair c = false).
  { unfold Geo.valid_pair, Geo.rejected_pair in *.
    destruct c as [|lat [|lon [|x xs]]]; try reflexivity. now rewrite Hc. }
  now rewrite Hr.
Qed.

(** X2. Validating what [validate_coordinates] returned changes nothing
    and warns of nothing. *)
Theorem validate_coordinates_idempotent (coordinates : list (list float)) :
  validate (fst (validate coordinates)) = (fst (validate coordinates), []).
Proof.
  destruct (validate_filter coordinates) as [H1 _].
  rewrite H1.
  destruct (validate_filter (filter Geo.valid_pair coordinates)) as [H2 H3].
  destruct (filter_valid_fixed coordinates) as [F1 F2].
  rewrite F1 in H2. rewrite F2 in H3.
  destruct (validate (filter Geo.valid_pair coordinates)) as [kept log].
  cbn [fst snd] in *. subst kept. destruct log; [reflexivity | discriminate].
Qed.

End Validation.

(** ** KML reader: what it returns and reports *)

Lemma between_number (lo hi x : float) :
  Geo.between lo hi x = true -> compared x <> None.
Proof.
  unfold Geo.between. intros H. apply andb_true_iff in H as [H _].
  now apply leb_compared in H as [_ H].
Qed.

Section ReaderOutput.
Variable float_of_string : string -> option float.
Variable float_repr : float -> string.
Variable ET_fromstring : string -> result Xml.Element.

Let parse_kml := Kml.parse_kml float_of_string float_repr ET_fromstring.
Let extract := Kml.extract float_of_string float_repr.
Let read_token := Kml.read_token float_of_string float_repr.
Let read_element := Kml.read_element float_of_string float_repr.

Lemma parse_kml_points_in_range (file : string) (p : Geo.point) :
  In p (fst (parse_kml file)) -> Kml.in_range p = true.
Proof.
  unfold parse_kml, Kml.parse_kml.
  destruct (Kml.read_root ET_fromstring file) as [root | e]; [|contradiction].
  destruct (Kml.extract float_of_string float_repr root) as [coords log] eqn:He.
  cbn [fst]. intros Hp. apply remove_duplicates_subset in Hp.
  apply (extract_in_range float_of_string float_repr root).
  now rewrite He.
Qed.

(** X3. Every point [parse_kml] returns is a pair of numbers within the
    ranges, so [validate_coordinates] returns the points unchanged and
    warns of nothing. *)
Theorem parse_kml_output_is_valid (file : string) :
  (forall p, In p (fst (parse_kml file)) ->
     Geo.lat_ok (fst p) = true /\ Geo.lon_ok (snd p) = true
     /\ compared (fst p) <> None /\ compared (snd p) <> None)
  /\ Geo.validate_coordinates float_repr
       (map (fun p => [fst p; snd p]) (fst (parse_kml file)))
     = (map (fun p => [fst p; snd p]) (fst (parse_kml file)), []).
Proof.
  assert (Hin : forall p, In p (fst (parse_kml file)) ->
                  Geo.lat_ok (fst p) = true /\ Geo.lon_ok (snd p) = true).
  { intros p Hp. apply parse_kml_points_in_range in Hp.
    now apply andb_true_iff in Hp. }
  split.
  - intros p Hp. destruct (Hin p Hp) as [Hlat Hlon].
    repeat split; try assumption; eapply between_number; eassumption.
  - set (pairs := map (fun p => [fst p; snd p]) (fst (parse_kml file))).
    assert (Hvalid : forall c, In c pairs -> Geo.valid_pair c = true).
    { intros c Hc. apply in_map_iff in Hc as (p & <- & Hp).
      destruct (Hin p Hp) as [Hlat Hlon]. cbn. now rewrite Hlat, Hlon. }
    destruct (validate_filter float_repr pairs) as [H1 H2].
    assert (F1 : filter Geo.valid_pair pairs = pairs).
    { clear H1 H2. induction pairs as [|c cs IH]; [reflexivity|].
      cbn [filter]. rewrite (Hvalid c) by now left.
      f_equal. apply IH. intros x Hx. apply Hvalid. now right. }
    assert (F2 : filter Geo.rejected_pair pairs = []).
    { apply filter_none. intros c Hc. specialize (Hvalid c Hc).
      unfold Geo.valid_pair, Geo.rejected_pair in *.
      destruct c as [|lat [|lon [|x xs]]]; try reflexivity. now rewrite Hvalid. }
    rewrite F1 in H1. rewrite F2 in H2.
    destruct (Geo.validate_coordinates float_repr pairs) as [kept log].
    cbn [fst snd] in *. subst kept. destruct log; [reflexivity | discriminate].
Qed.

Lemma read_token_warns (st : list Geo.point * list diagnostic) (tok : string) :
  forallb is_warning (snd st) = true ->
  forallb is_warning (snd (read_token st tok)) = true.
Proof.
  unfold read_token, Kml.read_token. destruct st as [coords log]. intros Hst.
  destruct (2 <=? length (Str.split_on "," tok))%nat; [|exact Hst].
  destruct (float_of_string _) as [lon|]; [|exact Hst].
  destruct (float_of_string _) as [lat|]; [|exact Hst].
  destruct (Geo.lat_ok lat && Geo.lon_ok lon); [exact Hst|].
  cbn [snd] in *. rewrite forallb_app, Hst. reflexivity.
Qed.

Lemma fold_warns {E} (f : list Geo.point * list diagnostic -> E ->
                         list Geo.point * list diagnostic)
  (l : list E) (st : list Geo.point * list diagnostic) :
  (forall s e, forallb is_warning (snd s) = true ->
               forallb is_warning (snd (f s e)) = true) ->
  forallb is_warning (snd st) = true ->
  forallb is_warning (snd (fold_left f l st)) = true.
Proof.
  intros Hf. revert st. induction l as [|e l IH]; intros st Hst; [exact Hst|].
  cbn [fold_left]. apply IH, Hf, Hst.
Qed.

Lemma read_element_warns (st : list Geo.point * list diagnostic)
  (elem : Xml.Element) :
  forallb is_warning (snd st) = true ->
  forallb is_warning (snd (read_element st elem)) = true.
Proof.
  intros Hst. unfold read_element, Kml.read_element.
  destruct (Xml.text elem) as [t|]; [|exact Hst].
  destruct (Str.nonempty t); [|exact Hst].
  apply fold_warns; [apply read_token_warns | exact Hst].
Qed.

Lemma probe_warns (root : Xml.Element)
  (candidates : list (list (string * string)))
  (st : list Geo.point * list diagnostic) :
  forallb is_warning (snd st) = true ->
  forallb is_warning
    (snd (Kml.probe float_of_string float_repr root candidates st)) = true.
Proof.
  revert st. induction candidates as [|ns rest IH]; intros st Hst; [exact Hst|].
  cbn [Kml.probe].
  assert (Hst' : forallb is_warning
                   (snd (fold_left read_element (Kml.coord_elements root ns) st))
                 = true)
    by (apply fold_warns; [apply read_element_warns | exact Hst]).
  fold read_element.
  destruct (fst (fold_left read_element (Kml.coord_elements root ns) st));
    [now apply IH | exact Hst'].
Qed.

(** X4. When [parse_kml] reports an error it returns no point and reports
    nothing else; otherwise it reports warnings only. *)
Theorem parse_kml_error_means_empty (file : string) :
  (forall prefix cause,
     In (StError prefix cause) (snd (parse_kml file)) ->
     parse_kml file = ([], [StError "KML Parsing Error: " cause]))
  /\ (forall root, Kml.read_root ET_fromstring file = Ok root ->
        forallb is_warning (snd (parse_kml file)) = true).
Proof.
  assert (Hok : forall root, Kml.read_root ET_fromstring file = Ok root ->
                  forallb is_warning (snd (parse_kml file)) = true).
  { intros root Hroot. unfold parse_kml, Kml.parse_kml. rewrite Hroot.
    pose proof (probe_warns root Kml.namespaces ([], []) eq_refl) as Hw.
    unfold Kml.extract.
    destruct (Kml.probe float_of_string float_repr root Kml.namespaces ([], []))
      as [coords log]. exact Hw. }
  split; [|exact Hok].
  intros prefix cause Hin.
  destruct (Kml.read_root ET_fromstring file) as [root | e] eqn:Hroot.
  - specialize (Hok root eq_refl). rewrite forallb_forall in Hok.
    specialize (Hok _ Hin). discriminate.
  - unfold parse_kml, Kml.parse_kml in *. rewrite Hroot in *.
    destruct Hin as [Hin | []]. now injection Hin as _ <-.
Qed.

End ReaderOutput.

Lemma parse_kml_output_is_valid_witness :
  fst (Samples.parse Samples.kml22_doc) = [(24.6, 72.5)%float]
  /\ Geo.validate_coordinates Ref.float_repr
       (map (fun p => [fst p; snd p]) (fst (Samples.parse Samples.kml22_doc)))
     = (map (fun p => [fst p; snd p]) (fst (Samples.parse Samples.kml22_doc)), []).
Proof.
  split; [vm_compute; reflexivity|].
  apply (parse_kml_output_is_valid Ref.float_of_string Ref.float_repr
           Ref.ET_fromstring Samples.kml22_doc).
Defined.

Lemma parse_kml_error_means_empty_witness :
  Samples.parse Samples.ampersand_doc
  = ([], [StError "KML Parsing Error: "
            (Some (TypeError "'recover' is an invalid keyword argument for XMLParser()"))]).
Proof.
  apply (proj1 (parse_kml_error_means_empty Ref.float_of_string Ref.float_repr
                  Ref.ET_fromstring Samples.ampersand_doc) "KML Parsing Error: "%string).
  vm_compute. left. reflexivity.
Defined.


(** ** Tokens of a coordinate text *)

Lemma free_of_chars (sep : ascii) (s : string) :
  Str.free_of sep s = true ->
  forall c, In c (list_ascii_of_string s) -> Ascii.eqb c sep = false.
Proof.
  induction s as [|x s IH]; intros Hs c Hc; [contradiction|].
  cbn [Str.free_of] in Hs. apply andb_true_iff in Hs as [Hx Hs].
  destruct Hc as [<- | Hc]; [now apply negb_true_iff | now apply IH].
Qed.

Section Tokens.
Variable float_of_string : string -> option float.
Variable float_repr : float -> string.

Let read_token := Kml.read_token float_of_string float_repr.

(** X5. Of a token [lon,lat,rest] only the first two fields are read:
    whatever follows the second comma (an altitude, more commas, text
    that is no number) changes neither the points nor the warnings. *)
Theorem read_token_ignores_altitude (st : list Geo.point * list diagnostic)
  (lon lat rest : string) :
  Str.free_of "," lon = true -> Str.free_of "," lat = true ->
  read_token st (lon +++ "," +++ lat +++ "," +++ rest)
  = read_token st (lon +++ "," +++ lat).
Proof.
  intros Hlon Hlat. unfold read_token, Kml.read_token.
  change (lon +++ "," +++ lat +++ "," +++ rest)
    with (lon +++ String "," (lat +++ String "," rest)).
  change (lon +++ "," +++ lat) with (lon +++ String "," lat).
  rewrite !(split_on_part "," lon) by now apply free_of_chars.
  rewrite (split_on_part "," lat) by now apply free_of_chars.
  rewrite (split_on_last "," lat) by now apply free_of_chars.
  destruct st as [coords log]. reflexivity.
Qed.

End Tokens.

Lemma read_token_ignores_altitude_witness :
  Kml.read_token Ref.float_of_string Ref.float_repr ([], [])
    ("72.5" +++ "," +++ "24.6" +++ "," +++ "915.3,relativeToGround")
  = Kml.read_token Ref.float_of_string Ref.float_repr ([], [])
      ("72.5" +++ "," +++ "24.6")
  /\ Kml.read_token Ref.float_of_string Ref.float_repr ([], []) "72.5,24.6"
     = ([(24.6, 72.5)%float], []).
Proof.
  split.
  - apply (read_token_ignores_altitude Ref.float_of_string Ref.float_repr);
      reflexivity.
  - vm_compute. reflexivity.
Defined.

(** ** Order of a pair *)

(** X6. [ensure_lat_lon_order] returns a pair as it is or swapped, and
    nothing else: a pair within the ranges is returned as it is, also
    when its swap is within the ranges too; the result is within the
    ranges exactly when the pair or its swap is; a list that is no pair
    is returned as it is. *)
Theorem ensure_lat_lon_order_swaps_only (coord : list float) :
  (Geo.valid_pair coord = true -> Geo.ensure_lat_lon_order coord = coord)
  /\ (forall c0 c1, coord = [c0; c1] ->
        (Geo.ensure_lat_lon_order coord = [c0; c1]
         \/ Geo.ensure_lat_lon_order coord = [c1; c0])
        /\ Geo.valid_pair (Geo.ensure_lat_lon_order coord)
           = Geo.valid_pair [c0; c1] || Geo.valid_pair [c1; c0])
  /\ (length coord <> 2%nat -> Geo.ensure_lat_lon_order coord = coord).
Proof.
  repeat split.
  - destruct coord as [|c0 [|c1 [|x xs]]]; try reflexivity.
    cbn. now intros ->.
  - subst coord. cbn.
    destruct (Geo.lat_ok c0 && Geo.lon_ok c1); [now left|].
    destruct (Geo.lon_ok c0 && Geo.lat_ok c1); [now right | now left].
  - subst coord. cbn.
    destruct (Geo.lat_ok c0 && Geo.lon_ok c1) eqn:H1.
    + cbn. now rewrite H1.
    + rewrite (andb_comm (Geo.lat_ok c1)).
      destruct (Geo.lon_ok c0 && Geo.lat_ok c1) eqn:H2; cbn.
      * now rewrite (andb_comm (Geo.lat_ok c1)), H2.
      * now rewrite H1.
  - destruct coord as [|c0 [|c1 [|x xs]]]; try reflexivity.
    intros H. now contradiction H.
Qed.

Lemma ensure_lat_lon_order_swaps_only_witness :
  Geo.ensure_lat_lon_order [120; 45]%float = [45; 120]%float
  /\ Geo.valid_pair (Geo.ensure_lat_lon_order [120; 45]%float) = true.
Proof.
  split; [vm_compute; reflexivity|].
  rewrite (proj2 (proj1 (proj2 (ensure_lat_lon_order_swaps_only [120; 45]%float))
                    120%float 45%float eq_refl)).
  vm_compute. reflexivity.
Defined.

(** ** Elements selected twice *)

Lemma Element_nested_ind (P : Xml.Element -> Prop) :
  (forall t x cs, Forall P cs -> P (Xml.Elem t x cs)) ->
  forall e, P e.
Proof.
  intros H. fix IH 1. intros [t x cs]. apply H.
  induction cs as [|c cs IHcs]; constructor; [apply IH | exact IHcs].
Qed.

Lemma iter_self (e : Xml.Element) : In e (Xml.iter e).
Proof. destruct e. now left. Qed.

(** A proper descendant of an element under [z] is a proper descendant
    of [z]. *)
Lemma descendant_trans (x y z : Xml.Element) :
  In y (Xml.iter z) ->
  In x (flat_map Xml.iter (Xml.children y)) ->
  In x (flat_map Xml.iter (Xml.children z)).
Proof.
  revert y. induction z as [t tx cs IH] using Element_nested_ind.
  intros y Hy Hx. cbn [Xml.iter] in Hy. destruct Hy as [<- | Hy]; [exact Hx|].
  cbn [Xml.children]. apply in_flat_map in Hy as (c & Hc & Hy).
  apply in_flat_map. exists c. split; [exact Hc|].
  rewrite Forall_forall in IH. specialize (IH c Hc y Hy Hx).
  destruct c as [ct ctx ccs]. right. exact IH.
Qed.

(** A two-step path selects nothing its last step alone does not
    select. *)
Lemma findall_two_steps (root : Xml.Element) (t1 t2 : string)
  (ns : list (string * string)) (e : Xml.Element) :
  In e (Xml.findall root [t1; t2] ns) -> In e (Xml.findall root [t2] ns).
Proof.
  unfold Xml.findall. cbn [fold_left]. unfold Xml.descend.
  cbn [flat_map]. rewrite !app_nil_r.
  intros He. apply in_flat_map in He as (y & Hy & He).
  unfold Xml.tagged in *. apply filter_In in Hy as [Hy _].
  apply filter_In in He as [He Htag]. apply filter_In. split; [|exact Htag].
  apply in_flat_map in Hy as (c & Hc & Hy).
  apply in_flat_map. exists c. split; [exact Hc|].
  pose proof (descendant_trans e y c Hy He) as H.
  destruct c as [ct ctx ccs]. right. exact H.
Qed.

Lemma coord_elements_searches (root : Xml.Element) (ns : list (string * string)) :
  Kml.coord_elements root ns
  = Xml.findall root [Kml.search_tag ns "coordinates"] ns
    ++ Xml.findall root [Kml.search_tag ns "Point"; Kml.search_tag ns "coordinates"] ns
    ++ Xml.findall root
         [Kml.search_tag ns "LinearRing"; Kml.search_tag ns "coordinates"] ns.
Proof. destruct ns; reflexivity. Qed.

(** X7. Under every prefix map the first of the three searches of
    [parse_kml] already selects every element the searches under [Point]
    and under [LinearRing] select: these two add no element, and every
    element they select is read twice or more. *)
Theorem coord_elements_searches_overlap (root : Xml.Element)
  (ns : list (string * string)) (e : Xml.Element) :
  (In e (Kml.coord_elements root ns) ->
   In e (Xml.findall root [Kml.search_tag ns "coordinates"] ns))
  /\ (In e (Xml.findall root
              [Kml.search_tag ns "Point"; Kml.search_tag ns "coordinates"] ns)
      \/ In e (Xml.findall root
                 [Kml.search_tag ns "LinearRing"; Kml.search_tag ns "coordinates"] ns) ->
      exists l1 l2 l3, Kml.coord_elements root ns = l1 ++ e :: l2 ++ e :: l3).
Proof.
  rewrite coord_elements_searches. split.
  - intros H. apply in_app_or in H as [H | H]; [exact H|].
    apply in_app_or in H as [H | H]; eapply findall_two_steps; exact H.
  - intros H.
    assert (H1 : In e (Xml.findall root [Kml.search_tag ns "coordinates"] ns))
      by (destruct H as [H | H]; eapply findall_two_steps; exact H).
    apply in_split in H1 as (a1 & a2 & ->).
    destruct H as [H | H]; apply in_split in H as (b1 & b2 & ->).
    + exists a1, (a2 ++ b1), (b2 ++ Xml.findall root
                 [Kml.search_tag ns "LinearRing"; Kml.search_tag ns "coordinates"] ns).
      now rewrite <- !app_assoc.
    + exists a1, (a2 ++ Xml.findall root
                 [Kml.search_tag ns "Point"; Kml.search_tag ns "coordinates"] ns ++ b1), b2.
      now rewrite <- !app_assoc.
Qed.

Lemma coord_elements_searches_overlap_witness :
  exists e l1 l2 l3,
    Kml.coord_elements
      (Kml.manual_tree Ref.float_repr Samples.waypoints "2024-05-01"%string)
      [("kml"%string, Kml.kml22)]
    = l1 ++ e :: l2 ++ e :: l3.
Proof.
  exists (Kml.point_coordinates Ref.float_repr
            {| Kml.wp_lat := 24.6; Kml.wp_lon := 72.5 |}).
  apply (coord_elements_searches_overlap
           (Kml.manual_tree Ref.float_repr Samples.waypoints "2024-05-01"%string)
           [("kml"%string, Kml.kml22)]).
  left. vm_compute. left. reflexivity.
Defined.

(** ** Degrees, minutes and seconds of a negative value *)

Lemma render_fields (d1 d2 : string) (dms : Z * Z * float) :
  option_map Dms.deg_str (Dms.render d1 dms) = option_map Dms.deg_str (Dms.render d2 dms)
  /\ option_map Dms.min_str (Dms.render d1 dms) = option_map Dms.min_str (Dms.render d2 dms)
  /\ option_map Dms.sec_formatted (Dms.render d1 dms)
     = option_map Dms.sec_formatted (Dms.render d2 dms)
  /\ option_map Dms.direction (Dms.render d1 dms)
     = option_map (fun _ => d1) (Dms.render d2 dms).
Proof.
  destruct dms as [[deg min_val] sec]. unfold Dms.render.
  destruct (int_of_float sec); repeat split.
Qed.

Lemma decompose_opp (x : float) : Dms.decompose (- x) = Dms.decompose x.
Proof. unfold Dms.decompose. now rewrite abs_opp. Qed.

(** X8. The degrees, the minutes and the seconds written for [-x] are
    those written for [x]: the sign only chooses the letter, and the
    conversion of [-x] raises exactly when that of [x] does. *)
Theorem dms_fields_mirror (x : float) (is_lat : bool) :
  option_map Dms.deg_str (Dms.dms_fields (- x) is_lat)
  = option_map Dms.deg_str (Dms.dms_fields x is_lat)
  /\ option_map Dms.min_str (Dms.dms_fields (- x) is_lat)
     = option_map Dms.min_str (Dms.dms_fields x is_lat)
  /\ option_map Dms.sec_formatted (Dms.dms_fields (- x) is_lat)
     = option_map Dms.sec_formatted (Dms.dms_fields x is_lat)
  /\ (Dms.decimal_to_dms_formatted (- x) is_lat = None
      <-> Dms.decimal_to_dms_formatted x is_lat = None).
Proof.
  unfold Dms.decimal_to_dms_formatted, Dms.dms_fields.
  rewrite decompose_opp.
  destruct (Dms.decompose x) as [dms|]; [|now repeat split].
  destruct (render_fields (Dms.direction_of (- x) is_lat)
              (Dms.direction_of x is_lat) (Dms.carry dms)) as (H1 & H2 & H3 & H4).
  repeat split; try assumption.
  - destruct (Dms.render (Dms.direction_of x is_lat) (Dms.carry dms));
      destruct (Dms.render (Dms.direction_of (- x) is_lat) (Dms.carry dms));
      cbn in *; congruence.
  - destruct (Dms.render (Dms.direction_of x is_lat) (Dms.carry dms));
      destruct (Dms.render (Dms.direction_of (- x) is_lat) (Dms.carry dms));
      cbn in *; congruence.
Qed.

Lemma int_of_float_number (x : float) (z : Z) :
  int_of_float x = Some z -> compared x <> None.
Proof.
  unfold int_of_float, compared. destruct (Prim2SF x); cbn; congruence.
Qed.

Lemma abs_number (x : float) : compared (abs x) <> None -> compared x <> None.
Proof.
  unfold compared. rewrite abs_spec. destruct (Prim2SF x); cbn; congruence.
Qed.

Lemma zero_number : compared 0%float <> None.
Proof. discriminate. Qed.

(** X9. Whenever the conversion returns, the letter is [S] (or [W] for a
    longitude) exactly when the value is below zero: the negative zero
    is written with [N] (or [E]), and [nan], of which [>= 0] is false
    too, never gets as far as a letter. *)
Theorem dms_direction_sign (x : float) (is_lat : bool) (f : Dms.fields) :
  Dms.dms_fields x is_lat = Some f ->
  Dms.direction f
  = (if (x <? 0)%float then (if is_lat then "S" else "W")
     else (if is_lat then "N" else "E"))%string.
Proof.
  unfold Dms.dms_fields. destruct (Dms.decompose x) as [dms|] eqn:Hd; [|discriminate].
  assert (Hx : compared x <> None).
  { unfold Dms.decompose in Hd.
    destruct (int_of_float (abs x)) as [deg|] eqn:Hi; [|discriminate].
    apply abs_number. now apply (int_of_float_number _ deg). }
  intros Hr.
  assert (Hdir : Dms.direction f = Dms.direction_of x is_lat).
  { destruct (Dms.carry dms) as [[deg min_val] sec]. unfold Dms.render in Hr.
    destruct (int_of_float sec); [|discriminate]. now injection Hr as <-. }
  rewrite Hdir. unfold Dms.direction_of.
  destruct (0 <=? x)%float eqn:Hle.
  - destruct (x <? 0)%float eqn:Hlt; [|reflexivity].
    apply ltb_leb_false in Hlt. congruence.
  - rewrite (leb_false_ltb 0 x zero_number Hx Hle). reflexivity.
Qed.

Lemma dms_direction_sign_witness :
  exists f,
    Dms.dms_fields (-0)%float true = Some f /\ Dms.direction f = "N"%string.
Proof.
  eexists. split; [vm_compute; reflexivity|].
  apply (dms_direction_sign (-0)%float true). vm_compute. reflexivity.
Defined.


(** ** Route statistics *)

Lemma segments_snoc {A} (a : A) (l : list A) (z d : A) :
  Geo.segments ((a :: l) ++ [z])
  = Geo.segments (a :: l) ++ [(last (a :: l) d, z)].
Proof.
  unfold Geo.segments. revert a. induction l as [|b l IH]; intros a; [reflexivity|].
  change (combine (((a :: b :: l) ++ [z])) (tl ((a :: b :: l) ++ [z])))
    with ((a, b) :: combine ((b :: l) ++ [z]) (tl ((b :: l) ++ [z]))).
  rewrite IH. reflexivity.
Qed.

Lemma segments_map {A B} (f : A -> B) (l : list A) :
  Geo.segments (map f l) = map (fun p => (f (fst p), f (snd p))) (Geo.segments l).
Proof.
  unfold Geo.segments. destruct l as [|a l]; [reflexivity|]. cbn [map tl].
  revert a. induction l as [|b l IH]; intros a; [reflexivity|].
  cbn [map combine fst snd]. f_equal. apply IH.
Qed.

Lemma last_map {A B} (f : A -> B) (l : list A) (d : A) :
  last (map f l) (f d) = f (last l d).
Proof.
  induction l as [|a l IH]; [reflexivity|].
  destruct l as [|b l]; [reflexivity|]. exact IH.
Qed.

Section RouteStatistics.
Variables libm_sin libm_cos : float -> float.
Variables libm_atan2 libm_pow : float -> float -> float.

Let add_leg := Geo.add_leg libm_sin libm_cos libm_atan2 libm_pow.
Let polyline_length :=
  Geo.calculate_polyline_length libm_sin libm_cos libm_atan2 libm_pow.
Let route_step := App.route_step libm_sin libm_cos libm_atan2 libm_pow.
Let route_total_distance :=
  App.route_total_distance libm_sin libm_cos libm_atan2 libm_pow.

(** The polyline length as a fold over the consecutive pairs. *)
Lemma polyline_length_fold (coordinates : list Geo.point) :
  polyline_length coordinates
  = fold_left add_leg (Geo.segments coordinates) (Ok (Int 0, [])).
Proof.
  unfold polyline_length, Geo.calculate_polyline_length.
  rewrite range_of_length_pred.
  rewrite (fold_left_reads _ add_leg
             (fun i => (nth i coordinates (0, 0)%float,
                        nth (i + 1) coordinates (0, 0)%float))).
  - now rewrite map_seq_segments.
  - intros i s Hi. apply in_seq in Hi. apply polyline_step_reads. lia.
Qed.

Lemma add_leg_waypoints (st : result (num * list diagnostic))
  (wp1 wp2 : Kml.waypoint) :
  bind st (fun '(total_distance, log) =>
    let '(distance, msgs) :=
      App.waypoint_distance libm_sin libm_cos libm_atan2 libm_pow wp1 wp2 in
    Ok (add total_distance distance, log ++ msgs))
  = add_leg st (Kml.point_of wp1, Kml.point_of wp2).
Proof.
  destruct st as [[total log] | e]; reflexivity.
Qed.

Lemma route_step_inside (wps : list Kml.waypoint) (i : nat)
  (st : result (num * list diagnostic)) (d : Kml.waypoint) :
  (i < length wps - 1)%nat ->
  route_step wps st i
  = add_leg st (Kml.point_of (nth i wps d), Kml.point_of (nth (i + 1) wps d)).
Proof.
  intros Hi. rewrite <- add_leg_waypoints.
  unfold route_step, App.route_step.
  destruct st as [[total log] | e]; [|reflexivity]. cbn [bind].
  destruct (Z.ltb_spec (Z.of_nat i) (Z.of_nat (length wps) - 1)) as [_ | H]; [|lia].
  rewrite (getitem_nth wps i d) by lia.
  rewrite (getitem_nth wps (i + 1) d) by lia.
  reflexivity.
Qed.

Lemma route_step_last (wps : list Kml.waypoint) (i : nat)
  (st : result (num * list diagnostic)) :
  (length wps - 1 <= i)%nat -> route_step wps st i = st.
Proof.
  intros Hi. unfold route_step, App.route_step.
  destruct st as [[total log] | e]; [|reflexivity]. cbn [bind].
  destruct (Z.ltb_spec (Z.of_nat i) (Z.of_nat (length wps) - 1)) as [H | _];
    [lia | reflexivity].
Qed.

(** The loop of the route statistics walks the consecutive pairs. *)
Lemma route_loop (wps : list Kml.waypoint) :
  fold_left (route_step wps) (Geo.range (Z.of_nat (length wps))) (Ok (Int 0, []))
  = fold_left add_leg (Geo.segments (map Kml.point_of wps)) (Ok (Int 0, [])).
Proof.
  rewrite range_of_length.
  destruct wps as [|w wps]; [reflexivity|].
  set (l := w :: wps).
  replace (length l) with (S (length l - 1)) at 1 by (subst l; cbn; lia).
  rewrite seq_S, fold_left_app. cbn [fold_left Nat.add].
  rewrite route_step_last by lia.
  rewrite (fold_left_reads _ add_leg
             (fun i => (Kml.point_of (nth i l w), Kml.point_of (nth (i + 1) l w))))
    by (intros i s Hi; apply in_seq in Hi; apply route_step_inside; lia).
  rewrite segments_map, <- (map_seq_segments l w), map_map. reflexivity.
Qed.

(** X10. The total distance of the route statistics is the polyline
    length of the path that [create_kml_manual] writes as the flight
    path: the waypoints in order and, when there are more than two, the
    first one again.  With two waypoints the way back is not counted. *)
Theorem route_total_is_path_length (wps : list Kml.waypoint) :
  route_total_distance wps
  = polyline_length (map Kml.point_of (Kml.path_points wps)).
Proof.
  unfold route_total_distance, App.route_total_distance.
  fold route_step. rewrite route_loop, polyline_length_fold.
  unfold Kml.path_points.
  destruct (Nat.ltb_spec 2 (length wps)) as [Hn | Hn].
  - destruct wps as [|w wps]; [cbn in Hn; lia|].
    cbn [firstn]. rewrite map_app. cbn [map].
    rewrite (segments_snoc _ _ _ (Kml.point_of w)).
    rewrite fold_left_app. cbn [fold_left].
    change (Kml.point_of w :: map Kml.point_of wps)
      with (map Kml.point_of (w :: wps)).
    rewrite (getitem_nth (w :: wps) _ w) by (cbn [length]; lia).
    cbn [bind Geo.getitem nth_error].
    replace (length (w :: wps) - 1)%nat with (length wps) by (cbn; lia).
    rewrite nth_last, (last_map Kml.point_of (w :: wps) w).
    destruct (fold_left add_leg (Geo.segments (map Kml.point_of (w :: wps)))
                (Ok (Int 0, []))) as [[total log] | e]; reflexivity.
  - now rewrite app_nil_r.
Qed.

End RouteStatistics.

(** ** Legs of the log sheet *)

Lemma legs_step_reads (wps : list Kml.waypoint) (i : nat)
  (acc : list (Kml.waypoint * Kml.waypoint * nat)) (d : Kml.waypoint) :
  (i < length wps)%nat ->
  App.legs_step wps (Ok acc) i
  = Ok (acc ++ [(nth i wps d, nth ((i + 1) mod length wps) wps d, i)]).
Proof.
  intros Hi. unfold App.legs_step. cbn [bind].
  rewrite (getitem_nth wps i d) by lia.
  rewrite (getitem_nth wps _ d) by (apply Nat.mod_upper_bound; lia).
  reflexivity.
Qed.

Lemma legs_loop (wps : list Kml.waypoint) (d : Kml.waypoint) (ixs : list nat)
  (acc : list (Kml.waypoint * Kml.waypoint * nat)) :
  (forall i, In i ixs -> (i < length wps)%nat) ->
  fold_left (App.legs_step wps) ixs (Ok acc)
  = Ok (acc ++ map (fun i => (nth i wps d, nth ((i + 1) mod length wps) wps d, i)) ixs).
Proof.
  revert acc. induction ixs as [|i ixs IH]; intros acc Hin.
  - cbn. now rewrite app_nil_r.
  - cbn [fold_left map]. rewrite (legs_step_reads wps i acc d) by (apply Hin; now left).
    rewrite IH by (intros j Hj; apply Hin; now right).
    now rewrite <- app_assoc.
Qed.

(** X11. The log sheet has one leg for every waypoint: leg [i] goes from
    waypoint [i] to the next one, and the last leg goes back to the
    first waypoint, also when there are only two waypoints (which the
    route statistics do not close).  With fewer than two waypoints there
    is no leg. *)
Theorem legs_are_closed_edges (wps : list Kml.waypoint) :
  App.legs wps
  = Ok (if (2 <=? length wps)%nat
        then map (fun '(edge, i) => (fst edge, snd edge, i))
               (combine (Geo.closed_edges wps) (seq 0 (length wps)))
        else [])
  /\ length (Geo.closed_edges wps) = length wps
  /\ (forall a b : Kml.waypoint, Geo.closed_edges [a; b] = [(a, b); (b, a)]).
Proof.
  split; [|split; [apply closed_edges_length | reflexivity]].
  unfold App.legs. destruct (2 <=? length wps)%nat; [|reflexivity].
  destruct wps as [|w wps]; [reflexivity|].
  rewrite range_of_length.
  rewrite (legs_loop (w :: wps) w) by (intros i Hi; now apply in_seq in Hi).
  cbn [app]. f_equal.
  rewrite <- (map_seq_closed_edges (w :: wps) w).
  set (n := length (w :: wps)). generalize (seq 0 n). intros ixs.
  induction ixs as [|i ixs IH]; [reflexivity|].
  cbn [map combine fst snd]. now rewrite IH.
Qed.

(** ** Drawings handed back by the map *)

Lemma spaced_snoc (wps : list Kml.waypoint) (lat lon : float) :
  App.spaced wps ->
  existsb (App.near lat lon) wps = false ->
  App.spaced (wps ++ [{| Kml.wp_lat := lat; Kml.wp_lon := lon |}]).
Proof.
  induction wps as [|w wps IH]; intros Hs Hn.
  - cbn. split; [intros later []|exact I].
  - cbn [existsb] in Hn. apply orb_false_iff in Hn as [Hw Hn].
    destruct Hs as [Hlater Hs]. cbn [app App.spaced]. split.
    + intros later Hin. apply in_app_or in Hin as [Hin | [<- | []]].
      * now apply Hlater.
      * exact Hw.
    + now apply IH.
Qed.

Lemma process_drawing_cases (s : App.session) (d : App.drawing) :
  (App.waypoints (fst (App.process_drawing s d)) = App.waypoints s
   /\ App.processed_markers (fst (App.process_drawing s d)) = App.processed_markers s)
  \/ (exists lon lat,
        d = App.DPoint lon lat
        /\ existsb (App.near lat lon) (App.waypoints s) = false
        /\ existsb (Kml.tuple_eqb (round_float lat 6, round_float lon 6))
             (App.processed_markers s) = false
        /\ App.process_drawing s d
           = ({| App.waypoints :=
                   App.waypoints s ++ [{| Kml.wp_lat := lat; Kml.wp_lon := lon |}];
                 App.processed_markers :=
                   (round_float lat 6, round_float lon 6) :: App.processed_markers s;
                 App.active_polyline := App.active_polyline s |}, true)).
Proof.
  destruct d as [lon lat | coords |]; [|left; now split..].
  unfold App.process_drawing.
  destruct (existsb (Kml.tuple_eqb _) (App.processed_markers s)) eqn:Hm;
    [left; now split|].
  destruct (existsb (App.near lat lon) (App.waypoints s)) eqn:He;
    [left; now split|].
  right. exists lon, lat. now repeat split.
Qed.

(** X12. One run over the drawings adds at most one waypoint, at the end
    of the list, and then remembers its marker; the waypoint it adds is
    a drawn point that is not within 0.0001 degrees, on both axes, of
    any waypoint there was.  So waypoints that are pairwise that far
    apart stay so. *)
Theorem process_drawings_adds_one_spaced (s : App.session)
  (drawings : list App.drawing) :
  ((App.waypoints (App.process_drawings s drawings) = App.waypoints s
    /\ App.processed_markers (App.process_drawings s drawings)
       = App.processed_markers s)
   \/ exists lon lat,
        In (App.DPoint lon lat) drawings
        /\ existsb (App.near lat lon) (App.waypoints s) = false
        /\ App.waypoints (App.process_drawings s drawings)
           = App.waypoints s ++ [{| Kml.wp_lat := lat; Kml.wp_lon := lon |}]
        /\ App.processed_markers (App.process_drawings s drawings)
           = (round_float lat 6, round_float lon 6) :: App.processed_markers s)
  /\ (App.spaced (App.waypoints s) ->
      App.spaced (App.waypoints (App.process_drawings s drawings))).
Proof.
  assert (Hone :
    (App.waypoints (App.process_drawings s drawings) = App.waypoints s
     /\ App.processed_markers (App.process_drawings s drawings)
        = App.processed_markers s)
    \/ exists lon lat,
         In (App.DPoint lon lat) drawings
         /\ existsb (App.near lat lon) (App.waypoints s) = false
         /\ App.waypoints (App.process_drawings s drawings)
            = App.waypoints s ++ [{| Kml.wp_lat := lat; Kml.wp_lon := lon |}]
         /\ App.processed_markers (App.process_drawings s drawings)
            = (round_float lat 6, round_float lon 6) :: App.processed_markers s).
  { revert s. induction drawings as [|d rest IH]; intros s; [now left|].
    cbn [App.process_drawings].
    destruct (process_drawing_cases s d) as [(Hw & Hm) | (lon & lat & -> & Hn & _ & Hp)].
    - destruct (App.process_drawing s d) as [s' rerun]. cbn [fst snd] in *.
      destruct rerun; [now left|].
      rewrite <- Hw, <- Hm.
      destruct (IH s') as [Hsame | (lon & lat & Hin & Hn & Hadd & Hmark)].
      + now left.
      + right. exists lon, lat. repeat split; try assumption. now right.
    - rewrite Hp. cbn [App.waypoints App.processed_markers].
      right. exists lon, lat. repeat split; try assumption. now left. }
  split; [exact Hone|]. intros Hs.
  destruct Hone as [[Hw _] | (lon & lat & _ & Hn & Hw & _)]; rewrite Hw.
  - exact Hs.
  - now apply spaced_snoc.
Qed.

Lemma process_drawings_adds_one_spaced_witness :
  App.spaced (App.waypoints (App.process_drawings Samples.session_1 Samples.drawings_1))
  /\ length (App.waypoints (App.process_drawings Samples.session_1 Samples.drawings_1))
     = 3%nat.
Proof.
  split; [|vm_compute; reflexivity].
  apply (proj2 (process_drawings_adds_one_spaced Samples.session_1 Samples.drawings_1)).
  cbn. repeat split; try exact I; intros later Hin;
    repeat (destruct Hin as [<- | Hin]; [vm_compute; reflexivity|]);
    contradiction.
Defined.

(** ** Waypoints from the vertices of a polyline *)

Lemma generate_loop (coordinates : list (list float)) (acc : list Kml.waypoint) :
  fold_left App.generate_step coordinates (Ok acc)
  = if forallb (fun coord => (2 <=? length coord)%nat) coordinates
    then Ok (acc ++ map (fun coord =>
                           {| Kml.wp_lat := nth 0 coord 0%float;
                              Kml.wp_lon := nth 1 coord 0%float |}) coordinates)
    else Raise IndexError.
Proof.
  revert acc. induction coordinates as [|c cs IH]; intros acc.
  - cbn. now rewrite app_nil_r.
  - cbn [fold_left forallb map].
    destruct c as [|lat [|lon rest]].
    + cbn. clear. induction cs; [reflexivity | assumption].
    + cbn. clear. induction cs; [reflexivity | assumption].
    + cbn [length Nat.leb andb]. unfold App.generate_step at 2.
      cbn. rewrite IH. now rewrite <- app_assoc.
Qed.

(** X13. [generate_waypoints_from_polyline_vertices] makes one waypoint
    of every vertex, in order, from its first two items, whatever
    follows them; a vertex with fewer than two items is an [IndexError]
    and no waypoint is returned.  The vertices of a list of waypoints
    give the waypoints back. *)
Theorem generate_waypoints_of_vertices (coordinates : list (list float)) :
  App.generate_waypoints_from_polyline_vertices coordinates
  = (if forallb (fun coord => (2 <=? length coord)%nat) coordinates
     then Ok (map (fun coord => {| Kml.wp_lat := nth 0 coord 0%float;
                                   Kml.wp_lon := nth 1 coord 0%float |})
                coordinates)
     else Raise IndexError)
  /\ (forall wps,
        App.generate_waypoints_from_polyline_vertices (map App.vertex_of wps)
        = Ok wps).
Proof.
  split.
  - apply (generate_loop coordinates []).
  - intros wps. unfold App.generate_waypoints_from_polyline_vertices.
    rewrite generate_loop.
    replace (forallb _ (map App.vertex_of wps)) with true
      by (induction wps; [reflexivity | assumption]).
    cbn [app]. f_equal. rewrite map_map.
    induction wps as [|[lat lon] wps IH]; [reflexivity|].
    cbn [map]. rewrite IH. reflexivity.
Qed.

(** X14. A line string the map hands back as [[lon, lat]] positions
    becomes the active polyline with every position turned round, and
    the waypoints generated from it have the latitude and the longitude
    of the position in their places; the drawing touches neither the
    waypoints nor the markers, and the run ends at it. *)
Theorem drawn_line_to_waypoints (s : App.session) (coords : list (float * float)) :
  exists polyline,
    App.active_polyline (fst (App.process_drawing s (App.DLineString coords)))
    = Some polyline
    /\ length polyline = length coords
    /\ App.generate_waypoints_from_polyline_vertices polyline
       = Ok (map (fun c => {| Kml.wp_lat := snd c; Kml.wp_lon := fst c |}) coords)
    /\ App.waypoints (fst (App.process_drawing s (App.DLineString coords)))
       = App.waypoints s
    /\ App.processed_markers (fst (App.process_drawing s (App.DLineString coords)))
       = App.processed_markers s
    /\ snd (App.process_drawing s (App.DLineString coords)) = true.
Proof.
  eexists.
  cbn [App.process_drawing fst snd App.active_polyline App.waypoints
       App.processed_markers].
  repeat split.
  - apply length_map.
  - unfold App.generate_waypoints_from_polyline_vertices. rewrite generate_loop.
    replace (forallb _ (map _ coords)) with true
      by (induction coords; [reflexivity | assumption]).
    cbn [app]. f_equal. rewrite map_map. reflexivity.
Qed.

(** X15. A run ends at the first line string among the drawings: the
    drawings after it are not looked at in that run, so a point drawn
    after a line string is not made a waypoint, and a later line string
    does not become the active polyline. *)
Theorem line_string_ends_run (s : App.session) (before after : list App.drawing)
  (coords : list (float * float)) :
  App.process_drawings s (before ++ App.DLineString coords :: after)
  = App.process_drawings s (before ++ [App.DLineString coords]).
Proof.
  revert s. induction before as [|d before IH]; intros s; [reflexivity|].
  cbn [app App.process_drawings].
  destruct (App.process_drawing s d) as [s' rerun].
  destruct rerun; [reflexivity | apply IH].
Qed.

(** ** Distance of points far apart *)

Lemma ltb_zero_cases (x : float) :
  (x <? 0)%float = true ->
  Prim2SF x = S754_infinity true \/ exists m e, Prim2SF x = S754_finite true m e.
Proof.
  rewrite ltb_spec. unfold SFltb, SFcompare.
  change (Prim2SF 0) with (S754_zero false).
  destruct (Prim2SF x) as [s | s | | s m e]; try discriminate.
  - destruct s; [now left | discriminate].
  - destruct s; [right; eauto | discriminate].
Qed.

Lemma is_nan_spec (x : float) :
  is_nan x = match Prim2SF x with S754_nan => true | _ => false end.
Proof.
  unfold is_nan. rewrite FloatAxioms.eqb_spec. unfold SFeqb, SFcompare.
  destruct (Prim2SF x) as [s | s | | s m e]; try destruct s; try reflexivity.
  all: rewrite Z.compare_refl; fold (Pos.compare m m);
    now rewrite Pos.compare_refl.
Qed.

(** [math.sqrt] of a value below zero raises. *)
Lemma sqrt_negative (x : float) :
  (x <? 0)%float = true ->
  PyMath.sqrt x = Raise (ValueError "math domain error").
Proof.
  intros Hx. unfold PyMath.sqrt, PyMath.math_1.
  rewrite !is_nan_spec, sqrt_spec.
  destruct (ltb_zero_cases x Hx) as [-> | (m & e & ->)]; reflexivity.
Qed.

Lemma math_1_raises (f : float -> float) (x : float) (e : exn) :
  PyMath.math_1 f x = Raise e -> e = ValueError "math domain error".
Proof.
  unfold PyMath.math_1.
  destruct (is_nan (f x) && negb (is_nan x)); [congruence|].
  destruct (is_infinity (f x) && is_finite x); congruence.
Qed.

Section FarApart.
Variables libm_sin libm_cos : float -> float.
Variables libm_atan2 libm_pow : float -> float -> float.

(** X16. The value [a] of the haversine formula is not clamped to
    [0, 1]: for points within the ranges for which the C library's
    values make [1 - a] negative, as rounding does for some antipodal
    points, the square root raises, and [calculate_distance] reports an
    error and returns the int 0 instead of the half circumference. *)
Theorem calculate_distance_unclamped (lat1 lon1 lat2 lon2 a : float) :
  Geo.lat_ok lat1 = true -> Geo.lat_ok lat2 = true ->
  Geo.lon_ok lon1 = true -> Geo.lon_ok lon2 = true ->
  Geo.haversine_a libm_sin libm_cos libm_pow lat1 lon1 lat2 lon2 = Ok a ->
  (1 - a <? 0)%float = true ->
  Geo.calculate_distance libm_sin libm_cos libm_atan2 libm_pow lat1 lon1 lat2 lon2
  = (Int 0, [StError "Distance calculation error: "
               (Some (ValueError "math domain error"))]).
Proof.
  intros H1 H2 H3 H4 Ha Hneg.
  unfold Geo.calculate_distance, Geo.haversine.
  cbn [forallb]. rewrite H1, H2, H3, H4. cbn [andb negb orb].
  unfold Geo.haversine_a in Ha. cbv zeta in Ha |- *.
  destruct (Geo.math_sin libm_sin _) as [s1|]; [|discriminate]. cbn [bind] in *.
  destruct (Geo.pow2 libm_pow s1) as [h1|]; [|discriminate]. cbn [bind] in *.
  destruct (Geo.math_cos libm_cos _) as [c1|]; [|discriminate]. cbn [bind] in *.
  destruct (Geo.math_cos libm_cos _) as [c2|]; [|discriminate]. cbn [bind] in *.
  destruct (Geo.math_sin libm_sin _) as [s2|]; [|discriminate]. cbn [bind] in *.
  destruct (Geo.pow2 libm_pow s2) as [h2|]; [|discriminate]. cbn [bind] in *.
  injection Ha as Ha. rewrite Ha.
  destruct (PyMath.sqrt a) as [q1 | e] eqn:Hq; cbn [bind].
  - now rewrite (sqrt_negative _ Hneg).
  - apply math_1_raises in Hq. now subst e.
Qed.

End FarApart.

Lemma calculate_distance_unclamped_witness :
  Geo.calculate_distance Samples.sin_at Samples.cos_at (fun _ _ => 0%float)
    Samples.square
    (fst Samples.antipode_1) (snd Samples.antipode_1)
    (fst Samples.antipode_2) (snd Samples.antipode_2)
  = (Int 0, [StError "Distance calculation error: "
               (Some (ValueError "math domain error"))]).
Proof.
  apply (calculate_distance_unclamped Samples.sin_at Samples.cos_at
           (fun _ _ => 0%float) Samples.square _ _ _ _ 1.0000000000000002%float);
    vm_compute; reflexivity.
Defined.


(** ** Area of a polygon *)

Section PolygonArea.
Variable libm_sin : float -> float.
Variable projected_area : list Geo.point -> result float.
Variable str_exn : exn -> string.

Let polygon_area := Geo.calculate_polygon_area libm_sin projected_area str_exn.

(** The approximate area as a fold over the edges of the closed
    polygon. *)
Lemma area_approximate_fold (coordinates : list Geo.point) :
  (3 <= length coordinates)%nat ->
  Geo.calculate_polygon_area_approximate libm_sin coordinates
  = bind (fold_left (Geo.add_edge libm_sin) (Geo.closed_edges coordinates)
            (Ok (Int 0)))
      (fun area => Ok (Geo.to_hectares area)).
Proof.
  intros Hge. unfold Geo.calculate_polygon_area_approximate.
  destruct (Nat.ltb_spec (length coordinates) 3) as [Hlt | _]; [lia|].
  rewrite range_of_length.
  rewrite (fold_left_reads _ (Geo.add_edge libm_sin)
             (fun i => (nth i coordinates (0, 0)%float,
                        nth ((i + 1) mod length coordinates) coordinates
                          (0, 0)%float)))
    by (intros i s Hi; apply in_seq in Hi; apply area_step_reads; lia).
  now rewrite map_seq_closed_edges.
Qed.

Lemma closed_edges_points (coordinates : list Geo.point) (e : Geo.point * Geo.point) :
  In e (Geo.closed_edges coordinates) ->
  In (fst e) coordinates /\ In (snd e) coordinates.
Proof.
  destruct e as [p q]. intros He. apply in_combine_both in He as [Hp Hq].
  split; [exact Hp|]. cbn [snd].
  apply in_app_or in Hq as [Hq | Hq].
  - destruct coordinates; [contradiction | now right].
  - destruct coordinates as [|c cs]; [contradiction|].
    destruct Hq as [<- | []]. now left.
Qed.

Lemma fold_edges_returns (edges : list (Geo.point * Geo.point)) (area : num) :
  (forall e, In e edges ->
             Geo.sin_returns libm_sin (fst e) /\ Geo.sin_returns libm_sin (snd e)) ->
  exists total, fold_left (Geo.add_edge libm_sin) edges (Ok area) = Ok total.
Proof.
  revert area. induction edges as [|[p q] edges IH]; intros area Hs; [now exists area|].
  cbn [fold_left]. unfold Geo.add_edge at 2. cbn [bind fst snd].
  destruct (Hs (p, q)) as [Hp Hq]; [now left|]. cbn [fst snd] in Hp, Hq.
  rewrite (excess_term_returns libm_sin p q Hp Hq). cbn [bind].
  apply IH. intros e He. apply Hs. now right.
Qed.

(** X17. [calculate_polygon_area] returns the int 0 for fewer than 3
    points without projecting anything.  Otherwise, when the projection
    raises, it warns once, naming the exception, and what it returns is
    computed over the edges of the closed polygon by the spherical
    formula; with sines that return it raises nothing.  When the
    projection returns there is no warning. *)
Theorem calculate_polygon_area_falls_back (coordinates : list Geo.point) :
  ((length coordinates < 3)%nat -> polygon_area coordinates = ([], Ok (Int 0)))
  /\ ((3 <= length coordinates)%nat ->
      forall e, projected_area coordinates = Raise e ->
      (forall p, In p coordinates -> Geo.sin_returns libm_sin p) ->
      exists total,
        fold_left (Geo.add_edge libm_sin) (Geo.closed_edges coordinates) (Ok (Int 0))
        = Ok total
        /\ polygon_area coordinates
           = ([StWarning ("Area calculation warning: " +++ str_exn e
                          +++ ". Using approximate method.")],
              Ok (Geo.to_hectares total)))
  /\ ((3 <= length coordinates)%nat ->
      forall area_sq_m, projected_area coordinates = Ok area_sq_m ->
      polygon_area coordinates = ([], Ok (Float (area_sq_m / 10000)%float))).
Proof.
  unfold polygon_area, Geo.calculate_polygon_area. repeat split.
  - intros Hlt. apply Nat.ltb_lt in Hlt. now rewrite Hlt.
  - intros Hge e He Hsin.
    destruct (Nat.ltb_spec (length coordinates) 3) as [Hlt | _]; [lia|].
    rewrite He, (area_approximate_fold coordinates Hge).
    destruct (fold_edges_returns (Geo.closed_edges coordinates) (Int 0))
      as [total Ht].
    { intros edge Hedge. apply closed_edges_points in Hedge as [Hp Hq].
      split; now apply Hsin. }
    exists total. now rewrite Ht.
  - intros Hge area_sq_m Ha.
    destruct (Nat.ltb_spec (length coordinates) 3) as [Hlt | _]; [lia|].
    now rewrite Ha.
Qed.

End PolygonArea.

Lemma calculate_polygon_area_falls_back_witness :
  exists total,
    fold_left (Geo.add_edge Samples.sin_cubic) (Geo.closed_edges Samples.triangle)
      (Ok (Int 0)) = Ok total
    /\ Geo.calculate_polygon_area Samples.sin_cubic
         (fun _ => Raise (TypeError "no projection")) (fun _ => "no projection"%string)
         Samples.triangle
       = ([StWarning "Area calculation warning: no projection. Using approximate method."],
          Ok (Geo.to_hectares total)).
Proof.
  destruct (calculate_polygon_area_falls_back Samples.sin_cubic
              (fun _ => Raise (TypeError "no projection"))
              (fun _ => "no projection"%string) Samples.triangle)
    as (_ & H & _).
  apply (H ltac:(cbn; lia) (TypeError "no projection")).
  - reflexivity.
  - intros p Hp.
    repeat (destruct Hp as [<- | Hp]; [vm_compute; reflexivity|]).
    contradiction.
Defined.

(** ** Values that are no finite number *)

Lemma is_infinity_spec (x : float) :
  is_infinity x = match Prim2SF x with S754_infinity _ => true | _ => false end.
Proof.
  unfold is_infinity. rewrite FloatAxioms.eqb_spec, abs_spec.
  change (Prim2SF infinity) with (S754_infinity false).
  destruct (Prim2SF x) as [s | s | | s m e]; reflexivity.
Qed.

(** X18. [decimal_to_dms_formatted] returns no string for [nan] and for
    the infinities: the first [int()] raises. *)
Theorem dms_not_finite_raises (x : float) (is_lat : bool) :
  is_finite x = false -> Dms.decimal_to_dms_formatted x is_lat = None.
Proof.
  unfold is_finite. rewrite is_nan_spec, is_infinity_spec. intros Hx.
  unfold Dms.decimal_to_dms_formatted, Dms.dms_fields, Dms.decompose, int_of_float.
  rewrite abs_spec.
  destruct (Prim2SF x) as [s | s | | s m e]; try discriminate; reflexivity.
Qed.

Lemma dms_not_finite_raises_witness :
  Dms.decimal_to_dms_formatted neg_infinity false = None.
Proof. apply dms_not_finite_raises. reflexivity. Defined.

